(** * epub-illustrator: the marker protocol, the spine, the cache and the
      repackager of [src/utils.py] and [src/image_gen.py]

    Python [str] values are modelled as [string]; a character is a code point
    below 256.  Python exceptions are modelled by the left summand of
    [result]. *)

From Stdlib Require Import String Ascii List Bool Arith ZArith Lia DecimalString DecimalNat.
Import ListNotations.
Local Open Scope list_scope.
Local Open Scope string_scope.

(** ** Exceptions *)

Inductive exn : Type :=
| ValueError : exn
| KeyError : string -> exn
| TypeError : exn
| AttributeError : exn
| FileNotFoundError : string -> exn.

Definition result (A : Type) : Type := (exn + A)%type.

(** ** Python string primitives *)

Module Py.

(** [s.startswith(p)] *)
Definition startswith (p s : string) : bool := String.prefix p s.

(** [s[n:]] *)
Fixpoint drop (n : nat) (s : string) : string :=
  match n, s with
  | O, _ => s
  | S _, EmptyString => EmptyString
  | S n', String _ s' => drop n' s'
  end.

(** [s[:n]] *)
Fixpoint take (n : nat) (s : string) : string :=
  match n, s with
  | O, _ => EmptyString
  | S _, EmptyString => EmptyString
  | S n', String c s' => String c (take n' s')
  end.

(** [s[i:j]] for [0 <= i], [0 <= j] *)
Definition slice (i j : nat) (s : string) : string := take (j - i) (drop i s).

(** [s.find(sub)]: the lowest index at which [sub] occurs, [None] for -1 *)
Fixpoint find (sub s : string) : option nat :=
  if startswith sub s then Some 0
  else match s with
       | EmptyString => None
       | String _ s' => option_map S (find sub s')
       end.

(** [sub in s] *)
Definition contains (sub s : string) : bool :=
  match find sub s with Some _ => true | None => false end.

(** [s.index(sub)] and [s.index(sub, start)]: as [find], but [ValueError]
    when there is no occurrence *)
Definition index (sub s : string) : result nat :=
  match find sub s with Some i => inr i | None => inl ValueError end.

Definition index_from (sub s : string) (start : nat) : result nat :=
  if Nat.ltb (String.length s) start then inl ValueError
  else match find sub (drop start s) with
       | Some i => inr (start + i)
       | None => inl ValueError
       end.

(** [s.split(c)] for a one-character separator *)
Fixpoint split (c : ascii) (s : string) : list string :=
  match s with
  | EmptyString => [EmptyString]
  | String a s' =>
      match split c s' with
      | [] => [EmptyString]
      | p :: ps => if Ascii.eqb a c then EmptyString :: p :: ps
                   else String a p :: ps
      end
  end.

(** [sep.join(parts)] *)
Definition join (sep : string) (parts : list string) : string :=
  String.concat sep parts.

(** [c.isspace()] on code points below 256 *)
Definition isspace (c : ascii) : bool :=
  let n := nat_of_ascii c in
  (Nat.leb 9 n && Nat.leb n 13) || (Nat.leb 28 n && Nat.leb n 32)
  || Nat.eqb n 133 || Nat.eqb n 160.

(** [s.lstrip()], [s.rstrip()], [s.strip()] *)
Fixpoint lstrip (s : string) : string :=
  match s with
  | EmptyString => EmptyString
  | String c s' => if isspace c then lstrip s' else s
  end.

Fixpoint rstrip (s : string) : string :=
  match s with
  | EmptyString => EmptyString
  | String c s' =>
      match rstrip s' with
      | EmptyString => if isspace c then EmptyString else String c EmptyString
      | r => String c r
      end
  end.

Definition strip (s : string) : string := rstrip (lstrip s).

(** [s.lstrip(c)], [s.rstrip(c)], [s.strip(c)] for a one-character set *)
Fixpoint lstrip_char (c : ascii) (s : string) : string :=
  match s with
  | EmptyString => EmptyString
  | String a s' => if Ascii.eqb a c then lstrip_char c s' else s
  end.

Fixpoint rstrip_char (c : ascii) (s : string) : string :=
  match s with
  | EmptyString => EmptyString
  | String a s' =>
      match rstrip_char c s' with
      | EmptyString => if Ascii.eqb a c then EmptyString else String a EmptyString
      | r => String a r
      end
  end.

Definition strip_char (c : ascii) (s : string) : string :=
  rstrip_char c (lstrip_char c s).

(** [s.replace(old, new)]: every non-overlapping occurrence of [old], found
    left to right, is replaced.  The scan is bounded by [fuel], which
    [replace] sets to the length of [s].  For an empty [old] Python puts
    [new] before every character and at the end. *)
Fixpoint intersperse (new s : string) : string :=
  match s with
  | EmptyString => new
  | String c s' => new ++ String c (intersperse new s')
  end.

Fixpoint replace_scan (fuel : nat) (old new s : string) : string :=
  match fuel with
  | O => s
  | S fuel' =>
      if startswith old s then new ++ replace_scan fuel' old new (drop (String.length old) s)
      else match s with
           | EmptyString => EmptyString
           | String c s' => String c (replace_scan fuel' old new s')
           end
  end.

Definition replace (old new s : string) : string :=
  match old with
  | EmptyString => intersperse new s
  | _ => replace_scan (String.length s) old new s
  end.

(** [str(n)] for a non-negative integer *)
Definition str_of_nat (n : nat) : string :=
  NilEmpty.string_of_uint (Nat.to_uint n).

End Py.

(** ** [utils.extract_illustrations] *)

Definition newline : ascii := ascii_of_nat 10.

Definition opening : string := "<!-- illustration:".
Definition closing : string := "-->".

(** The body of the [for line in content.split('\n')] loop, with the list
    [illustrations] threaded through. *)
Fixpoint extract_loop (lines : list string) (illustrations : list string)
  : result (list string) :=
  match lines with
  | [] => inr illustrations
  | line :: rest =>
      if Py.contains opening line then
        match Py.index opening line with
        | inl e => inl e
        | inr i =>
            let start := i + String.length opening in
            match Py.index_from closing line start with
            | inl e => inl e
            | inr end_ =>
                extract_loop rest
                  (illustrations ++ [Py.strip (Py.slice start end_ line)])%list
            end
        end
      else extract_loop rest illustrations
  end.

Definition extract_illustrations (content : string) : result (list string) :=
  extract_loop (Py.split newline content) [].

(** ** [html.escape] (with the default [quote=True]) *)

Definition dquote : string := String (ascii_of_nat 34) EmptyString.

Definition html_escape (s : string) : string :=
  let s := Py.replace "&" "&amp;" s in
  let s := Py.replace "<" "&lt;" s in
  let s := Py.replace ">" "&gt;" s in
  let s := Py.replace dquote "&quot;" s in
  let s := Py.replace "'" "&#x27;" s in
  s.

(** ** The marker literal and the image reference of [process_epub]

    [marker d] is the f-string [<!-- illustration: {illustration} -->] that is
    searched for, [img_tag] the f-string that replaces it. *)

Definition marker (illustration : string) : string :=
  "<!-- illustration: " ++ illustration ++ " -->".

Definition img_tag (img_rel_path illustration_filename illustration : string)
  : string :=
  "<p><img src='" ++ img_rel_path ++ "/" ++ illustration_filename
    ++ "' alt='" ++ html_escape illustration ++ "' /></p>".

Definition replace_marker
  (img_rel_path illustration_filename illustration content : string) : string :=
  Py.replace (marker illustration)
    (img_tag img_rel_path illustration_filename illustration) content.

(** ** [posixpath]: [os.path.join], [dirname], [normpath], [relpath] *)

Module posixpath.

Definition sep : ascii := "/"%char.

(** [s.endswith('/')] *)
Fixpoint endswith_sep (s : string) : bool :=
  match s with
  | EmptyString => false
  | String c EmptyString => Ascii.eqb c sep
  | String _ s' => endswith_sep s'
  end.

Definition join (a b : string) : string :=
  if Py.startswith "/" b then b
  else if String.eqb a EmptyString || endswith_sep a then a ++ b
  else a ++ "/" ++ b.

(** [p[:p.rfind('/') + 1]] *)
Fixpoint head_of (p : string) : string :=
  match p with
  | EmptyString => EmptyString
  | String c p' => if Py.contains "/" p then String c (head_of p') else EmptyString
  end.

Definition dirname (p : string) : string :=
  let head := head_of p in
  match Py.rstrip_char sep head with
  | EmptyString => head
  | r => r
  end.

(** The loop over the components in [normpath], with [new_comps] threaded. *)
Fixpoint norm_comps (initial_slashes : nat) (comps new_comps : list string)
  : list string :=
  match comps with
  | [] => new_comps
  | comp :: rest =>
      if String.eqb comp EmptyString || String.eqb comp "." then
        norm_comps initial_slashes rest new_comps
      else if negb (String.eqb comp "..")
              || (Nat.eqb initial_slashes 0
                  && match new_comps with [] => true | _ => false end)
              || match new_comps with
                 | [] => false
                 | _ => String.eqb (List.last new_comps EmptyString) ".."
                 end
      then norm_comps initial_slashes rest (new_comps ++ [comp])%list
      else match new_comps with
           | [] => norm_comps initial_slashes rest new_comps
           | _ => norm_comps initial_slashes rest (List.removelast new_comps)
           end
  end.

Definition normpath (path : string) : string :=
  if String.eqb path EmptyString then "."
  else
    let initial_slashes :=
      if Py.startswith "/" path then
        if Py.startswith "//" path && negb (Py.startswith "///" path) then 2
        else 1
      else 0 in
    let comps := norm_comps initial_slashes (Py.split sep path) [] in
    let path := Py.join "/" comps in
    let path :=
      match initial_slashes with
      | 0 => path
      | 1 => "/" ++ path
      | _ => "//" ++ path
      end in
    if String.eqb path EmptyString then "." else path.

Definition abspath (cwd path : string) : string := normpath (join cwd path).

Fixpoint common_prefix_len (a b : list string) : nat :=
  match a, b with
  | x :: a', y :: b' => if String.eqb x y then S (common_prefix_len a' b') else 0
  | _, _ => 0
  end.

Definition nonempty (l : list string) : list string :=
  List.filter (fun x => negb (String.eqb x EmptyString)) l.

(** [os.path.relpath(path, start)] in the working directory [cwd] *)
Definition relpath (cwd path start : string) : string :=
  let start_list := nonempty (Py.split sep (abspath cwd start)) in
  let path_list := nonempty (Py.split sep (abspath cwd path)) in
  let i := common_prefix_len start_list path_list in
  let rel_list :=
    (List.repeat ".." (List.length start_list - i) ++ List.skipn i path_list)%list in
  match rel_list with
  | [] => "."
  | _ => Py.join "/" rel_list
  end.

End posixpath.

(** ** [xml.etree.ElementTree] elements and Python dictionaries

    An element has a tag (in Clark notation, [{uri}local]), an attribute
    dictionary and its children in document order.  A dictionary is an
    association list in which the first binding of a key is the current one,
    so that [dict_set] overwrites. *)

Definition dict : Type := list (string * string).

Fixpoint dict_lookup (k : string) (d : dict) : option string :=
  match d with
  | [] => None
  | (k', v) :: d' => if String.eqb k k' then Some v else dict_lookup k d'
  end.

(** [d[k]] *)
Definition dict_get (k : string) (d : dict) : result string :=
  match dict_lookup k d with
  | Some v => inr v
  | None => inl (KeyError k)
  end.

(** [d[k] = v] *)
Definition dict_set (k v : string) (d : dict) : dict := (k, v) :: d.

#[local] Set Warnings "-register-all".

Inductive Element : Type :=
| Elem (tag : string) (attrib : dict) (children : list Element).

Definition tag (e : Element) : string := let 'Elem t _ _ := e in t.
Definition attrib (e : Element) : dict := let 'Elem _ a _ := e in a.
Definition children (e : Element) : list Element := let 'Elem _ _ c := e in c.

(** The tag that the path [prefix:local] denotes under a namespace map. *)
Definition qname (uri local_ : string) : string := "{" ++ uri ++ "}" ++ local_.

(** [e.find('p:local', ns)]: the first child with that tag *)
Definition find_child (t : string) (e : Element) : option Element :=
  List.find (fun c => String.eqb (tag c) t) (children e).

(** All proper descendants in document order, and [e.find('.//p:local', ns)] *)
Fixpoint descendants (e : Element) : list Element :=
  let 'Elem _ _ cs := e in
  List.flat_map (fun c => c :: descendants c) cs.

Definition find_descendant (t : string) (e : Element) : option Element :=
  List.find (fun c => String.eqb (tag c) t) (descendants e).

(** ** [utils.extract_epub_spine_items]

    [temp_dir] is the directory the archive was extracted to and [parse p]
    the result of [ET.parse(p).getroot()] on the extracted tree. *)

Definition container_ns : string := "urn:oasis:names:tc:opendocument:xmlns:container".

(** [opf_root.tag.split('}')[0].strip('{')] *)
Definition opf_namespace (opf_root : Element) : string :=
  Py.strip_char "{"%char (List.hd EmptyString (Py.split "}"%char (tag opf_root))).

(** [for item in opf_root.find('opf:manifest', nsmap)] *)
Fixpoint manifest_loop (items : list Element) (manifest : dict) : result dict :=
  match items with
  | [] => inr manifest
  | item :: rest =>
      match dict_get "id" (attrib item) with
      | inl e => inl e
      | inr id =>
          match dict_get "href" (attrib item) with
          | inl e => inl e
          | inr href => manifest_loop rest (dict_set id href manifest)
          end
      end
  end.

(** [for itemref in opf_root.find('opf:spine', nsmap)] *)
Fixpoint spine_loop (opf_path : string) (manifest : dict)
  (itemrefs : list Element) (spine_items : list string) : result (list string) :=
  match itemrefs with
  | [] => inr spine_items
  | itemref :: rest =>
      match dict_get "idref" (attrib itemref) with
      | inl e => inl e
      | inr idref =>
          match dict_get idref manifest with
          | inl e => inl e
          | inr href =>
              spine_loop opf_path manifest rest
                (spine_items ++
                   [posixpath.normpath
                      (posixpath.join (posixpath.dirname opf_path) href)])%list
          end
      end
  end.

(** Step 2 of [extract_epub_spine_items]: lines 22 to 36. *)
Definition spine_of_opf (opf_path : string) (opf_root : Element)
  : result (list string) :=
  let ns := opf_namespace opf_root in
  match find_child (qname ns "manifest") opf_root with
  | None => inl TypeError
  | Some manifest_el =>
      match manifest_loop (children manifest_el) [] with
      | inl e => inl e
      | inr manifest =>
          match find_child (qname ns "spine") opf_root with
          | None => inl TypeError
          | Some spine_el => spine_loop opf_path manifest (children spine_el) []
          end
      end
  end.

Definition extract_epub_spine_items
  (temp_dir : string) (parse : string -> result Element)
  : result (string * list string) :=
  let container_path :=
    posixpath.join (posixpath.join temp_dir "META-INF") "container.xml" in
  match parse container_path with
  | inl e => inl e
  | inr root =>
      match find_descendant (qname container_ns "rootfile") root with
      | None => inl AttributeError
      | Some rootfile =>
          match dict_get "full-path" (attrib rootfile) with
          | inl e => inl e
          | inr opf_rel_path =>
              let opf_path := posixpath.join temp_dir opf_rel_path in
              match parse opf_path with
              | inl e => inl e
              | inr opf_root =>
                  match spine_of_opf opf_path opf_root with
                  | inl e => inl e
                  | inr spine_items => inr (temp_dir, spine_items)
                  end
              end
          end
      end
  end.

(** ** Files and the two external services

    The files that the illustrating loop reads and writes (images and cache
    entries) are a map from paths to bytes, the first binding of a path being
    the current one.  Directories are not part of the map: the two
    [os.makedirs(..., exist_ok=True)] calls and the writes are taken to
    succeed, so that the [OSError] of a directory that cannot be created
    (that of [os.makedirs('')] for a path without directory part included)
    or of a file that cannot be written is outside the model; the statements
    on written files are for runs in which these calls succeed. *)

Definition bytes : Type := list Byte.byte.
Definition files : Type := list (string * bytes).

Fixpoint read_file (path : string) (fs : files) : option bytes :=
  match fs with
  | [] => None
  | (p, b) :: fs' => if String.eqb path p then Some b else read_file path fs'
  end.

Definition write_file (path : string) (b : bytes) (fs : files) : files :=
  (path, b) :: fs.

(** [os.path.exists] *)
Definition exists_file (path : string) (fs : files) : bool :=
  match read_file path fs with Some _ => true | None => false end.

(** [shutil.copy(src, dst)] *)
Definition shutil_copy (src dst : string) (fs : files) : result files :=
  match read_file src fs with
  | Some b => inr (write_file dst b fs)
  | None => inl (FileNotFoundError src)
  end.

(** What a call of an external service does: it raises an exception whose
    [str] is [msg], or it returns. *)
Inductive outcome (A : Type) : Type :=
| Raises (msg : string)
| Returns (a : A).
Arguments Raises {A} msg.
Arguments Returns {A} a.

(** An artifact of the image service: whether [finish_reason] is [FILTER],
    whether [type] is [ARTIFACT_IMAGE], and its [binary]. *)
Record artifact : Type := {
  finish_reason_filter : bool;
  type_image : bool;
  binary : bytes
}.

(** [stability_api.generate(prompt=..., steps=30)]: the answers, each with its
    artifacts.  [None] is the absent client. *)
Definition stability_client : Type := string -> outcome (list (list artifact)).

(** The state of a run that the illustrating loop touches: the files, and
    the prompts sent to the image service so far (latest first). *)
Record world : Type := {
  fs : files;
  stability_calls : list string
}.

(** The two nested loops of [generate_illustration]: the first artifact that
    is an image is written to [path]. *)
Definition first_image (answers : list (list artifact)) : option artifact :=
  List.find type_image (List.concat answers).

Definition generate_illustration
  (prompt path : string) (stability_api : option stability_client) (w : world)
  : bool * world :=
  match stability_api with
  | None => (false, w)
  | Some api =>
      let w := {| fs := fs w; stability_calls := prompt :: stability_calls w |} in
      match api prompt with
      | Raises _ => (false, w)
      | Returns answers =>
          match first_image answers with
          | Some a =>
              (true, {| fs := write_file path (binary a) (fs w);
                        stability_calls := stability_calls w |})
          | None => (false, w)
          end
      end
  end.

(** ** The illustrating loop of [process_epub] (lines 241 to 270) *)

Definition local_cache_dir : string := "./illustrations".

Definition illustration_filename (illustration_counter : nat) : string :=
  "illustration_" ++ Py.str_of_nat illustration_counter ++ ".png".

(** The state of the loop: the text being rewritten, the global counter and
    the world. *)
Record loop_state : Type := {
  illustrated_content : string;
  illustration_counter : nat;
  the_world : world
}.

(** One iteration of [for illustration in illustrations]. *)
Definition illustrate_one
  (images_dir img_rel_path : string) (stability_api : option stability_client)
  (illustration : string) (st : loop_state) : result loop_state :=
  let filename := illustration_filename (illustration_counter st) in
  let counter := S (illustration_counter st) in
  let src_illustration_path := posixpath.join local_cache_dir filename in
  let dest_illustration_path := posixpath.join images_dir filename in
  let w := the_world st in
  let after_image : result world :=
    if exists_file src_illustration_path (fs w) then
      match shutil_copy src_illustration_path dest_illustration_path (fs w) with
      | inl e => inl e
      | inr fs' => inr {| fs := fs'; stability_calls := stability_calls w |}
      end
    else
      let '(success, w1) :=
        generate_illustration illustration dest_illustration_path stability_api w in
      if success then
        match shutil_copy dest_illustration_path src_illustration_path (fs w1) with
        | inl e => inl e
        | inr fs' => inr {| fs := fs'; stability_calls := stability_calls w1 |}
        end
      else inr w1 in
  match after_image with
  | inl e => inl e
  | inr w' =>
      inr {| illustrated_content :=
               replace_marker img_rel_path filename illustration
                 (illustrated_content st);
             illustration_counter := counter;
             the_world := w' |}
  end.

Fixpoint illustrate_all
  (images_dir img_rel_path : string) (stability_api : option stability_client)
  (illustrations : list string) (st : loop_state) : result loop_state :=
  match illustrations with
  | [] => inr st
  | illustration :: rest =>
      match illustrate_one images_dir img_rel_path stability_api illustration st with
      | inl e => inl e
      | inr st' => illustrate_all images_dir img_rel_path stability_api rest st'
      end
  end.

(** ** [gemini_illustrate_file]

    [client n] is what the [n]-th attempt (counted from 0 over the run) does:
    the body of the [try], from the call of [generate_content] to
    [data['content']].  The state counts the calls and the seconds slept. *)

Definition gemini_client : Type := nat -> outcome string.

Record gemini_state : Type := {
  gemini_calls : nat;
  slept : nat
}.

Definition transient (msg : string) : bool :=
  Py.contains "503" msg || Py.contains "overloaded" msg.

(** [for attempt in range(max_retries)], with [remaining] attempts left. *)
Fixpoint retry_loop (client : gemini_client) (sleep_seconds remaining : nat)
  (st : gemini_state) : string * gemini_state :=
  match remaining with
  | O => (EmptyString, st)
  | S remaining' =>
      let called := {| gemini_calls := S (gemini_calls st); slept := slept st |} in
      match client (gemini_calls st) with
      | Returns content => (content, called)
      | Raises msg =>
          if transient msg then
            retry_loop client sleep_seconds remaining'
              {| gemini_calls := gemini_calls called;
                 slept := slept called + sleep_seconds |}
          else (EmptyString, called)
      end
  end.

Definition gemini_illustrate_file
  (client : option gemini_client) (max_retries sleep_seconds : nat)
  (st : gemini_state) : string * gemini_state :=
  match client with
  | None => (EmptyString, st)
  | Some c => retry_loop c sleep_seconds max_retries st
  end.

Definition default_max_retries : nat := 5.
Definition default_sleep_seconds : nat := 5.

(** ** The [--max-files] limit of [process_epub] (lines 204 to 207)

    [max_files] is [None] when the option is absent, else the integer
    given. *)

Definition limit_spine_items (max_files : option Z) (spine_items : list string)
  : list string :=
  match max_files with
  | None => spine_items
  | Some n =>
      if negb (Z.eqb n 0) && Z.ltb 0 n then List.firstn (Z.to_nat n) spine_items
      else spine_items
  end.

(** ** The loop over the spine items in [process_epub] (lines 196 to 275)

    The content documents are text files, a map from paths to texts.  The
    state of a run holds them, the global illustration counter, the world of
    the illustrating loop, the state of the augmentation service, and the
    paths printed by [Processing file: ...], in order. *)

Definition texts : Type := list (string * string).

Fixpoint read_text (path : string) (docs : texts) : option string :=
  match docs with
  | [] => None
  | (p, t) :: docs' => if String.eqb path p then Some t else read_text path docs'
  end.

Record run_state : Type := {
  documents : texts;
  run_counter : nat;
  run_world : world;
  run_gemini : gemini_state;
  processed : list string
}.

(** The body of [for file_path in spine_items], in the working directory
    [cwd]. *)
Definition process_file
  (temp_dir cwd : string) (stability_api : option stability_client)
  (gemini : option gemini_client) (file_path : string) (st : run_state)
  : result run_state :=
  let images_dir := posixpath.join (posixpath.join temp_dir "OEBPS") "Images" in
  let visited := (processed st ++ [file_path])%list in
  match read_text file_path (documents st) with
  | None => inl (FileNotFoundError file_path)
  | Some content =>
      let skip g :=
        inr {| documents := documents st;
               run_counter := run_counter st;
               run_world := run_world st;
               run_gemini := g;
               processed := visited |} in
      if Nat.ltb (String.length content) 400 then skip (run_gemini st)
      else
        let '(illustrated, g) :=
          gemini_illustrate_file gemini default_max_retries default_sleep_seconds
            (run_gemini st) in
        if String.eqb illustrated EmptyString then skip g
        else
          match extract_illustrations illustrated with
          | inl e => inl e
          | inr [] => skip g
          | inr illustrations =>
              let img_rel_path :=
                posixpath.relpath cwd images_dir (posixpath.dirname file_path) in
              match illustrate_all images_dir img_rel_path stability_api
                      illustrations
                      {| illustrated_content := illustrated;
                         illustration_counter := run_counter st;
                         the_world := run_world st |} with
              | inl e => inl e
              | inr l =>
                  inr {| documents :=
                           (file_path, illustrated_content l) :: documents st;
                         run_counter := illustration_counter l;
                         run_world := the_world l;
                         run_gemini := g;
                         processed := visited |}
              end
          end
  end.

Fixpoint process_files
  (temp_dir cwd : string) (stability_api : option stability_client)
  (gemini : option gemini_client) (spine_items : list string) (st : run_state)
  : result run_state :=
  match spine_items with
  | [] => inr st
  | file_path :: rest =>
      match process_file temp_dir cwd stability_api gemini file_path st with
      | inl e => inl e
      | inr st' => process_files temp_dir cwd stability_api gemini rest st'
      end
  end.

(** [process_epub] from the resolved spine to the end of the loop. *)
Definition process_spine
  (temp_dir cwd : string) (stability_api : option stability_client)
  (gemini : option gemini_client) (max_files : option Z)
  (spine_items : list string) (st : run_state) : result run_state :=
  process_files temp_dir cwd stability_api gemini
    (limit_spine_items max_files spine_items) st.

(** ** [zip_epub]

    The working tree is a directory tree whose entries are in the order in
    which the directory is listed; the archive is the list of its entries in
    the order in which they were written. *)

Inductive node : Type :=
| File (data : bytes)
| Dir (entries : list (string * node)).

Inductive compression : Type := ZIP_STORED | ZIP_DEFLATED.

Record zip_entry : Type := {
  arcname : string;
  compress_type : compression;
  payload : bytes
}.

(** [os.walk], top down: for each directory its path relative to the top
    (as path components) and its non-directory entries with their data. *)
Fixpoint walk (folder : list string) (n : node)
  : list (list string * list (string * bytes)) :=
  match n with
  | File _ => []
  | Dir entries =>
      (folder,
       List.flat_map
         (fun e => match snd e with File d => [(fst e, d)] | Dir _ => [] end)
         entries)
      :: List.flat_map
           (fun e => match snd e with
                     | Dir _ => walk (folder ++ [fst e])%list (snd e)
                     | File _ => []
                     end)
           entries
  end.

(** [PurePath.as_posix] of a relative path *)
Definition as_posix (parts : list string) : string := Py.join "/" parts.

Fixpoint lookup_entry (name : string) (entries : list (string * node))
  : option node :=
  match entries with
  | [] => None
  | (n, x) :: rest => if String.eqb name n then Some x else lookup_entry name rest
  end.

(** The entry written for [mimetype_path] when it exists. *)
Definition mimetype_first (epub_dir : node) : list zip_entry :=
  match epub_dir with
  | File _ => []
  | Dir entries =>
      match lookup_entry "mimetype" entries with
      | None => []
      | Some (File d) =>
          [{| arcname := "mimetype"; compress_type := ZIP_STORED; payload := d |}]
      | Some (Dir _) =>
          [{| arcname := "mimetype/"; compress_type := ZIP_STORED; payload := [] |}]
      end
  end.

(** The inner loop [for file in files] for one folder. *)
Definition zip_folder (folder : list string) (files_ : list (string * bytes))
  : list zip_entry :=
  List.flat_map
    (fun f =>
       let rel_path := (folder ++ [fst f])%list in
       if String.eqb (as_posix rel_path) "mimetype" then []
       else [{| arcname := as_posix rel_path;
                compress_type := ZIP_DEFLATED;
                payload := snd f |}])
    files_.

Definition zip_epub (epub_dir : node) : list zip_entry :=
  (mimetype_first epub_dir
   ++ List.flat_map (fun w => zip_folder (fst w) (snd w)) (walk [] epub_dir))%list.

(** ** The default output path of [process_epub] (lines 277 to 279)

    [posixpath.splitext]: the extension starts at the last dot of the last
    path component, unless only dots precede it in that component. *)

Fixpoint rfind_char (c : ascii) (s : string) : option nat :=
  match s with
  | EmptyString => None
  | String a s' =>
      match rfind_char c s' with
      | Some i => Some (S i)
      | None => if Ascii.eqb a c then Some 0 else None
      end
  end.

Fixpoint all_dots (s : string) : bool :=
  match s with
  | EmptyString => true
  | String a s' => Ascii.eqb a "." && all_dots s'
  end.

Definition splitext (p : string) : string * string :=
  match rfind_char "." p with
  | None => (p, EmptyString)
  | Some dotIndex =>
      let filenameIndex :=
        match rfind_char "/" p with Some sepIndex => S sepIndex | None => 0 end in
      if Nat.leb filenameIndex dotIndex
         && negb (all_dots (Py.slice filenameIndex dotIndex p))
      then (Py.take dotIndex p, Py.drop dotIndex p)
      else (p, EmptyString)
  end.

(** [if not output_path: output_path = os.path.splitext(epub_path)[0] +
    '_illustrated.epub'] *)
Definition resolve_output_path (output_path : option string) (epub_path : string)
  : string :=
  match output_path with
  | Some o => if String.eqb o EmptyString
              then fst (splitext epub_path) ++ "_illustrated.epub"
              else o
  | None => fst (splitext epub_path) ++ "_illustrated.epub"
  end.

(** ** Notions used by the statements *)

(** A working tree as a file system has it: in a directory no two entries
    share a name, and a name has no [/]. *)
Fixpoint well_formed (n : node) : Prop :=
  match n with
  | File _ => True
  | Dir entries =>
      NoDup (List.map fst entries)
      /\ (fix all (l : list (string * node)) : Prop :=
            match l with
            | [] => True
            | e :: l' =>
                Py.contains "/" (fst e) = false /\ well_formed (snd e) /\ all l'
            end) entries
  end.

(** The relative paths of the files that [os.walk] lists, in its order. *)
Definition walk_paths (folder : list string) (n : node) : list (list string) :=
  List.flat_map
    (fun w => List.map (fun f => (fst w ++ [fst f])%list) (snd w))
    (walk folder n).

(** What [html.escape] does to one character, and to a text character by
    character. *)
Definition escape_char (c : ascii) : string :=
  if Ascii.eqb c "&" then "&amp;"
  else if Ascii.eqb c "<" then "&lt;"
  else if Ascii.eqb c ">" then "&gt;"
  else if Ascii.eqb c (ascii_of_nat 34) then "&quot;"
  else if Ascii.eqb c "'" then "&#x27;"
  else String c EmptyString.

Fixpoint escape_chars (s : string) : string :=
  match s with
  | EmptyString => EmptyString
  | String c s' => escape_char c ++ escape_chars s'
  end.

(** Replacing the first occurrence only: what [old] in [s] would become
    under [s.replace(old, new, 1)]. *)
Definition replace_first (old new s : string) : string :=
  match Py.find old s with
  | None => s
  | Some i => Py.take i s ++ new ++ Py.drop (i + String.length old) s
  end.

(** The entry of the manifest for an identifier: the [href] of the last
    [item] with that [id]. *)
Fixpoint manifest_href (items : list Element) (id : string) : option string :=
  match items with
  | [] => None
  | item :: rest =>
      match manifest_href rest id with
      | Some href => Some href
      | None =>
          match dict_lookup "id" (attrib item) with
          | Some id' =>
              if String.eqb id id' then dict_lookup "href" (attrib item) else None
          | None => None
          end
      end
  end.

(** [itemref] refers, through the manifest [items], to [href]. *)
Definition resolves (items : list Element) (itemref : Element) (href : string)
  : Prop :=
  exists idref,
    dict_lookup "idref" (attrib itemref) = Some idref
    /\ manifest_href items idref = Some href.

(** The path of a spine item: the [href] relative to the directory of the
    OPF document, normalized. *)
Definition spine_path (opf_path href : string) : string :=
  posixpath.normpath (posixpath.join (posixpath.dirname opf_path) href).

(** [is_file_at n path d]: the working tree [n] has a file with data [d] at
    the relative path [path]. *)
Inductive is_file_at : node -> list string -> bytes -> Prop :=
| file_here (entries : list (string * node)) (name : string) (d : bytes) :
    In (name, File d) entries -> is_file_at (Dir entries) [name] d
| file_below (entries sub : list (string * node)) (name : string)
    (path : list string) (d : bytes) :
    In (name, Dir sub) entries -> is_file_at (Dir sub) path d ->
    is_file_at (Dir entries) (name :: path) d.

(** What extraction returns for a marker: a trimmed text without the
    closing delimiter and without a line break. *)
Definition is_description (e : string) : Prop :=
  Py.strip e = e
  /\ Py.contains closing e = false
  /\ Py.contains (String newline EmptyString) e = false.

(** [glue l1 l2]: the lines of [x ++ y] from the lines [l1] of [x] and [l2]
    of [y]: the last line of [x] and the first of [y] are one line. *)
Fixpoint glue (l1 l2 : list string) : list string :=
  match l1 with
  | [] => l2
  | a :: l1' =>
      match l1' with
      | [] => match l2 with [] => [a] | b :: l2' => (a ++ b) :: l2' end
      | _ => a :: glue l1' l2
      end
  end.

(** [nostraddle t x y]: every occurrence of [t] in [x ++ y] that starts inside
    [x] lies within [x].  [unbordered t]: no proper non-empty suffix of [t] is
    a prefix of [t], so that two occurrences of [t] never overlap. *)
Definition nostraddle (t x y : string) : Prop :=
  forall i, i < String.length x ->
    Py.startswith t (Py.drop i x ++ y) = true ->
    Py.startswith t (Py.drop i x) = true.

Definition unbordered (t : string) : bool :=
  List.forallb (fun k => negb (Py.startswith (Py.drop k t) t))
    (List.seq 1 (String.length t - 1)).

(** * Properties *)

(** ** Strings: append, [take], [drop] *)

Lemma append_nil_r (s : string) : s ++ EmptyString = s.
Proof. induction s as [|c s IH]; simpl; [reflexivity | now rewrite IH]. Qed.

Lemma append_assoc (a b c : string) : (a ++ b) ++ c = a ++ (b ++ c).
Proof. induction a as [|x a IH]; simpl; [reflexivity | now rewrite IH]. Qed.

Lemma length_append (a b : string) :
  String.length (a ++ b) = String.length a + String.length b.
Proof. induction a as [|x a IH]; simpl; [reflexivity | now rewrite IH]. Qed.

Lemma append_inv_head (a b c : string) : a ++ b = a ++ c -> b = c.
Proof.
  induction a as [|x a IH]; simpl; intros H; [exact H | injection H; auto].
Qed.

Lemma append_eq_length (a b c d : string) :
  a ++ b = c ++ d -> String.length a = String.length c -> a = c /\ b = d.
Proof.
  revert c; induction a as [|x a IH]; intros [|y c]; simpl; intros H L;
    try discriminate.
  - split; [reflexivity | exact H].
  - injection H as -> H. injection L as L.
    destruct (IH _ H L) as [-> ->]. split; reflexivity.
Qed.

Lemma take_drop (n : nat) (s : string) : Py.take n s ++ Py.drop n s = s.
Proof.
  revert s; induction n as [|n IH]; intros [|c s]; simpl; try reflexivity.
  now rewrite IH.
Qed.

Lemma drop_nil (n : nat) : Py.drop n EmptyString = EmptyString.
Proof. destruct n; reflexivity. Qed.

Lemma drop_app_length (x y : string) : Py.drop (String.length x) (x ++ y) = y.
Proof. induction x as [|c x IH]; simpl; [reflexivity | exact IH]. Qed.

Lemma take_app_length (x y : string) : Py.take (String.length x) (x ++ y) = x.
Proof. induction x as [|c x IH]; simpl; [reflexivity | now rewrite IH]. Qed.

Lemma drop_app_le (n : nat) (x y : string) :
  n <= String.length x -> Py.drop n (x ++ y) = Py.drop n x ++ y.
Proof.
  revert x; induction n as [|n IH]; intros [|c x]; simpl; intros H;
    try reflexivity; try lia.
  apply IH; lia.
Qed.

Lemma drop_app_ge (n : nat) (x y : string) :
  Py.drop (String.length x + n) (x ++ y) = Py.drop n y.
Proof. induction x as [|c x IH]; simpl; [reflexivity | exact IH]. Qed.

Lemma drop_drop (m n : nat) (s : string) :
  Py.drop n (Py.drop m s) = Py.drop (m + n) s.
Proof.
  revert s; induction m as [|m IH]; intros s; simpl; [reflexivity|].
  destruct s as [|c s]; [apply drop_nil | apply IH].
Qed.

Lemma length_drop (n : nat) (s : string) :
  String.length (Py.drop n s) = String.length s - n.
Proof.
  revert s; induction n as [|n IH]; intros [|c s]; simpl; try reflexivity.
  apply IH.
Qed.

Lemma drop_all (n : nat) (s : string) :
  String.length s <= n -> Py.drop n s = EmptyString.
Proof.
  revert s; induction n as [|n IH]; intros [|c s]; simpl; intros H;
    try reflexivity; try lia.
  apply IH; lia.
Qed.

Lemma drop_S_cons (n : nat) (s : string) :
  n < String.length s ->
  exists c, Py.drop n s = String c (Py.drop (S n) s).
Proof.
  revert s; induction n as [|n IH]; intros [|c s]; simpl; intros H; try lia.
  - now exists c.
  - apply IH; lia.
Qed.

(** ** Prefixes and occurrences *)

Lemma startswith_nil (s : string) : Py.startswith EmptyString s = true.
Proof. destruct s; reflexivity. Qed.

Lemma startswith_cons (a b : ascii) (p s : string) :
  Py.startswith (String a p) (String b s)
  = (Ascii.eqb a b && Py.startswith p s)%bool.
Proof.
  unfold Py.startswith; simpl. destruct (ascii_dec a b) as [->|N].
  - now rewrite Ascii.eqb_refl.
  - apply Ascii.eqb_neq in N. now rewrite N.
Qed.

Lemma startswith_spec (p s : string) :
  Py.startswith p s = true <-> exists t, s = p ++ t.
Proof.
  revert s; induction p as [|a p IH]; intros s.
  - rewrite startswith_nil. split; [intros _; now exists s | reflexivity].
  - destruct s as [|b s].
    + split; [discriminate | intros [t H]; discriminate].
    + rewrite startswith_cons, andb_true_iff, Ascii.eqb_eq, IH. split.
      * intros [-> [t ->]]. now exists t.
      * intros [t H]. simpl in H. injection H as -> ->. split; [reflexivity | now exists t].
Qed.

Lemma startswith_app (p t : string) : Py.startswith p (p ++ t) = true.
Proof. apply startswith_spec. now exists t. Qed.

Lemma startswith_weaken (p q s : string) :
  Py.startswith (p ++ q) s = true -> Py.startswith p s = true.
Proof.
  rewrite !startswith_spec. intros [t ->]. exists (q ++ t). apply append_assoc.
Qed.

Lemma startswith_extend (p s t : string) :
  Py.startswith p s = true -> Py.startswith p (s ++ t) = true.
Proof.
  rewrite !startswith_spec. intros [u ->]. exists (u ++ t). apply append_assoc.
Qed.

Lemma startswith_length (p s : string) :
  Py.startswith p s = true -> String.length p <= String.length s.
Proof.
  rewrite startswith_spec. intros [t ->]. rewrite length_append. lia.
Qed.

(** An occurrence of [t] at the head of [u ++ v] lies within [u], or [u] is a
    proper prefix of [t]. *)
Lemma startswith_app_cases (t u v : string) :
  Py.startswith t (u ++ v) = true ->
  Py.startswith t u = true
  \/ (Py.startswith u t = true /\ String.length u < String.length t).
Proof.
  revert u; induction t as [|a t IH]; intros u H.
  - left. apply startswith_nil.
  - destruct u as [|b u].
    + right. split; [apply startswith_nil | simpl; lia].
    + change (String b u ++ v) with (String b (u ++ v)) in H.
      rewrite startswith_cons in H. apply andb_true_iff in H.
      destruct H as [E H]. rewrite !startswith_cons, E. simpl.
      destruct (IH _ H) as [H1|[H1 H2]]; [now left | right].
      apply Ascii.eqb_eq in E. subst b. rewrite Ascii.eqb_refl.
      split; [exact H1 | lia].
Qed.

Lemma find_unfold (t s : string) :
  Py.find t s =
  if Py.startswith t s then Some 0
  else match s with
       | EmptyString => None
       | String _ s' => option_map S (Py.find t s')
       end.
Proof. destruct s; reflexivity. Qed.

Lemma find_Some (t s : string) (n : nat) :
  Py.find t s = Some n <->
  Py.startswith t (Py.drop n s) = true /\ n <= String.length s
  /\ forall i, i < n -> Py.startswith t (Py.drop i s) = false.
Proof.
  revert n; induction s as [|c s IH]; intros n; rewrite find_unfold.
  - destruct (Py.startswith t EmptyString) eqn:E.
    + split.
      * intros [= <-]. repeat split; [exact E | lia | intros i Hi; lia].
      * intros (_ & H & _). simpl in H. f_equal. lia.
    + split; [discriminate|]. intros (H & _ & _). rewrite drop_nil in H. congruence.
  - destruct (Py.startswith t (String c s)) eqn:E.
    + split.
      * intros [= <-]. repeat split; [exact E | lia | intros i Hi; lia].
      * intros (_ & _ & H). destruct n as [|n]; [reflexivity|].
        specialize (H 0 ltac:(lia)). cbn [Py.drop] in H; congruence.
    + destruct (Py.find t s) as [m|] eqn:F; simpl.
      * split.
        -- intros [= <-]. destruct (proj1 (IH m) eq_refl) as (F1 & F2 & F3).
           repeat split; [exact F1 | lia |].
           intros [|i] Hi; [exact E | apply F3; lia].
        -- intros (H1 & H2 & H3). destruct n as [|n]; [cbn [Py.drop] in H1; congruence|].
           f_equal. assert (Some m = Some n) as F'.
           { apply IH. repeat split; [exact H1 | simpl in H2; lia |].
             intros i Hi. apply (H3 (S i)). lia. }
           congruence.
      * split; [discriminate|]. intros (H1 & H2 & H3).
        destruct n as [|n]; [cbn [Py.drop] in H1; congruence|].
        assert (None = Some n) as F'.
        { apply IH. repeat split; [exact H1 | simpl in H2; lia |].
          intros i Hi. apply (H3 (S i)). lia. }
        congruence.
Qed.

Lemma find_None (t s : string) :
  Py.find t s = None <-> forall i, Py.startswith t (Py.drop i s) = false.
Proof.
  induction s as [|c s IH]; rewrite find_unfold.
  - destruct (Py.startswith t EmptyString) eqn:E.
    + split; [discriminate|]. intros H. specialize (H 0). cbn [Py.drop] in H; congruence.
    + split; [|reflexivity]. intros _ i. now rewrite drop_nil.
  - destruct (Py.startswith t (String c s)) eqn:E.
    + split; [discriminate|]. intros H. specialize (H 0). cbn [Py.drop] in H; congruence.
    + destruct (Py.find t s) as [m|] eqn:F; simpl.
      * split; [discriminate|]. intros H.
        assert (Some m = None) as F'
            by (apply IH; intros i; apply (H (S i))).
        congruence.
      * split; [|reflexivity]. intros _ [|i]; [exact E|].
        cbn [Py.drop]. now apply IH.
Qed.

Lemma contains_false (t s : string) :
  Py.contains t s = false <-> forall i, Py.startswith t (Py.drop i s) = false.
Proof.
  unfold Py.contains. rewrite <- find_None.
  destruct (Py.find t s); split; congruence.
Qed.

Lemma contains_true (t s : string) :
  Py.contains t s = true <-> exists a b, s = a ++ t ++ b.
Proof.
  split.
  - unfold Py.contains. destruct (Py.find t s) as [n|] eqn:F; [|discriminate].
    intros _. apply find_Some in F. destruct F as (F & _ & _).
    apply startswith_spec in F. destruct F as [b F].
    exists (Py.take n s), b. rewrite <- F. symmetry. apply take_drop.
  - intros (a & b & ->). destruct (Py.contains t (a ++ t ++ b)) eqn:E; [reflexivity|].
    rewrite contains_false in E. specialize (E (String.length a)).
    rewrite drop_app_length, startswith_app in E. discriminate.
Qed.

Lemma contains_app_inv (t a b : string) :
  Py.contains t (a ++ b) = false ->
  Py.contains t a = false /\ Py.contains t b = false.
Proof.
  intros H. split.
  - destruct (Py.contains t a) eqn:E; [|reflexivity].
    apply contains_true in E. destruct E as (u & v & ->).
    assert (Py.contains t ((u ++ t ++ v) ++ b) = true) as K.
    { apply contains_true. exists u, (v ++ b). now rewrite !append_assoc. }
    congruence.
  - destruct (Py.contains t b) eqn:E; [|reflexivity].
    apply contains_true in E. destruct E as (u & v & ->).
    assert (Py.contains t (a ++ u ++ t ++ v) = true) as K.
    { apply contains_true. exists (a ++ u), v. now rewrite !append_assoc. }
    congruence.
Qed.

Lemma contains_weaken (t e s : string) :
  Py.contains t s = false -> Py.contains (t ++ e) s = false.
Proof.
  intros H. destruct (Py.contains (t ++ e) s) eqn:E; [|reflexivity].
  apply contains_true in E. destruct E as (u & v & ->).
  assert (Py.contains t (u ++ (t ++ e) ++ v) = true) as K.
  { apply contains_true. exists u, (e ++ v). now rewrite !append_assoc. }
  congruence.
Qed.

Lemma startswith_same_head (u w s : string) :
  Py.startswith (u ++ w) (u ++ s) = Py.startswith w s.
Proof.
  induction u as [|c u IH]; [reflexivity|].
  change (Py.startswith (String c (u ++ w)) (String c (u ++ s)) = Py.startswith w s).
  now rewrite startswith_cons, Ascii.eqb_refl.
Qed.

(** *** Occurrences across a boundary

    [nostraddle t x y]: an occurrence of [t] in [x ++ y] that starts inside
    [x] lies within [x]. *)

Lemma nostraddle_first (t x y : string) :
  nostraddle t x y ->
  Py.contains t x = false ->
  Py.startswith t y = true ->
  Py.find t (x ++ y) = Some (String.length x).
Proof.
  intros NS Hx Hy. apply find_Some. repeat split.
  - now rewrite drop_app_length.
  - rewrite length_append. lia.
  - intros i Hi. rewrite drop_app_le by lia.
    destruct (Py.startswith t (Py.drop i x ++ y)) eqn:E; [|reflexivity].
    apply NS in E; [|exact Hi]. rewrite contains_false in Hx. now rewrite Hx in E.
Qed.

Lemma nostraddle_contains (t x y : string) :
  nostraddle t x y ->
  Py.contains t x = false -> Py.contains t y = false ->
  Py.contains t (x ++ y) = false.
Proof.
  intros NS Hx Hy. apply contains_false. intros i.
  destruct (Nat.lt_ge_cases i (String.length x)) as [Hi|Hi].
  - rewrite drop_app_le by lia.
    destruct (Py.startswith t (Py.drop i x ++ y)) eqn:E; [|reflexivity].
    apply NS in E; [|exact Hi]. rewrite contains_false in Hx. now rewrite Hx in E.
  - replace i with (String.length x + (i - String.length x)) by lia.
    rewrite drop_app_ge. rewrite contains_false in Hy. apply Hy.
Qed.

Lemma unbordered_spec (t : string) (k : nat) :
  unbordered t = true -> 0 < k < String.length t ->
  Py.startswith (Py.drop k t) t = false.
Proof.
  unfold unbordered. intros H Hk. rewrite forallb_forall in H.
  specialize (H k). rewrite negb_true_iff in H. apply H.
  apply in_seq. lia.
Qed.

(** A proper prefix [u] of an unbordered [t] is not followed by [t]. *)
Lemma unbordered_no_overlap (t u r : string) :
  unbordered t = true ->
  Py.startswith u t = true -> 0 < String.length u < String.length t ->
  Py.startswith t (u ++ t ++ r) = false.
Proof.
  intros U Hu L. destruct (Py.startswith t (u ++ t ++ r)) eqn:E; [|reflexivity].
  apply startswith_spec in Hu. destruct Hu as [w Hw].
  pose proof (unbordered_spec t (String.length u) U L) as B.
  rewrite Hw in B at 1. rewrite drop_app_length in B.
  assert (Py.startswith w (t ++ r) = true) as K.
  { rewrite <- (startswith_same_head u). rewrite <- Hw. exact E. }
  apply startswith_app_cases in K. destruct K as [K|[K1 K2]]; [congruence|].
  assert (String.length t = String.length u + String.length w)
    by (rewrite Hw at 1; apply length_append).
  lia.
Qed.

Lemma nostraddle_unbordered (t x r : string) :
  unbordered t = true -> nostraddle t x (t ++ r).
Proof.
  intros U i Hi E.
  destruct (startswith_app_cases _ _ _ E) as [K|[K1 K2]]; [exact K|].
  assert (0 < String.length (Py.drop i x)) by (rewrite length_drop; lia).
  rewrite (unbordered_no_overlap t (Py.drop i x) r U K1) in E by lia.
  discriminate.
Qed.

(** [t] occurs in [x ++ t ++ z] only at [x]'s end when it occurs neither in
    [x] nor in [z] and is unbordered. *)
Lemma unique_occurrence (t x z : string) (i : nat) :
  unbordered t = true ->
  Py.contains t x = false -> Py.contains t z = false ->
  Py.startswith t (Py.drop i (x ++ t ++ z)) = true ->
  i = String.length x.
Proof.
  intros U Hx Hz E.
  destruct (Nat.lt_trichotomy i (String.length x)) as [Hi|[Hi|Hi]];
    [exfalso | exact Hi | exfalso].
  - rewrite drop_app_le in E by lia.
    apply (nostraddle_unbordered t x z U) in E; [|exact Hi].
    rewrite contains_false in Hx. now rewrite Hx in E.
  - replace i with (String.length x + (i - String.length x)) in E by lia.
    rewrite drop_app_ge in E. set (k := i - String.length x) in *.
    destruct (Nat.lt_ge_cases k (String.length t)) as [Hk|Hk].
    + rewrite drop_app_le in E by lia.
      destruct (startswith_app_cases _ _ _ E) as [K|[K1 K2]].
      * apply startswith_length in K. rewrite length_drop in K. lia.
      * rewrite (unbordered_spec t k U) in K1 by lia. discriminate.
    + replace k with (String.length t + (k - String.length t)) in E by lia.
      rewrite drop_app_ge in E. rewrite contains_false in Hz. now rewrite Hz in E.
Qed.

(** ** [replace] *)

Lemma replace_scan_fuel (old new : string) (n : nat) :
  old <> EmptyString ->
  forall s f1 f2,
    String.length s <= n -> String.length s <= f1 -> String.length s <= f2 ->
    Py.replace_scan f1 old new s = Py.replace_scan f2 old new s.
Proof.
  intros Hold. induction n as [|n IH]; intros s f1 f2 Hn H1 H2.
  - destruct s; [|simpl in Hn; lia].
    assert (Py.startswith old EmptyString = false) as E
        by (destruct old; [congruence | reflexivity]).
    destruct f1, f2; cbn [Py.replace_scan]; rewrite ?E; reflexivity.
  - destruct f1 as [|f1], f2 as [|f2].
    + reflexivity.
    + destruct s; [|simpl in H1; lia]. simpl.
      destruct old; [congruence | reflexivity].
    + destruct s; [|simpl in H2; lia]. simpl.
      destruct old; [congruence | reflexivity].
    + cbn [Py.replace_scan]. destruct (Py.startswith old s) eqn:E.
      * f_equal. pose proof (startswith_length _ _ E) as L.
        assert (0 < String.length old) by (destruct old; [congruence | simpl; lia]).
        apply IH; rewrite length_drop; lia.
      * destruct s as [|c s]; [reflexivity|]. f_equal.
        apply IH; simpl in *; lia.
Qed.

Lemma replace_hit (old new s : string) :
  old <> EmptyString -> Py.startswith old s = true ->
  Py.replace old new s
  = new ++ Py.replace old new (Py.drop (String.length old) s).
Proof.
  intros Hold E. unfold Py.replace. destruct old as [|a o]; [congruence|].
  pose proof (startswith_length _ _ E) as L.
  destruct s as [|c s]; [simpl in L; lia|].
  cbn [String.length Py.replace_scan]. rewrite E. f_equal.
  apply (replace_scan_fuel _ _ (String.length s)); [congruence | | | lia].
  - rewrite length_drop. cbn [String.length] in *. lia.
  - rewrite length_drop. cbn [String.length] in *. lia.
Qed.

Lemma replace_miss (old new : string) (c : ascii) (s : string) :
  old <> EmptyString -> Py.startswith old (String c s) = false ->
  Py.replace old new (String c s) = String c (Py.replace old new s).
Proof.
  intros Hold E. unfold Py.replace. destruct old as [|a o]; [congruence|].
  cbn [String.length Py.replace_scan]. now rewrite E.
Qed.

Lemma replace_nil (old new : string) :
  old <> EmptyString -> Py.replace old new EmptyString = EmptyString.
Proof. destruct old; [congruence | reflexivity]. Qed.

(** [replace] substitutes the first occurrence and goes on after it. *)
Lemma replace_find (old new s : string) :
  old <> EmptyString ->
  Py.replace old new s
  = match Py.find old s with
    | None => s
    | Some i =>
        Py.take i s ++ new
          ++ Py.replace old new (Py.drop (i + String.length old) s)
    end.
Proof.
  intros Hold. induction s as [|c s IH].
  - rewrite replace_nil by exact Hold. rewrite find_unfold.
    destruct old; [congruence | reflexivity].
  - rewrite find_unfold. destruct (Py.startswith old (String c s)) eqn:E.
    + now rewrite replace_hit.
    + rewrite replace_miss, IH by assumption.
      destruct (Py.find old s) as [i|]; reflexivity.
Qed.

Lemma replace_absent (old new s : string) :
  old <> EmptyString -> Py.contains old s = false ->
  Py.replace old new s = s.
Proof.
  intros Hold H. rewrite replace_find by exact Hold.
  unfold Py.contains in H. destruct (Py.find old s); [discriminate | reflexivity].
Qed.

(** The part of the text before the first occurrence is kept. *)
Lemma replace_skip (old new x y : string) :
  old <> EmptyString ->
  (forall i, i < String.length x -> Py.startswith old (Py.drop i (x ++ y)) = false) ->
  Py.replace old new (x ++ y) = x ++ Py.replace old new y.
Proof.
  intros Hold. induction x as [|c x IH]; intros H; [reflexivity|].
  change (String c x ++ y) with (String c (x ++ y)).
  rewrite replace_miss.
  - simpl. f_equal. apply IH. intros i Hi. apply (H (S i)). simpl. lia.
  - exact Hold.
  - apply (H 0). simpl. lia.
Qed.

(** Every occurrence of an unbordered [old] is replaced. *)
Lemma replace_every (old new x y : string) :
  old <> EmptyString -> unbordered old = true ->
  Py.replace old new (x ++ old ++ y)
  = Py.replace old new x ++ new ++ Py.replace old new y.
Proof.
  intros Hold U. remember (String.length x) as n eqn:Hn.
  revert x Hn. induction n as [n IH] using lt_wf_ind. intros x Hn.
  destruct x as [|c x].
  - rewrite replace_nil by exact Hold. simpl.
    rewrite replace_hit by (exact Hold || apply startswith_app).
    now rewrite drop_app_length.
  - destruct (Py.startswith old (String c x ++ old ++ y)) eqn:E.
    + destruct (startswith_app_cases _ _ _ E) as [K|[K1 K2]].
      * rewrite (replace_hit old new (String c x)) by assumption.
        rewrite replace_hit by assumption.
        pose proof (startswith_length _ _ K) as L.
        rewrite drop_app_le by exact L. rewrite append_assoc. f_equal.
        assert (0 < String.length old) by (destruct old; [congruence | simpl; lia]).
        apply (IH (String.length (Py.drop (String.length old) (String c x)))).
        -- rewrite length_drop. cbn [String.length] in *. lia.
        -- reflexivity.
      * rewrite (unbordered_no_overlap old (String c x) y U K1) in E
          by (simpl in *; lia).
        discriminate.
    + change (String c x ++ old ++ y) with (String c (x ++ old ++ y)) in *.
      rewrite replace_miss by assumption.
      rewrite (replace_miss old new c x).
      * simpl. f_equal. apply (IH (String.length x)); [simpl in Hn; lia | reflexivity].
      * exact Hold.
      * destruct (Py.startswith old (String c x)) eqn:K; [|reflexivity].
        apply (startswith_extend _ _ (old ++ y)) in K.
        change (String c x ++ old ++ y) with (String c (x ++ old ++ y)) in K.
        congruence.
Qed.

(** ** [strip] *)

Lemma lstrip_suffix (s : string) : exists a, s = a ++ Py.lstrip s.
Proof.
  induction s as [|c s [a IH]]; [now exists EmptyString|].
  simpl. destruct (Py.isspace c).
  - exists (String c a). simpl. now rewrite <- IH.
  - now exists EmptyString.
Qed.

Lemma rstrip_prefix (s : string) : exists b, s = Py.rstrip s ++ b.
Proof.
  induction s as [|c s [b IH]]; [now exists EmptyString|].
  simpl. destruct (Py.rstrip s) as [|d r] eqn:E.
  - destruct (Py.isspace c).
    + now exists (String c s).
    + exists b. simpl in *. now rewrite <- IH.
  - exists b. simpl in *. now rewrite <- IH.
Qed.

Lemma strip_substring (s : string) : exists a b, s = a ++ Py.strip s ++ b.
Proof.
  destruct (lstrip_suffix s) as [a Ha].
  destruct (rstrip_prefix (Py.lstrip s)) as [b Hb].
  exists a, b. unfold Py.strip. now rewrite <- Hb.
Qed.

Lemma length_lstrip (s : string) :
  String.length (Py.lstrip s) <= String.length s.
Proof.
  destruct (lstrip_suffix s) as [a Ha]. rewrite Ha at 2.
  rewrite length_append. lia.
Qed.

Lemma length_rstrip (s : string) :
  String.length (Py.rstrip s) <= String.length s.
Proof.
  destruct (rstrip_prefix s) as [a Ha]. rewrite Ha at 2.
  rewrite length_append. lia.
Qed.

Lemma rstrip_app_space (x : string) : Py.rstrip (x ++ " ") = Py.rstrip x.
Proof.
  induction x as [|c x IH]; [reflexivity|].
  simpl. now rewrite IH.
Qed.

(** A trimmed description is what [strip] gives back from the canonical
    interior of its marker. *)
Lemma strip_canonical (d : string) :
  Py.strip d = d -> Py.strip (" " ++ d ++ " ") = d.
Proof.
  intros H. unfold Py.strip.
  change (Py.lstrip (" " ++ d ++ " ")) with (Py.lstrip (d ++ " ")).
  destruct d as [|c d]; [reflexivity|].
  unfold Py.strip in H. simpl in H. simpl.
  destruct (Py.isspace c) eqn:E.
  - exfalso. pose proof (length_rstrip (Py.lstrip d)) as L1.
    pose proof (length_lstrip d) as L2. rewrite H in L1. simpl in L1. lia.
  - change (String c (d ++ " ")) with (String c d ++ " ").
    rewrite rstrip_app_space. exact H.
Qed.

(** ** [split] *)

Lemma split_nonempty (c : ascii) (s : string) : Py.split c s <> [].
Proof.
  destruct s as [|a s]; simpl; [discriminate|].
  destruct (Py.split c s); [discriminate|].
  destruct (Ascii.eqb a c); discriminate.
Qed.

Lemma split_app (c : ascii) (x y : string) :
  Py.split c (x ++ y) = glue (Py.split c x) (Py.split c y).
Proof.
  induction x as [|a x IH].
  - simpl. destruct (Py.split c y) eqn:E; [|reflexivity].
    now apply split_nonempty in E.
  - simpl. rewrite IH. destruct (Py.split c x) as [|p ps] eqn:E;
      [now apply split_nonempty in E|].
    destruct (Ascii.eqb a c).
    + destruct ps; simpl; destruct (Py.split c y) eqn:F; try reflexivity;
        now apply split_nonempty in F.
    + destruct ps; simpl; destruct (Py.split c y) eqn:F; try reflexivity;
        now apply split_nonempty in F.
Qed.

Lemma contains_char_cons (c a : ascii) (s : string) :
  Py.contains (String c EmptyString) (String a s)
  = (Ascii.eqb c a || Py.contains (String c EmptyString) s)%bool.
Proof.
  unfold Py.contains. rewrite find_unfold, startswith_cons, startswith_nil, andb_true_r.
  destruct (Ascii.eqb c a); [reflexivity|]. simpl.
  destruct (Py.find (String c EmptyString) s); reflexivity.
Qed.

Lemma split_no_sep (c : ascii) (x : string) :
  Py.contains (String c EmptyString) x = false -> Py.split c x = [x].
Proof.
  induction x as [|a x IH]; [reflexivity|].
  rewrite contains_char_cons. intros H. apply orb_false_iff in H.
  destruct H as [H1 H2]. simpl. rewrite (IH H2).
  rewrite Ascii.eqb_sym in H1. now rewrite H1.
Qed.

Lemma split_member (c : ascii) (s l : string) :
  In l (Py.split c s) -> exists a b, s = a ++ l ++ b.
Proof.
  revert l; induction s as [|x s IH]; intros l H.
  - simpl in H. destruct H as [<-|[]]. now exists EmptyString, EmptyString.
  - simpl in H. destruct (Py.split c s) as [|p ps] eqn:E;
      [now apply split_nonempty in E|].
    destruct (Ascii.eqb x c).
    + destruct H as [<-|H].
      * now exists EmptyString, (String x s).
      * destruct (IH l H) as (a & b & ->). now exists (String x a), b.
    + destruct H as [<-|H].
      * destruct (IH p (or_introl eq_refl)) as (a & b & K).
        (* [p] is the first line of [s], so [a] is empty *)
        exists EmptyString. simpl.
        assert (exists b', s = p ++ b') as [b' ->].
        { clear IH K a b. revert p ps E. induction s as [|y s IHs]; intros p ps E.
          - simpl in E. injection E as <- <-. now exists EmptyString.
          - simpl in E. destruct (Py.split c s) as [|q qs] eqn:F;
              [now apply split_nonempty in F|].
            destruct (Ascii.eqb y c).
            + injection E as <- <-. now exists (String y s).
            + injection E as <- <-. destruct (IHs q qs eq_refl) as [b' ->].
              now exists b'. }
        now exists b'.
      * destruct (IH l (or_intror H)) as (a & b & ->). now exists (String x a), b.
Qed.

Lemma split_member_contains (t : string) (c : ascii) (s l : string) :
  Py.contains t s = false -> In l (Py.split c s) -> Py.contains t l = false.
Proof.
  intros H I. destruct (split_member _ _ _ I) as (a & b & ->).
  apply contains_app_inv in H. destruct H as [_ H].
  apply contains_app_inv in H. tauto.
Qed.

Lemma glue_last (ls : list string) (a m : string) (l2 : list string) :
  glue (ls ++ [a])%list (m :: l2) = (ls ++ (a ++ m)%string :: l2)%list.
Proof.
  induction ls as [|x ls IH]; [reflexivity|].
  destruct ls as [|y ls]; [reflexivity|].
  change (x :: glue ((y :: ls) ++ [a])%list (m :: l2)
          = x :: ((y :: ls) ++ (a ++ m)%string :: l2)%list).
  now rewrite IH.
Qed.

(** ** Extraction *)

Lemma unbordered_opening : unbordered opening = true.
Proof. reflexivity. Qed.

Lemma unbordered_closing : unbordered closing = true.
Proof. reflexivity. Qed.

Lemma extract_loop_skip (ls rest acc : list string) :
  (forall l, In l ls -> Py.contains opening l = false) ->
  extract_loop (ls ++ rest)%list acc = extract_loop rest acc.
Proof.
  induction ls as [|l ls IH]; intros H; [reflexivity|].
  simpl. rewrite (H l) by now left.
  apply IH. intros l' Hl'. apply H. now right.
Qed.

(** The line of a marker: the first opening token, an interior without the
    closing delimiter, the closing delimiter. *)
Lemma extract_marker_line (a inner b : string) (rest acc : list string) :
  Py.contains opening a = false ->
  Py.contains closing inner = false ->
  extract_loop ((a ++ opening ++ inner ++ closing ++ b) :: rest) acc
  = extract_loop rest (acc ++ [Py.strip inner])%list.
Proof.
  intros Ha Hin. cbn [extract_loop].
  assert (Py.find opening (a ++ opening ++ inner ++ closing ++ b)
          = Some (String.length a)) as F.
  { apply nostraddle_first; [| exact Ha | apply startswith_app].
    apply nostraddle_unbordered, unbordered_opening. }
  unfold Py.contains, Py.index. rewrite F.
  unfold Py.index_from.
  assert (Nat.ltb (String.length (a ++ opening ++ inner ++ closing ++ b))
            (String.length a + String.length opening) = false) as L.
  { apply Nat.ltb_ge. rewrite !length_append. lia. }
  rewrite L. rewrite drop_app_ge, drop_app_length.
  assert (Py.find closing (inner ++ closing ++ b) = Some (String.length inner)) as G.
  { apply nostraddle_first; [| exact Hin | apply startswith_app].
    apply nostraddle_unbordered, unbordered_closing. }
  rewrite G. unfold Py.slice.
  rewrite drop_app_ge, drop_app_length.
  replace (String.length a + String.length opening + String.length inner
           - (String.length a + String.length opening))
    with (String.length inner) by lia.
  now rewrite take_app_length.
Qed.

Lemma contains_char_app (c : ascii) (x y : string) :
  Py.contains (String c EmptyString) (x ++ y)
  = (Py.contains (String c EmptyString) x
     || Py.contains (String c EmptyString) y)%bool.
Proof.
  induction x as [|a x IH]; [reflexivity|].
  change (String a x ++ y) with (String a (x ++ y)).
  now rewrite !contains_char_cons, IH, orb_assoc.
Qed.

Lemma extract_single (pre inner post : string) :
  Py.contains opening pre = false ->
  Py.contains opening post = false ->
  Py.contains closing inner = false ->
  Py.contains (String newline EmptyString) inner = false ->
  extract_illustrations (pre ++ opening ++ inner ++ closing ++ post)
  = inr [Py.strip inner].
Proof.
  intros Hpre Hpost Hin Hnl. unfold extract_illustrations.
  rewrite split_app.
  replace (opening ++ inner ++ closing ++ post)
    with ((opening ++ inner ++ closing) ++ post) by now rewrite !append_assoc.
  rewrite (split_app newline (opening ++ inner ++ closing) post).
  rewrite (split_no_sep newline (opening ++ inner ++ closing))
    by (rewrite !contains_char_app, Hnl; reflexivity).
  destruct (Py.split newline post) as [|b l2] eqn:Epost;
    [now apply split_nonempty in Epost|].
  destruct (exists_last (split_nonempty newline pre)) as (ls & a & Epre).
  rewrite Epre. cbn [glue]. rewrite glue_last.
  assert (forall l, In l (ls ++ [a])%list -> Py.contains opening l = false) as Hls.
  { intros l Hl. rewrite <- Epre in Hl.
    exact (split_member_contains _ _ _ _ Hpre Hl). }
  rewrite extract_loop_skip by (intros l Hl; apply Hls, in_or_app; now left).
  rewrite !append_assoc. rewrite extract_marker_line;
    [| apply Hls, in_or_app; right; now left | exact Hin].
  rewrite <- (app_nil_r l2). rewrite extract_loop_skip; [reflexivity|].
  intros l Hl. apply (split_member_contains _ newline post); [exact Hpost|].
  rewrite Epost. now right.
Qed.

(** The search for the closing delimiter succeeds exactly when the line has
    a closing delimiter after an opening token. *)
Lemma line_closes (line : string) (i : nat) :
  Py.find opening line = Some i ->
  (exists e, Py.index_from closing line (i + String.length opening) = inr e)
  <-> (exists a b c, line = a ++ opening ++ b ++ closing ++ c).
Proof.
  intros F. pose proof F as F'. apply find_Some in F'.
  destruct F' as (F1 & F2 & F3). split.
  - intros [e H]. unfold Py.index_from in H.
    destruct (Nat.ltb (String.length line) (i + String.length opening));
      [discriminate|].
    destruct (Py.find closing (Py.drop (i + String.length opening) line))
      as [j|] eqn:G; [|discriminate].
    assert (Py.contains closing (Py.drop (i + String.length opening) line) = true)
      as C by (unfold Py.contains; now rewrite G).
    apply contains_true in C. destruct C as (u & v & C).
    apply startswith_spec in F1. destruct F1 as [t F1].
    rewrite <- drop_drop, F1, drop_app_length in C.
    exists (Py.take i line), u, v. rewrite <- C, <- F1. symmetry. apply take_drop.
  - intros (a & b & c & E).
    assert (i <= String.length a) as Hi.
    { destruct (Nat.le_gt_cases i (String.length a)) as [K|K]; [exact K|].
      specialize (F3 _ K). rewrite E, drop_app_length, startswith_app in F3.
      discriminate. }
    unfold Py.index_from.
    assert (Nat.ltb (String.length line) (i + String.length opening) = false) as L.
    { apply Nat.ltb_ge. rewrite E, !length_append. lia. }
    rewrite L.
    assert (Py.contains closing (Py.drop (i + String.length opening) line) = true)
      as C.
    { apply contains_true.
      exists (Py.drop (i + String.length opening) (a ++ opening) ++ b), c.
      rewrite E. rewrite append_assoc.
      replace (a ++ opening ++ b ++ closing ++ c)
        with ((a ++ opening) ++ b ++ closing ++ c) by now rewrite !append_assoc.
      apply drop_app_le. rewrite length_append. lia. }
    unfold Py.contains in C.
    destruct (Py.find closing (Py.drop (i + String.length opening) line)) as [j|];
      [|discriminate].
    now exists (i + String.length opening + j).
Qed.

Lemma extract_loop_total (lines acc : list string) :
  (forall line, In line lines -> Py.contains opening line = true ->
     exists a b c, line = a ++ opening ++ b ++ closing ++ c) ->
  exists ds, extract_loop lines acc = inr ds.
Proof.
  revert acc; induction lines as [|line lines IH]; intros acc H.
  - now exists acc.
  - cbn [extract_loop]. destruct (Py.contains opening line) eqn:C.
    + unfold Py.contains in C. unfold Py.index.
      destruct (Py.find opening line) as [i|] eqn:F; [|discriminate].
      assert (exists e, Py.index_from closing line (i + String.length opening) = inr e)
        as [e He].
      { apply (line_closes line i F). apply H; [now left|].
        unfold Py.contains. now rewrite F. }
      rewrite He. apply IH. intros l Hl. apply H. now right.
    + apply IH. intros l Hl. apply H. now right.
Qed.

Lemma index_from_error (sub s : string) (start : nat) (e : exn) :
  Py.index_from sub s start = inl e -> e = ValueError.
Proof.
  unfold Py.index_from. destruct (Nat.ltb (String.length s) start); [congruence|].
  destruct (Py.find sub (Py.drop start s)); congruence.
Qed.

Lemma extract_loop_raises (lines acc : list string) (line : string) :
  In line lines -> Py.contains opening line = true ->
  (forall a b c, line <> a ++ opening ++ b ++ closing ++ c) ->
  extract_loop lines acc = inl ValueError.
Proof.
  revert acc; induction lines as [|l lines IH]; intros acc I C N; [destruct I|].
  cbn [extract_loop]. destruct (Py.contains opening l) eqn:Cl.
  - unfold Py.contains in Cl. unfold Py.index.
    destruct (Py.find opening l) as [i|] eqn:F; [|discriminate].
    destruct (Py.index_from closing l (i + String.length opening)) as [e|e] eqn:G.
    + now rewrite (index_from_error _ _ _ _ G).
    + destruct I as [->|I]; [|now apply IH].
      exfalso. assert (exists e, Py.index_from closing line
                          (i + String.length opening) = inr e) as K by now exists e.
      apply (line_closes line i F) in K. destruct K as (a & b & c & K).
      exact (N a b c K).
  - destruct I as [->|I]; [congruence | now apply IH].
Qed.

Lemma extract_loop_error (lines acc : list string) (e : exn) :
  extract_loop lines acc = inl e ->
  e = ValueError /\
  exists line, In line lines /\ Py.contains opening line = true /\
    forall a b c, line <> a ++ opening ++ b ++ closing ++ c.
Proof.
  revert acc; induction lines as [|l lines IH]; intros acc H; [discriminate|].
  cbn [extract_loop] in H. destruct (Py.contains opening l) eqn:Cl.
  - pose proof Cl as Cl'. unfold Py.contains in Cl'. unfold Py.index in H.
    destruct (Py.find opening l) as [i|] eqn:F; [|discriminate].
    destruct (Py.index_from closing l (i + String.length opening)) as [e'|e'] eqn:G.
    + injection H as <-. split; [exact (index_from_error _ _ _ _ G)|].
      exists l. repeat split; [now left | exact Cl |].
      intros a b c K.
      assert (exists e, Py.index_from closing l (i + String.length opening) = inr e)
        as [e He] by (apply (line_closes l i F); now exists a, b, c).
      congruence.
    + destruct (IH _ H) as [E (line & I & C & N)]. split; [exact E|].
      exists line. repeat split; [now right | exact C | exact N].
  - destruct (IH _ H) as [E (line & I & C & N)]. split; [exact E|].
    exists line. repeat split; [now right | exact C | exact N].
Qed.

(** ** Characters that a token does not contain *)

Lemma contains_cons_miss (t : string) (c : ascii) (s : string) :
  Py.startswith t (String c s) = false ->
  Py.contains t (String c s) = Py.contains t s.
Proof.
  intros H. unfold Py.contains. rewrite (find_unfold t (String c s)), H.
  destruct (Py.find t s); reflexivity.
Qed.

Lemma startswith_head_ne (h : ascii) (t' : string) (c : ascii) (s : string) :
  Ascii.eqb h c = false -> Py.startswith (String h t') (String c s) = false.
Proof. intros H. now rewrite startswith_cons, H. Qed.

(** A text without the first character of [t] has no occurrence of [t]
    starting in it. *)
Lemma contains_skip_nohead (h : ascii) (t' x y : string) :
  Py.contains (String h EmptyString) x = false ->
  Py.contains (String h t') (x ++ y) = Py.contains (String h t') y.
Proof.
  induction x as [|c x IH]; intros H; [reflexivity|].
  rewrite contains_char_cons in H. apply orb_false_iff in H. destruct H as [H1 H2].
  change (String c x ++ y) with (String c (x ++ y)).
  rewrite contains_cons_miss by now apply startswith_head_ne.
  now apply IH.
Qed.

(** [y] begins with a character that [t] does not contain. *)
Lemma nostraddle_char (t x : string) (c : ascii) (y : string) :
  Py.contains (String c EmptyString) t = false ->
  nostraddle t x (String c y).
Proof.
  intros H i Hi E.
  destruct (startswith_app_cases _ _ _ E) as [K|[K1 K2]]; [exact K|].
  exfalso. apply startswith_spec in K1. destruct K1 as [w Hw].
  rewrite Hw in E. rewrite startswith_same_head in E.
  destruct w as [|d w].
  - rewrite Hw, length_append in K2. simpl in K2. lia.
  - rewrite startswith_cons in E. apply andb_true_iff in E. destruct E as [E _].
    apply Ascii.eqb_eq in E. subst d.
    rewrite Hw, contains_char_app, contains_char_cons, Ascii.eqb_refl in H.
    rewrite orb_true_r in H. discriminate.
Qed.

(** [y] begins with the first character of [t], which [t] has only once. *)
Lemma nostraddle_head (h : ascii) (t' x y : string) :
  Py.contains (String h EmptyString) t' = false ->
  nostraddle (String h t') x (String h y).
Proof.
  intros H i Hi E.
  destruct (startswith_app_cases _ _ _ E) as [K|[K1 K2]]; [exact K|].
  exfalso. apply startswith_spec in K1. destruct K1 as [w Hw].
  rewrite Hw in E. rewrite startswith_same_head in E.
  destruct w as [|d w].
  - rewrite Hw, length_append in K2. simpl in K2. lia.
  - rewrite startswith_cons in E. apply andb_true_iff in E. destruct E as [E _].
    apply Ascii.eqb_eq in E. subst d.
    destruct (drop_S_cons i x Hi) as [e He].
    rewrite He in Hw. simpl in Hw. injection Hw as _ Hw.
    rewrite Hw, contains_char_app, contains_char_cons, Ascii.eqb_refl in H.
    rewrite orb_true_r in H. discriminate.
Qed.

(** ** [html.escape] and the image reference *)

Lemma replace_char_cons (c : ascii) (new : string) (a : ascii) (s : string) :
  Py.replace (String c EmptyString) new (String a s)
  = if Ascii.eqb c a then new ++ Py.replace (String c EmptyString) new s
    else String a (Py.replace (String c EmptyString) new s).
Proof.
  destruct (Ascii.eqb c a) eqn:E.
  - rewrite replace_hit; [reflexivity | discriminate |].
    now rewrite startswith_cons, E, startswith_nil.
  - rewrite replace_miss; [reflexivity | discriminate |].
    now rewrite startswith_cons, E.
Qed.

Lemma replace_char_keeps_absent (h c : ascii) (new s : string) :
  Py.contains (String h EmptyString) new = false ->
  Py.contains (String h EmptyString) s = false ->
  Py.contains (String h EmptyString) (Py.replace (String c EmptyString) new s)
  = false.
Proof.
  intros Hn. induction s as [|a s IH]; intros Hs; [reflexivity|].
  rewrite contains_char_cons in Hs. apply orb_false_iff in Hs.
  destruct Hs as [H1 H2]. rewrite replace_char_cons.
  destruct (Ascii.eqb c a).
  - rewrite contains_char_app, Hn. now apply IH.
  - rewrite contains_char_cons, H1. now apply IH.
Qed.

Lemma replace_char_removes (c : ascii) (new s : string) :
  Py.contains (String c EmptyString) new = false ->
  Py.contains (String c EmptyString) (Py.replace (String c EmptyString) new s)
  = false.
Proof.
  intros Hn. induction s as [|a s IH]; [reflexivity|].
  rewrite replace_char_cons. destruct (Ascii.eqb c a) eqn:E.
  - now rewrite contains_char_app, Hn.
  - now rewrite contains_char_cons, E.
Qed.

Lemma html_escape_no_lt (s : string) : Py.contains "<" (html_escape s) = false.
Proof.
  unfold html_escape, dquote.
  do 3 (apply replace_char_keeps_absent; [reflexivity|]).
  now apply replace_char_removes.
Qed.

Lemma string_of_uint_no_lt (u : Decimal.uint) :
  Py.contains "<" (NilEmpty.string_of_uint u) = false.
Proof.
  induction u; simpl; [reflexivity| | | | | | | | | |];
    rewrite contains_char_cons; exact IHu.
Qed.

Lemma illustration_filename_no_lt (k : nat) :
  Py.contains "<" (illustration_filename k) = false.
Proof.
  unfold illustration_filename, Py.str_of_nat.
  rewrite !contains_char_app, string_of_uint_no_lt. reflexivity.
Qed.

(** The image reference brings no opening token into a text. *)
Lemma img_tag_no_opening (pre post R f d : string) :
  Py.contains "<" R = false ->
  Py.contains "<" f = false ->
  Py.contains opening pre = false ->
  Py.contains opening post = false ->
  Py.contains opening (pre ++ img_tag R f d ++ post) = false.
Proof.
  intros HR Hf Hpre Hpost. pose proof (html_escape_no_lt d) as He.
  unfold img_tag. rewrite !append_assoc.
  apply nostraddle_contains; [| exact Hpre |].
  - apply (nostraddle_head "<"%char). reflexivity.
  - cbn [append]. unfold opening.
    repeat first
      [ rewrite contains_cons_miss by reflexivity
      | rewrite (contains_skip_nohead "<"%char) by assumption ].
    exact Hpost.
Qed.

(** ** The illustrating loop *)

Lemma marker_shape (d : string) :
  marker d = opening ++ (" " ++ d ++ " ") ++ closing.
Proof. unfold marker, opening, closing. simpl. now rewrite !append_assoc. Qed.

Lemma marker_nonempty (d : string) : marker d <> EmptyString.
Proof. discriminate. Qed.

Lemma read_write_same (path : string) (b : bytes) (fs0 : files) :
  read_file path (write_file path b fs0) = Some b.
Proof. unfold write_file. simpl. now rewrite String.eqb_refl. Qed.

(** An iteration never raises; it advances the counter by one and applies
    the replacement to the text, whatever happened to the image. *)
Lemma illustrate_one_result
  (images_dir R : string) (api : option stability_client) (d : string)
  (st : loop_state) :
  exists w',
    illustrate_one images_dir R api d st
    = inr {| illustrated_content :=
               replace_marker R (illustration_filename (illustration_counter st))
                 d (illustrated_content st);
             illustration_counter := S (illustration_counter st);
             the_world := w' |}.
Proof.
  unfold illustrate_one.
  destruct (exists_file _ (fs (the_world st))) eqn:E.
  - unfold exists_file in E. unfold shutil_copy.
    destruct (read_file _ (fs (the_world st))); [|discriminate].
    eexists. reflexivity.
  - unfold generate_illustration. destruct api as [api|]; [|eexists; reflexivity].
    destruct (api d) as [msg|answers]; [eexists; reflexivity|].
    destruct (first_image answers) as [a|]; [|eexists; reflexivity].
    unfold shutil_copy. cbn [fs]. rewrite read_write_same.
    eexists. reflexivity.
Qed.

Lemma replace_char_app (c : ascii) (new x y : string) :
  Py.replace (String c EmptyString) new (x ++ y)
  = Py.replace (String c EmptyString) new x
    ++ Py.replace (String c EmptyString) new y.
Proof.
  induction x as [|a x IH]; [reflexivity|].
  change (String a x ++ y) with (String a (x ++ y)).
  rewrite !replace_char_cons, IH. destruct (Ascii.eqb c a).
  - now rewrite append_assoc.
  - reflexivity.
Qed.

Lemma html_escape_app (x y : string) :
  html_escape (x ++ y) = html_escape x ++ html_escape y.
Proof. unfold html_escape, dquote. cbv zeta. now rewrite !replace_char_app. Qed.

Lemma html_escape_char (c : ascii) :
  html_escape (String c EmptyString) = escape_char c.
Proof.
  unfold html_escape, escape_char, dquote. cbv zeta.
  rewrite (replace_char_cons "&").
  rewrite (Ascii.eqb_sym c "&"). destruct (Ascii.eqb "&" c) eqn:E1; [reflexivity|].
  rewrite (replace_char_cons "<").
  rewrite (Ascii.eqb_sym c "<"). destruct (Ascii.eqb "<" c) eqn:E2; [reflexivity|].
  rewrite (replace_char_cons ">").
  rewrite (Ascii.eqb_sym c ">"). destruct (Ascii.eqb ">" c) eqn:E3; [reflexivity|].
  rewrite (replace_char_cons (ascii_of_nat 34)).
  rewrite (Ascii.eqb_sym c (ascii_of_nat 34)).
  destruct (Ascii.eqb (ascii_of_nat 34) c) eqn:E4; [reflexivity|].
  rewrite (replace_char_cons "'").
  rewrite (Ascii.eqb_sym c "'"). destruct (Ascii.eqb "'" c) eqn:E5; reflexivity.
Qed.

(** [html.escape] is the character-wise escape. *)
Lemma html_escape_chars (s : string) : html_escape s = escape_chars s.
Proof.
  induction s as [|c s IH]; [reflexivity|].
  change (String c s) with (String c EmptyString ++ s).
  rewrite html_escape_app, html_escape_char, IH. reflexivity.
Qed.

(** The marker of a description without the closing delimiter has that
    delimiter only at its end, hence is unbordered. *)
Lemma marker_body_no_closing (d : string) :
  Py.contains closing d = false ->
  Py.contains closing (opening ++ " " ++ d ++ " ") = false.
Proof.
  intros H. unfold opening. cbn [append].
  repeat rewrite contains_cons_miss by reflexivity.
  apply nostraddle_contains; [| exact H | reflexivity].
  apply nostraddle_char. reflexivity.
Qed.

Lemma unbordered_marker (d : string) :
  Py.contains closing d = false -> unbordered (marker d) = true.
Proof.
  intros H. unfold unbordered. apply forallb_forall. intros k Hk.
  apply in_seq in Hk. apply negb_true_iff.
  destruct (Py.startswith (Py.drop k (marker d)) (marker d)) eqn:E;
    [exfalso | reflexivity].
  assert (marker d = (opening ++ " " ++ d ++ " ") ++ closing ++ EmptyString) as M
      by (rewrite marker_shape, !append_assoc; reflexivity).
  set (body := opening ++ " " ++ d ++ " ") in *.
  assert (String.length (marker d) = String.length body + 3) as L
      by (rewrite M, length_append; reflexivity).
  destruct (Nat.le_gt_cases k (String.length body)) as [Hb|Hb].
  - rewrite M in E at 1. rewrite drop_app_le in E by exact Hb.
    apply startswith_spec in E. destruct E as [r E]. rewrite append_assoc in E.
    assert (Py.startswith closing (Py.drop (String.length (Py.drop k body)) (marker d))
            = true) as K.
    { rewrite E at 1. rewrite drop_app_length. simpl.
      apply (startswith_app closing r). }
    rewrite M in K.
    apply unique_occurrence in K;
      [| reflexivity | now apply marker_body_no_closing | reflexivity].
    rewrite length_drop in K. lia.
  - rewrite M in E at 1.
    replace k with (String.length body + (k - String.length body)) in E by lia.
    rewrite drop_app_ge in E.
    assert (k - String.length body = 1 \/ k - String.length body = 2) as [J|J] by lia;
      rewrite J in E; rewrite marker_shape in E; discriminate E.
Qed.

Lemma generate_failure_fs
  (prompt path : string) (api : option stability_client) (w : world) :
  fst (generate_illustration prompt path api w) = false ->
  fs (snd (generate_illustration prompt path api w)) = fs w.
Proof.
  unfold generate_illustration. destruct api as [api|]; [|reflexivity].
  destruct (api prompt) as [msg|answers]; [reflexivity|].
  destruct (first_image answers); [discriminate | reflexivity].
Qed.

Lemma cache_path (k : nat) :
  posixpath.join local_cache_dir (illustration_filename k)
  = "./illustrations/" ++ illustration_filename k.
Proof. reflexivity. Qed.

(** ** Markers that replacement does not match *)

Lemma nostraddle_last (t x : string) (c : ascii) (y : string) :
  Py.contains (String c EmptyString) t = false ->
  nostraddle t (x ++ String c EmptyString) y.
Proof.
  intros H i Hi E.
  destruct (startswith_app_cases _ _ _ E) as [K|[K1 K2]]; [exact K|].
  exfalso. rewrite length_append in Hi. simpl in Hi.
  rewrite drop_app_le in K1 by lia.
  apply startswith_spec in K1. destruct K1 as [w Hw].
  rewrite Hw, !contains_char_app, contains_char_cons, Ascii.eqb_refl in H.
  rewrite orb_true_r in H. discriminate.
Qed.

Lemma nostraddle_drop (t x y : string) (k : nat) :
  nostraddle t x y -> nostraddle t (Py.drop k x) y.
Proof.
  intros H i Hi. rewrite drop_drop. apply H.
  rewrite length_drop in Hi. lia.
Qed.

(** [replace] works on the two sides of a boundary that no occurrence
    straddles. *)
Lemma replace_app (old new x y : string) :
  old <> EmptyString -> nostraddle old x y ->
  Py.replace old new (x ++ y) = Py.replace old new x ++ Py.replace old new y.
Proof.
  intros Hold. remember (String.length x) as n eqn:Hn.
  revert x Hn. induction n as [n IH] using lt_wf_ind. intros x Hn NS.
  destruct x as [|c x].
  - now rewrite replace_nil.
  - destruct (Py.startswith old (String c x ++ y)) eqn:E.
    + pose proof (NS 0 ltac:(simpl; lia) E) as K. cbn [Py.drop] in K.
      rewrite (replace_hit old new (String c x)) by assumption.
      rewrite replace_hit by assumption.
      pose proof (startswith_length _ _ K) as L.
      rewrite drop_app_le by exact L. rewrite append_assoc. f_equal.
      assert (0 < String.length old) by (destruct old; [congruence | simpl; lia]).
      apply (IH (String.length (Py.drop (String.length old) (String c x)))).
      * rewrite length_drop. cbn [String.length] in *. lia.
      * reflexivity.
      * now apply nostraddle_drop.
    + change (String c x ++ y) with (String c (x ++ y)) in *.
      rewrite replace_miss by assumption.
      rewrite (replace_miss old new c x).
      * simpl. f_equal. apply (IH (String.length x)); [simpl in Hn; lia | reflexivity |].
        apply (nostraddle_drop old (String c x) y 1 NS).
      * exact Hold.
      * destruct (Py.startswith old (String c x)) eqn:K; [|reflexivity].
        apply (startswith_extend _ _ y) in K.
        change (String c x ++ y) with (String c (x ++ y)) in K.
        congruence.
Qed.

(** ** What extraction returns *)

Lemma rstrip_idem (s : string) : Py.rstrip (Py.rstrip s) = Py.rstrip s.
Proof.
  induction s as [|c s IH]; [reflexivity|].
  cbn [Py.rstrip]. destruct (Py.rstrip s) as [|d r] eqn:E.
  - destruct (Py.isspace c) eqn:Hc; [reflexivity|].
    cbn [Py.rstrip]. now rewrite Hc.
  - cbn [Py.rstrip]. cbn [Py.rstrip] in IH. now rewrite IH.
Qed.

Lemma rstrip_head (c : ascii) (s : string) :
  Py.isspace c = false -> exists r, Py.rstrip (String c s) = String c r.
Proof.
  intros H. cbn [Py.rstrip]. destruct (Py.rstrip s) as [|d r].
  - rewrite H. now exists EmptyString.
  - now exists (String d r).
Qed.

Lemma lstrip_head (s : string) :
  Py.lstrip s = EmptyString
  \/ exists c r, Py.lstrip s = String c r /\ Py.isspace c = false.
Proof.
  induction s as [|c s IH]; [now left|].
  cbn [Py.lstrip]. destruct (Py.isspace c) eqn:E; [exact IH|].
  right. now exists c, s.
Qed.

Lemma strip_idem (s : string) : Py.strip (Py.strip s) = Py.strip s.
Proof.
  unfold Py.strip. destruct (lstrip_head s) as [H|(c & r & H & Hc)].
  - rewrite H. reflexivity.
  - rewrite H. destruct (rstrip_head c r Hc) as [r' Hr]. rewrite Hr.
    cbn [Py.lstrip]. rewrite Hc. rewrite <- Hr. apply rstrip_idem.
Qed.

Lemma contains_substring (t a s b : string) :
  Py.contains t (a ++ s ++ b) = false -> Py.contains t s = false.
Proof.
  intros H. apply contains_app_inv in H. destruct H as [_ H].
  apply contains_app_inv in H. tauto.
Qed.

Lemma contains_strip (t s : string) :
  Py.contains t s = false -> Py.contains t (Py.strip s) = false.
Proof.
  intros H. destruct (strip_substring s) as (a & b & E). rewrite E in H.
  exact (contains_substring _ _ _ _ H).
Qed.

Lemma contains_drop (t s : string) (n : nat) :
  Py.contains t s = false -> Py.contains t (Py.drop n s) = false.
Proof.
  intros H. rewrite <- (take_drop n s) in H.
  apply contains_app_inv in H. tauto.
Qed.

Lemma contains_take (t s : string) (n : nat) :
  Py.contains t s = false -> Py.contains t (Py.take n s) = false.
Proof.
  intros H. rewrite <- (take_drop n s) in H.
  apply contains_app_inv in H. tauto.
Qed.

(** The text before the first occurrence has no occurrence. *)
Lemma find_take (t s : string) (j : nat) :
  t <> EmptyString ->
  Py.find t s = Some j -> Py.contains t (Py.take j s) = false.
Proof.
  intros Ht F. apply find_Some in F. destruct F as (_ & Hj & F).
  apply contains_false. intros i.
  destruct (Py.startswith t (Py.drop i (Py.take j s))) eqn:E; [exfalso | reflexivity].
  assert (String.length (Py.take j s) = j) as L.
  { pose proof (take_drop j s) as K. apply (f_equal String.length) in K.
    rewrite length_append, length_drop in K. lia. }
  pose proof (startswith_length _ _ E) as L2. rewrite length_drop, L in L2.
  assert (0 < String.length t) by (destruct t; [congruence | simpl; lia]).
  assert (i < j) as Hi by lia.
  specialize (F i Hi). rewrite <- (take_drop j s) in F.
  rewrite drop_app_le in F by lia.
  apply (startswith_extend _ _ (Py.drop j s)) in E. congruence.
Qed.

Lemma split_lines_no_sep (c : ascii) (s l : string) :
  In l (Py.split c s) -> Py.contains (String c EmptyString) l = false.
Proof.
  revert l; induction s as [|a s IH]; intros l H.
  - simpl in H. destruct H as [<-|[]]. reflexivity.
  - simpl in H. destruct (Py.split c s) as [|p ps] eqn:E;
      [now apply split_nonempty in E|].
    destruct (Ascii.eqb a c) eqn:Eac.
    + destruct H as [<-|H]; [reflexivity | now apply IH].
    + destruct H as [<-|H].
      * rewrite contains_char_cons, Ascii.eqb_sym, Eac. apply IH. now left.
      * apply IH. now right.
Qed.

Lemma extract_loop_shape (lines acc ds : list string) :
  (forall l, In l lines -> Py.contains (String newline EmptyString) l = false) ->
  Forall is_description acc ->
  extract_loop lines acc = inr ds -> Forall is_description ds.
Proof.
  revert acc; induction lines as [|line lines IH]; intros acc Hl Hacc H.
  - simpl in H. now injection H as <-.
  - cbn [extract_loop] in H. destruct (Py.contains opening line).
    + unfold Py.index in H. destruct (Py.find opening line) as [i|]; [|discriminate].
      unfold Py.index_from in H.
      destruct (Nat.ltb (String.length line) (i + String.length opening));
        [discriminate|].
      destruct (Py.find closing (Py.drop (i + String.length opening) line))
        as [j|] eqn:F; [|discriminate].
      apply (IH _ (fun l Hin => Hl l (or_intror Hin))) in H; [exact H|].
      apply Forall_app. split; [exact Hacc|]. constructor; [|constructor].
      unfold Py.slice.
      replace (i + String.length opening + j - (i + String.length opening))
        with j by lia.
      repeat split.
      * apply strip_idem.
      * apply contains_strip. apply find_take; [discriminate | exact F].
      * apply contains_strip, contains_take, contains_drop, Hl. now left.
    + exact (IH _ (fun l Hin => Hl l (or_intror Hin)) Hacc H).
Qed.

(** Every description that extraction returns is trimmed, without closing
    delimiter and without line break. *)
Lemma extract_illustrations_shape (content : string) (ds : list string) :
  extract_illustrations content = inr ds -> Forall is_description ds.
Proof.
  apply extract_loop_shape; [|constructor].
  intros l. apply split_lines_no_sep.
Qed.

Lemma extract_loop_grows (lines acc ds : list string) :
  extract_loop lines acc = inr ds -> exists more, ds = (acc ++ more)%list.
Proof.
  revert acc; induction lines as [|line lines IH]; intros acc H.
  - simpl in H. injection H as <-. exists []. now rewrite app_nil_r.
  - cbn [extract_loop] in H. destruct (Py.contains opening line).
    + destruct (Py.index opening line) as [e|i]; [discriminate|].
      destruct (Py.index_from closing line (i + String.length opening))
        as [e|j]; [discriminate|].
      destruct (IH _ H) as [more ->]. eexists. now rewrite <- app_assoc.
    + exact (IH _ H).
Qed.

Lemma extract_loop_app (l1 l2 acc ds : list string) :
  extract_loop (l1 ++ l2)%list acc = inr ds ->
  exists acc', extract_loop l1 acc = inr acc' /\ extract_loop l2 acc' = inr ds.
Proof.
  revert acc; induction l1 as [|line l1 IH]; intros acc H.
  - exists acc. split; [reflexivity | exact H].
  - cbn [app extract_loop] in *. destruct (Py.contains opening line).
    + destruct (Py.index opening line) as [e|i]; [discriminate|].
      destruct (Py.index_from closing line (i + String.length opening))
        as [e|j]; [discriminate|].
      exact (IH _ H).
    + exact (IH _ H).
Qed.

Lemma split_at_sep (c : ascii) (p rest : string) :
  Py.split c (p ++ String c rest) = (Py.split c p ++ Py.split c rest)%list.
Proof.
  induction p as [|x p IH].
  - simpl. destruct (Py.split c rest) eqn:E; [now apply split_nonempty in E|].
    now rewrite Ascii.eqb_refl.
  - change (String x p ++ String c rest) with (String x (p ++ String c rest)).
    cbn [Py.split]. rewrite IH.
    destruct (Py.split c p) as [|q qs] eqn:E; [now apply split_nonempty in E|].
    cbn [app]. destruct (Ascii.eqb x c); reflexivity.
Qed.

(** The description of a marker that is the first on its line is among the
    descriptions extracted. *)
Lemma extract_marker_in (pre0 a inner post : string) (ds : list string) :
  pre0 = EmptyString \/ (exists p, pre0 = p ++ String newline EmptyString) ->
  Py.contains (String newline EmptyString) a = false ->
  Py.contains opening a = false ->
  Py.contains closing inner = false ->
  Py.contains (String newline EmptyString) inner = false ->
  extract_illustrations (pre0 ++ a ++ opening ++ inner ++ closing ++ post) = inr ds ->
  In (Py.strip inner) ds.
Proof.
  intros Hpre0 Hnla Ha Hin Hnl H. unfold extract_illustrations in H.
  assert (exists l0 b l2,
             Py.split newline (pre0 ++ a ++ opening ++ inner ++ closing ++ post)
             = (l0 ++ (a ++ opening ++ inner ++ closing ++ b)%string :: l2)%list)
    as (l0 & b & l2 & E).
  { assert (exists b l2,
               Py.split newline (a ++ opening ++ inner ++ closing ++ post)
               = (a ++ opening ++ inner ++ closing ++ b) :: l2) as (b & l2 & E).
    { replace (a ++ opening ++ inner ++ closing ++ post)
        with ((a ++ opening ++ inner ++ closing) ++ post)
        by now rewrite !append_assoc.
      rewrite split_app.
      rewrite (split_no_sep newline (a ++ opening ++ inner ++ closing))
        by (rewrite !contains_char_app, Hnla, Hnl; reflexivity).
      destruct (Py.split newline post) as [|b l2] eqn:Ep;
        [now apply split_nonempty in Ep|].
      exists b, l2. cbn [glue]. now rewrite !append_assoc. }
    destruct Hpre0 as [->|[p ->]].
    - exists [], b, l2. exact E.
    - exists (Py.split newline p), b, l2.
      rewrite append_assoc. cbn [append]. rewrite split_at_sep. now rewrite E. }
  rewrite E in H. apply extract_loop_app in H. destruct H as (acc' & _ & H).
  rewrite extract_marker_line in H by assumption.
  apply extract_loop_grows in H. destruct H as [more ->].
  apply in_or_app. left. apply in_or_app. right. now left.
Qed.

(** The interior of a marker that the literal of [e] matches. *)
Lemma canonical_interior (inner e post : string) :
  Py.contains closing inner = false ->
  Py.contains closing e = false ->
  Py.startswith ((" " ++ e ++ " ") ++ closing) (inner ++ closing ++ post) = true ->
  inner = " " ++ e ++ " ".
Proof.
  intros Hin He E. apply startswith_spec in E. destruct E as [r E].
  rewrite append_assoc in E.
  assert (Py.contains closing (" " ++ e ++ " ") = false) as Hd.
  { change (" " ++ e ++ " ") with (String " " (e ++ " ")).
    rewrite contains_cons_miss by reflexivity.
    apply nostraddle_contains; [| exact He | reflexivity].
    apply nostraddle_char. reflexivity. }
  assert (Py.find closing (inner ++ closing ++ post) = Some (String.length inner))
    as F1.
  { apply nostraddle_first; [| exact Hin | apply startswith_app].
    apply nostraddle_unbordered. reflexivity. }
  assert (Py.find closing ((" " ++ e ++ " ") ++ closing ++ r)
          = Some (String.length (" " ++ e ++ " "))) as F2.
  { apply nostraddle_first; [| exact Hd | apply startswith_app].
    apply nostraddle_unbordered. reflexivity. }
  rewrite E in F1. rewrite F1 in F2. injection F2 as F2.
  now destruct (append_eq_length _ _ _ _ E F2).
Qed.

(** No call of the replacement, for any description that extraction can
    return, touches a marker with another interior than the canonical one. *)
Lemma marker_untouched (a inner post e new : string) :
  Py.contains opening a = false ->
  Py.contains opening (inner ++ closing) = false ->
  Py.contains closing inner = false ->
  inner <> " " ++ Py.strip inner ++ " " ->
  is_description e ->
  Py.replace (marker e) new (a ++ opening ++ inner ++ closing ++ post)
  = a ++ opening ++ inner ++ closing ++ Py.replace (marker e) new post.
Proof.
  intros Ha Hnest Hin Hne (He1 & He2 & He3).
  replace (a ++ opening ++ inner ++ closing ++ post)
    with ((a ++ opening ++ inner ++ closing) ++ post) by now rewrite !append_assoc.
  rewrite replace_skip; [now rewrite !append_assoc | apply marker_nonempty |].
  intros i Hi.
  destruct (Py.startswith (marker e)
              (Py.drop i ((a ++ opening ++ inner ++ closing) ++ post))) eqn:E;
    [exfalso | reflexivity].
  rewrite !append_assoc in E. rewrite !length_append in Hi.
  pose proof E as E'. rewrite marker_shape in E'. apply startswith_weaken in E'.
  destruct (Nat.lt_trichotomy i (String.length a)) as [Hlt|[Heq|Hgt]].
  - rewrite drop_app_le in E' by lia.
    apply (nostraddle_unbordered opening a _ unbordered_opening) in E'; [|exact Hlt].
    rewrite contains_false in Ha. now rewrite Ha in E'.
  - subst i. rewrite drop_app_length, marker_shape, startswith_same_head in E.
    apply canonical_interior in E; [| exact Hin | exact He2].
    apply Hne. rewrite E at 2. now rewrite strip_canonical.
  - replace i with (String.length a + (i - String.length a)) in E' by lia.
    rewrite drop_app_ge in E'. set (k := i - String.length a) in *.
    destruct (Nat.lt_ge_cases k (String.length opening)) as [Hk|Hk].
    + rewrite drop_app_le in E' by lia.
      destruct (startswith_app_cases _ _ _ E') as [K|[K1 K2]].
      * apply startswith_length in K. rewrite length_drop in K. lia.
      * rewrite (unbordered_spec opening k unbordered_opening) in K1 by lia.
        discriminate.
    + replace k with (String.length opening + (k - String.length opening))
        in E' by lia.
      rewrite drop_app_ge in E'. rewrite <- append_assoc in E'.
      assert (nostraddle opening (inner ++ closing) post) as NS.
      { replace (inner ++ closing) with ((inner ++ "--") ++ ">")
          by (rewrite append_assoc; reflexivity).
        apply nostraddle_last. reflexivity. }
      rewrite drop_app_le in E' by (rewrite length_append; lia).
      apply NS in E'; [|rewrite length_append; lia].
      rewrite contains_false in Hnest. now rewrite Hnest in E'.
Qed.

Lemma marker_no_newline (e : string) :
  Py.contains (String newline EmptyString) e = false ->
  Py.contains (String newline EmptyString) (marker e) = false.
Proof.
  intros H. unfold marker. rewrite !contains_char_app, H. reflexivity.
Qed.

(** One call of the replacement on a text in which a marker with another
    interior than the canonical one is the first of its line. *)
Lemma replace_keeps_marker (pre0 a inner post e new : string) :
  pre0 = EmptyString \/ (exists p, pre0 = p ++ String newline EmptyString) ->
  Py.contains opening a = false ->
  Py.contains opening (inner ++ closing) = false ->
  Py.contains closing inner = false ->
  inner <> " " ++ Py.strip inner ++ " " ->
  is_description e ->
  exists pre0' post',
    Py.replace (marker e) new (pre0 ++ a ++ opening ++ inner ++ closing ++ post)
    = pre0' ++ a ++ opening ++ inner ++ closing ++ post'
    /\ (pre0' = EmptyString \/ exists p, pre0' = p ++ String newline EmptyString).
Proof.
  intros Hpre0 Ha Hnest Hin Hne He.
  pose proof (marker_untouched a inner post e new Ha Hnest Hin Hne He) as K.
  destruct Hpre0 as [->|[p ->]].
  - exists EmptyString, (Py.replace (marker e) new post). split; [exact K | now left].
  - exists (Py.replace (marker e) new p ++ String newline EmptyString),
      (Py.replace (marker e) new post).
    split; [|right; now eexists].
    destruct He as (_ & _ & He3).
    rewrite replace_app;
      [| apply marker_nonempty
       | apply nostraddle_last; now apply marker_no_newline ].
    rewrite K. f_equal.
    rewrite replace_app;
      [| apply marker_nonempty
       | apply nostraddle_char; now apply marker_no_newline ].
    f_equal.
Qed.

Lemma illustrate_all_keeps_marker
  (images_dir R : string) (api : option stability_client)
  (a inner : string) (ds : list string) :
  Py.contains opening a = false ->
  Py.contains opening (inner ++ closing) = false ->
  Py.contains closing inner = false ->
  inner <> " " ++ Py.strip inner ++ " " ->
  Forall is_description ds ->
  forall st pre0 post,
    pre0 = EmptyString \/ (exists p, pre0 = p ++ String newline EmptyString) ->
    illustrated_content st = pre0 ++ a ++ opening ++ inner ++ closing ++ post ->
    exists st' pre0' post',
      illustrate_all images_dir R api ds st = inr st'
      /\ illustrated_content st'
         = pre0' ++ a ++ opening ++ inner ++ closing ++ post'
      /\ illustration_counter st' = illustration_counter st + List.length ds.
Proof.
  intros Ha Hnest Hin Hne Hds.
  induction Hds as [|e ds He Hds IH]; intros st pre0 post Hpre0 Hc.
  - exists st, pre0, post. split; [reflexivity|]. split; [exact Hc | simpl; lia].
  - cbn [illustrate_all].
    destruct (illustrate_one_result images_dir R api e st) as [w' Hw'].
    rewrite Hw'.
    destruct (replace_keeps_marker pre0 a inner post e
                (img_tag R (illustration_filename (illustration_counter st)) e)
                Hpre0 Ha Hnest Hin Hne He) as (pre0' & post' & Hr & Hp).
    destruct (IH {| illustrated_content :=
                      replace_marker R
                        (illustration_filename (illustration_counter st)) e
                        (illustrated_content st);
                    illustration_counter := S (illustration_counter st);
                    the_world := w' |} pre0' post' Hp)
      as (st' & p1 & p2 & H1 & H2 & H3).
    + cbn [illustrated_content]. unfold replace_marker. rewrite Hc. exact Hr.
    + exists st', p1, p2. split; [exact H1|]. split; [exact H2|].
      rewrite H3. cbn [illustration_counter List.length]. lia.
Qed.

(** * The claims *)

(** C10: extraction is total only under the precondition that every line
    containing the opening token [<!-- illustration:] also contains a later
    [-->] on the same line; on an input with a line that has the opening
    token but no closing delimiter after it, extraction raises (the
    [ValueError] of [line.index]) instead of returning a sequence. *)
Theorem extract_illustrations_total_iff (content : string) :
  ((exists ds, extract_illustrations content = inr ds) <->
   (forall line, In line (Py.split newline content) ->
      Py.contains opening line = true ->
      exists a b c, line = a ++ opening ++ b ++ closing ++ c))
  /\ (extract_illustrations content = inl ValueError <->
      (exists line, In line (Py.split newline content) /\
         Py.contains opening line = true /\
         forall a b c, line <> a ++ opening ++ b ++ closing ++ c)).
Proof.
  unfold extract_illustrations. split; split.
  - intros [ds H] line I C.
    pose proof C as C'. unfold Py.contains in C'.
    destruct (Py.find opening line) as [i|] eqn:F; [|discriminate].
    destruct (Py.index_from closing line (i + String.length opening)) as [e|e] eqn:G.
    + exfalso.
      rewrite (extract_loop_raises _ [] line I C) in H; [discriminate|].
      intros a b c K.
      assert (exists e, Py.index_from closing line (i + String.length opening) = inr e)
        as [e' He'] by (apply (line_closes line i F); now exists a, b, c).
      congruence.
    + apply (line_closes line i F). now exists e.
  - apply extract_loop_total.
  - intros H. exact (proj2 (extract_loop_error _ _ _ H)).
  - intros (line & I & C & N). exact (extract_loop_raises _ _ line I C N).
Qed.

(** C9, as stated, fails, in its two parts.  A marker written without the
    spaces that follows another marker on its line is not extracted: its
    trimmed description is not among the descriptions and no index is spent
    on it.  A marker written without the space after the colon whose
    interior is itself a marker in the exact form does not survive: the
    replacement for the inner description rewrites its interior. *)
Lemma noncanonical_marker_counterexample :
  (extract_illustrations
     "<!-- illustration: a dog --> <!-- illustration:a cat-->" = inr ["a dog"]
   /\ ~ In "a cat" ["a dog"])
  /\ (extract_illustrations
        ("<!-- illustration: x -->"
           ++ String newline "<!-- illustration:<!-- illustration: x -->")
      = inr ["x"; "<!-- illustration: x"]
      /\ exists st',
           illustrate_all "/tmp/e/OEBPS/Images" "../Images" None
             ["x"; "<!-- illustration: x"]
             {| illustrated_content :=
                  "<!-- illustration: x -->"
                    ++ String newline "<!-- illustration:<!-- illustration: x -->";
                illustration_counter := 0;
                the_world := {| fs := []; stability_calls := [] |} |} = inr st'
           /\ illustrated_content st'
              = "<p><img src='../Images/illustration_0.png' alt='x' /></p>"
                  ++ String newline
                       "<!-- illustration:<p><img src='../Images/illustration_0.png' alt='x' /></p>"
           /\ Py.contains "<!-- illustration:<!-- illustration: x -->"
                (illustrated_content st') = false).
Proof.
  split; [split|split].
  - reflexivity.
  - intros [H|[]]. discriminate H.
  - reflexivity.
  - eexists. split; [reflexivity|]. split; reflexivity.
Qed.

(** C9, amended: replacement acts only on the exact literal
    [<!-- illustration: ] + description + [ -->].  Take a marker that
    extraction recognizes (the first opening token of its line, no nested
    opening token) whose interior is not one space, the trimmed description,
    one space.  Its trimmed description is among the extracted ones, so that
    the illustrating loop spends a generation index on it (one per extracted
    description), yet after the loop has run over all the descriptions the
    marker is in the text as it was. *)
Theorem noncanonical_marker_survives
  (pre0 a inner post images_dir R : string) (api : option stability_client) :
  pre0 = EmptyString \/ (exists p, pre0 = p ++ String newline EmptyString) ->
  Py.contains (String newline EmptyString) a = false ->
  Py.contains opening a = false ->
  Py.contains opening (inner ++ closing) = false ->
  Py.contains closing inner = false ->
  Py.contains (String newline EmptyString) inner = false ->
  inner <> " " ++ Py.strip inner ++ " " ->
  let content := pre0 ++ a ++ opening ++ inner ++ closing ++ post in
  (forall d text f,
      Py.contains (marker d) text = false -> replace_marker R f d text = text)
  /\ (forall ds,
        extract_illustrations content = inr ds ->
        In (Py.strip inner) ds
        /\ forall k w,
             exists st' pre0' post',
               illustrate_all images_dir R api ds
                 {| illustrated_content := content;
                    illustration_counter := k;
                    the_world := w |} = inr st'
               /\ illustrated_content st'
                  = pre0' ++ a ++ opening ++ inner ++ closing ++ post'
               /\ illustration_counter st' = k + List.length ds).
Proof.
  intros Hpre0 Hnla Ha Hnest Hin Hnl Hne content. split.
  - intros d text f H. unfold replace_marker. apply replace_absent;
      [apply marker_nonempty | exact H].
  - intros ds Hds. split.
    + exact (extract_marker_in pre0 a inner post ds Hpre0 Hnla Ha Hin Hnl Hds).
    + intros k w.
      exact (illustrate_all_keeps_marker images_dir R api a inner ds
               Ha Hnest Hin Hne (extract_illustrations_shape _ _ Hds)
               {| illustrated_content := content;
                  illustration_counter := k;
                  the_world := w |} pre0 post Hpre0 eq_refl).
Qed.

Lemma noncanonical_marker_survives_witness :
  In "a cat" ["a dog"; "a cat"; "a bird"]
  /\ exists st' pre0' post',
       illustrate_all "/tmp/e/OEBPS/Images" "../Images" None
         ["a dog"; "a cat"; "a bird"]
         {| illustrated_content :=
              ("<!-- illustration: a dog -->" ++ String newline EmptyString)
                ++ "<p>x</p>" ++ opening ++ "a cat" ++ closing
                ++ "<p>y</p>" ++ String newline "<!-- illustration: a bird -->";
            illustration_counter := 0;
            the_world := {| fs := []; stability_calls := [] |} |} = inr st'
       /\ illustrated_content st'
          = pre0' ++ "<p>x</p>" ++ opening ++ "a cat" ++ closing ++ post'
       /\ illustration_counter st' = 3.
Proof.
  destruct (noncanonical_marker_survives
              ("<!-- illustration: a dog -->" ++ String newline EmptyString)
              "<p>x</p>" "a cat" ("<p>y</p>" ++ String newline "<!-- illustration: a bird -->")
              "/tmp/e/OEBPS/Images" "../Images" None) as [_ H].
  - right. now exists "<!-- illustration: a dog -->".
  - reflexivity.
  - reflexivity.
  - reflexivity.
  - reflexivity.
  - reflexivity.
  - discriminate.
  - destruct (H ["a dog"; "a cat"; "a bird"] eq_refl) as [H1 H2].
    split; [exact H1|].
    exact (H2 0 {| fs := []; stability_calls := [] |}).
Defined.

(** C6, as stated, fails: a text whose only marker is written without the
    spaces has exactly one marker, extraction returns its description, and
    replacement leaves the marker in the text and embeds no image. *)
Lemma marker_roundtrip_counterexample :
  extract_illustrations "<p>x</p><!-- illustration:a cat-->" = inr ["a cat"]
  /\ replace_marker "../Images" (illustration_filename 0) "a cat"
       "<p>x</p><!-- illustration:a cat-->"
     = "<p>x</p><!-- illustration:a cat-->"
  /\ Py.contains opening
       (replace_marker "../Images" (illustration_filename 0) "a cat"
          "<p>x</p><!-- illustration:a cat-->") = true
  /\ Py.contains "<img"
       (replace_marker "../Images" (illustration_filename 0) "a cat"
          "<p>x</p><!-- illustration:a cat-->") = false.
Proof. repeat split; reflexivity. Qed.

(** C6, amended: for a text whose only marker is written exactly as
    [<!-- illustration: D -->], with [D] trimmed and free of the closing
    delimiter and of line breaks, extraction returns [[D]]; replacement puts
    one image reference (source [R/illustration_k.png], alternative text [D]
    with [&], [<], [>] and both quotes escaped) in the place of the marker
    and changes nothing else, and no opening token is left when [R] has no
    [<]. *)
Theorem canonical_marker_roundtrip (pre d post R : string) (k : nat) :
  Py.strip d = d ->
  Py.contains closing d = false ->
  Py.contains (String newline EmptyString) d = false ->
  Py.contains opening pre = false ->
  Py.contains opening post = false ->
  Py.contains "<" R = false ->
  let f := illustration_filename k in
  let text := pre ++ marker d ++ post in
  extract_illustrations text = inr [d]
  /\ replace_marker R f d text = pre ++ img_tag R f d ++ post
  /\ img_tag R f d
     = "<p><img src='" ++ R ++ "/" ++ f ++ "' alt='" ++ escape_chars d ++ "' /></p>"
  /\ Py.contains opening (replace_marker R f d text) = false.
Proof.
  intros Hd Hc Hnl Hpre Hpost HR f text.
  assert (Py.contains closing (" " ++ d ++ " ") = false) as Hin.
  { change (" " ++ d ++ " ") with (String " " (d ++ " ")).
    rewrite contains_cons_miss by reflexivity.
    apply nostraddle_contains; [| exact Hc | reflexivity].
    apply nostraddle_char. reflexivity. }
  assert (replace_marker R f d text = pre ++ img_tag R f d ++ post) as Hrep.
  { unfold replace_marker, text. rewrite replace_skip.
    - f_equal. rewrite replace_hit
        by (apply marker_nonempty || apply startswith_app).
      rewrite drop_app_length. f_equal. apply replace_absent.
      + apply marker_nonempty.
      + rewrite marker_shape. now apply contains_weaken.
    - apply marker_nonempty.
    - intros i Hi.
      destruct (Py.startswith (marker d) (Py.drop i (pre ++ marker d ++ post)))
        eqn:E; [exfalso | reflexivity].
      rewrite marker_shape in E. apply startswith_weaken in E.
      rewrite append_assoc in E.
      rewrite drop_app_le in E by lia.
      apply (nostraddle_unbordered opening pre _ unbordered_opening) in E;
        [|exact Hi].
      rewrite contains_false in Hpre. now rewrite Hpre in E. }
  split; [|split; [|split]].
  - unfold text. rewrite marker_shape, !append_assoc.
    rewrite <- (append_assoc " " d), <- (append_assoc (" " ++ d) " ").
    rewrite extract_single; try assumption.
    + rewrite append_assoc. now rewrite strip_canonical.
    + rewrite !contains_char_app, Hnl. reflexivity.
  - exact Hrep.
  - unfold img_tag. now rewrite html_escape_chars.
  - rewrite Hrep. apply img_tag_no_opening; try assumption.
    apply illustration_filename_no_lt.
Qed.

Lemma canonical_marker_roundtrip_witness :
  extract_illustrations ("<p>x</p>" ++ marker "a <b> cat" ++ "<p>y</p>")
  = inr ["a <b> cat"]
  /\ replace_marker "../Images" (illustration_filename 0) "a <b> cat"
       ("<p>x</p>" ++ marker "a <b> cat" ++ "<p>y</p>")
     = "<p>x</p><p><img src='../Images/illustration_0.png' alt='a &lt;b&gt; cat' /></p><p>y</p>".
Proof.
  destruct (canonical_marker_roundtrip "<p>x</p>" "a <b> cat" "<p>y</p>"
              "../Images" 0) as (H1 & H2 & _ & _).
  - reflexivity.
  - reflexivity.
  - reflexivity.
  - reflexivity.
  - reflexivity.
  - reflexivity.
  - split; [exact H1 | exact H2].
Defined.

(** C2, as stated, fails: one call does not replace the first occurrence
    only.  With the marker of one description twice in the text, one call
    replaces both. *)
Lemma replace_marker_first_only_counterexample :
  ~ (forall R f d content,
       replace_marker R f d content
       = replace_first (marker d) (img_tag R f d) content).
Proof.
  intros H.
  specialize (H "../Images" "illustration_0.png" "a cat"
                (marker "a cat" ++ "<p>x</p>" ++ marker "a cat")).
  vm_compute in H. discriminate H.
Qed.

(** C2, amended: one call to marker replacement substitutes every
    occurrence of the marker for that exact description, scanning from the
    left, with the block-level image reference (source the relative path,
    alternative text the HTML-escaped description): the first occurrence is
    replaced and the call goes on in the text after it; for a description
    without the closing delimiter, an occurrence anywhere in the text is
    replaced. *)
Theorem replace_marker_all_occurrences (R f d content : string) :
  replace_marker R f d content
  = match Py.find (marker d) content with
    | None => content
    | Some i =>
        Py.take i content ++ img_tag R f d
          ++ replace_marker R f d
               (Py.drop (i + String.length (marker d)) content)
    end
  /\ img_tag R f d
     = "<p><img src='" ++ R ++ "/" ++ f ++ "' alt='" ++ escape_chars d ++ "' /></p>"
  /\ (Py.contains closing d = false ->
      forall x y,
        replace_marker R f d (x ++ marker d ++ y)
        = replace_marker R f d x ++ img_tag R f d ++ replace_marker R f d y).
Proof.
  split; [|split].
  - unfold replace_marker. apply replace_find, marker_nonempty.
  - unfold img_tag. now rewrite html_escape_chars.
  - intros H x y. unfold replace_marker. apply replace_every.
    + apply marker_nonempty.
    + now apply unbordered_marker.
Qed.

Lemma replace_marker_all_occurrences_witness :
  replace_marker "../Images" "illustration_0.png" "a cat"
    ("<p>x</p>" ++ marker "a cat" ++ "<p>y</p>" ++ marker "a cat")
  = replace_marker "../Images" "illustration_0.png" "a cat" "<p>x</p>"
    ++ img_tag "../Images" "illustration_0.png" "a cat"
    ++ replace_marker "../Images" "illustration_0.png" "a cat"
         ("<p>y</p>" ++ marker "a cat").
Proof.
  apply (proj2 (proj2 (replace_marker_all_occurrences
                         "../Images" "illustration_0.png" "a cat" EmptyString))).
  reflexivity.
Defined.

(** C1, as stated, fails: with no cache entry and a failing image service
    the marker of the description is replaced all the same; it does not
    remain in the rewritten text. *)
Lemma failed_generation_counterexample :
  illustrate_one "/tmp/e/OEBPS/Images" "../Images"
    (Some (fun _ => Raises "service error")) "a cat"
    {| illustrated_content := "<p>x</p><!-- illustration: a cat -->";
       illustration_counter := 0;
       the_world := {| fs := []; stability_calls := [] |} |}
  = inr {| illustrated_content :=
             "<p>x</p><p><img src='../Images/illustration_0.png' alt='a cat' /></p>";
           illustration_counter := 1;
           the_world := {| fs := []; stability_calls := ["a cat"] |} |}
  /\ Py.contains (marker "a cat")
       "<p>x</p><p><img src='../Images/illustration_0.png' alt='a cat' /></p>"
     = false.
Proof. split; reflexivity. Qed.

(** C1, amended: the replacement does not depend on the outcome of the
    generation.  When no cache entry exists and the image service fails, no
    file is written, and the text is rewritten as on success: the first
    occurrence of the marker of the description is replaced by the image
    reference and the replacement goes on after it; the text is unchanged
    only when that marker does not occur in it. *)
Theorem failed_generation_still_replaces
  (images_dir R : string) (api : option stability_client) (d : string)
  (st : loop_state) :
  let f := illustration_filename (illustration_counter st) in
  let w := the_world st in
  exists_file (posixpath.join local_cache_dir f) (fs w) = false ->
  fst (generate_illustration d (posixpath.join images_dir f) api w) = false ->
  exists w',
    illustrate_one images_dir R api d st
    = inr {| illustrated_content := replace_marker R f d (illustrated_content st);
             illustration_counter := S (illustration_counter st);
             the_world := w' |}
    /\ fs w' = fs w
    /\ replace_marker R f d (illustrated_content st)
       = match Py.find (marker d) (illustrated_content st) with
         | None => illustrated_content st
         | Some i =>
             Py.take i (illustrated_content st) ++ img_tag R f d
               ++ replace_marker R f d
                    (Py.drop (i + String.length (marker d)) (illustrated_content st))
         end.
Proof.
  intros f w Hmiss Hfail.
  exists (snd (generate_illustration d (posixpath.join images_dir f) api w)).
  split; [|split].
  - unfold illustrate_one. fold f. fold w. rewrite Hmiss.
    destruct (generate_illustration d (posixpath.join images_dir f) api w)
      as [success w1] eqn:G.
    simpl in Hfail. subst success. reflexivity.
  - now apply generate_failure_fs.
  - unfold replace_marker. apply replace_find, marker_nonempty.
Qed.

Lemma failed_generation_still_replaces_witness :
  exists w',
    illustrate_one "/tmp/e/OEBPS/Images" "../Images" None "a cat"
      {| illustrated_content := "<!-- illustration: a cat -->";
         illustration_counter := 0;
         the_world := {| fs := []; stability_calls := [] |} |}
    = inr {| illustrated_content :=
               replace_marker "../Images" (illustration_filename 0) "a cat"
                 "<!-- illustration: a cat -->";
             illustration_counter := 1;
             the_world := w' |}.
Proof.
  destruct (failed_generation_still_replaces "/tmp/e/OEBPS/Images" "../Images"
              None "a cat"
              {| illustrated_content := "<!-- illustration: a cat -->";
                 illustration_counter := 0;
                 the_world := {| fs := []; stability_calls := [] |} |})
    as (w' & H & _).
  - reflexivity.
  - reflexivity.
  - exists w'. exact H.
Defined.

(** C3: when the cache holds [illustration_<index>.png] for the index of an
    iteration, the image service is not called in that iteration and the
    cached bytes are copied to the destination; the cache path is computed
    from the index alone, so the world after the iteration is the same for
    any description. *)
Theorem cached_illustration_skips_service
  (images_dir R : string) (api : option stability_client) (d : string)
  (st : loop_state) (b : bytes) :
  let k := illustration_counter st in
  let w := the_world st in
  read_file ("./illustrations/" ++ "illustration_" ++ Py.str_of_nat k ++ ".png")
    (fs w) = Some b ->
  exists st',
    illustrate_one images_dir R api d st = inr st'
    /\ stability_calls (the_world st') = stability_calls w
    /\ read_file (posixpath.join images_dir (illustration_filename k))
         (fs (the_world st')) = Some b
    /\ illustration_counter st' = S k
    /\ forall d' content',
         exists st'',
           illustrate_one images_dir R api d'
             {| illustrated_content := content';
                illustration_counter := k;
                the_world := w |} = inr st''
           /\ the_world st'' = the_world st'.
Proof.
  intros k w Hc.
  assert (forall d0 st0,
             illustration_counter st0 = k -> the_world st0 = w ->
             illustrate_one images_dir R api d0 st0
             = inr {| illustrated_content :=
                        replace_marker R (illustration_filename k) d0
                          (illustrated_content st0);
                      illustration_counter := S k;
                      the_world :=
                        {| fs := write_file
                                   (posixpath.join images_dir (illustration_filename k))
                                   b (fs w);
                           stability_calls := stability_calls w |} |}) as Hstep.
  { intros d0 st0 Hk Hw. unfold illustrate_one. rewrite Hk, Hw, cache_path.
    unfold exists_file, shutil_copy. unfold illustration_filename at 1 2.
    rewrite Hc. reflexivity. }
  eexists. split; [apply Hstep; reflexivity|].
  cbn [the_world illustration_counter fs stability_calls].
  split; [reflexivity|]. split; [apply read_write_same|]. split; [reflexivity|].
  intros d' content'. eexists. split; [apply Hstep; reflexivity | reflexivity].
Qed.

Lemma cached_illustration_skips_service_witness :
  exists st',
    illustrate_one "/tmp/e/OEBPS/Images" "../Images"
      (Some (fun _ => Raises "never called")) "a cat"
      {| illustrated_content := "<!-- illustration: a cat -->";
         illustration_counter := 3;
         the_world :=
           {| fs := [("./illustrations/illustration_3.png", [Byte.x89; Byte.x50])];
              stability_calls := [] |} |} = inr st'
    /\ stability_calls (the_world st') = []
    /\ read_file "/tmp/e/OEBPS/Images/illustration_3.png" (fs (the_world st'))
       = Some [Byte.x89; Byte.x50].
Proof.
  destruct (cached_illustration_skips_service "/tmp/e/OEBPS/Images" "../Images"
              (Some (fun _ => Raises "never called")) "a cat"
              {| illustrated_content := "<!-- illustration: a cat -->";
                 illustration_counter := 3;
                 the_world :=
                   {| fs := [("./illustrations/illustration_3.png",
                              [Byte.x89; Byte.x50])];
                      stability_calls := [] |} |}
              [Byte.x89; Byte.x50])
    as (st' & H1 & H2 & H3 & _).
  - reflexivity.
  - exists st'. split; [exact H1 | split; [exact H2 | exact H3]].
Defined.

(** C8, as stated, fails: with [--max-files 0] the limit is not applied and
    every document of the spine is processed, not none. *)
Lemma max_files_zero_counterexample :
  limit_spine_items (Some 0%Z) ["ch1.xhtml"; "ch2.xhtml"]
  = ["ch1.xhtml"; "ch2.xhtml"]
  /\ limit_spine_items (Some 0%Z) ["ch1.xhtml"; "ch2.xhtml"]
     <> List.firstn 0 ["ch1.xhtml"; "ch2.xhtml"]
  /\ exists st',
       process_spine "/tmp/e" "/home" None None (Some 0%Z)
         ["ch1.xhtml"; "ch2.xhtml"]
         {| documents := [("ch1.xhtml", "<p>one</p>"); ("ch2.xhtml", "<p>two</p>")];
            run_counter := 0;
            run_world := {| fs := []; stability_calls := [] |};
            run_gemini := {| gemini_calls := 0; slept := 0 |};
            processed := [] |} = inr st'
       /\ processed st' = ["ch1.xhtml"; "ch2.xhtml"].
Proof.
  split; [reflexivity|]. split; [discriminate|].
  eexists. split; reflexivity.
Qed.

Lemma process_file_processed
  (temp_dir cwd : string) (stability_api : option stability_client)
  (gemini : option gemini_client) (file_path : string) (st st' : run_state) :
  process_file temp_dir cwd stability_api gemini file_path st = inr st' ->
  processed st' = (processed st ++ [file_path])%list.
Proof.
  unfold process_file. destruct (read_text file_path (documents st)); [|discriminate].
  destruct (Nat.ltb (String.length s) 400); [now intros [= <-]|].
  destruct (gemini_illustrate_file gemini default_max_retries
              default_sleep_seconds (run_gemini st)) as [illustrated g].
  destruct (String.eqb illustrated EmptyString); [now intros [= <-]|].
  destruct (extract_illustrations illustrated) as [e|[|d ds]];
    [discriminate | now intros [= <-] |].
  destruct (illustrate_all _ _ _ _ _); [discriminate | now intros [= <-]].
Qed.

Lemma process_files_processed
  (temp_dir cwd : string) (stability_api : option stability_client)
  (gemini : option gemini_client) (spine_items : list string)
  (st st' : run_state) :
  process_files temp_dir cwd stability_api gemini spine_items st = inr st' ->
  processed st' = (processed st ++ spine_items)%list.
Proof.
  revert st; induction spine_items as [|f rest IH]; intros st H.
  - simpl in H. injection H as <-. now rewrite app_nil_r.
  - cbn [process_files] in H.
    destruct (process_file temp_dir cwd stability_api gemini f st) as [e|st1] eqn:E;
      [discriminate|].
    rewrite (IH _ H), (process_file_processed _ _ _ _ _ _ _ E).
    now rewrite <- app_assoc.
Qed.

(** C8, amended: for a positive [N] given via [--max-files] the documents
    processed are exactly the first [N] entries of the spine (all of them
    when the spine is shorter), in order; for [N = 0], a negative [N], or no
    option, the whole spine is processed. *)
Theorem limit_spine_items_spec
  (temp_dir cwd : string) (stability_api : option stability_client)
  (gemini : option gemini_client) (max_files : option Z)
  (spine_items : list string) (st : run_state) :
  limit_spine_items max_files spine_items
  = match max_files with
    | Some n =>
        if (0 <? n)%Z then List.firstn (Z.to_nat n) spine_items else spine_items
    | None => spine_items
    end
  /\ forall st',
       process_spine temp_dir cwd stability_api gemini max_files spine_items st
       = inr st' ->
       processed st'
       = (processed st
          ++ match max_files with
             | Some n =>
                 if (0 <? n)%Z then List.firstn (Z.to_nat n) spine_items
                 else spine_items
             | None => spine_items
             end)%list.
Proof.
  assert (limit_spine_items max_files spine_items
          = match max_files with
            | Some n =>
                if (0 <? n)%Z then List.firstn (Z.to_nat n) spine_items
                else spine_items
            | None => spine_items
            end) as E.
  { destruct max_files as [n|]; [|reflexivity]. unfold limit_spine_items.
    destruct (Z.ltb_spec 0 n) as [H|H].
    - assert (Z.eqb n 0 = false) as -> by (apply Z.eqb_neq; lia). reflexivity.
    - now rewrite andb_false_r. }
  split; [exact E|].
  intros st' H. unfold process_spine in H. rewrite <- E.
  exact (process_files_processed _ _ _ _ _ _ _ H).
Qed.

Lemma limit_spine_items_spec_witness :
  exists st',
    process_spine "/tmp/e" "/home" None None (Some 1%Z)
      ["/tmp/e/OEBPS/Text/ch1.xhtml"; "/tmp/e/OEBPS/Text/ch2.xhtml"]
      {| documents := [("/tmp/e/OEBPS/Text/ch1.xhtml", "<p>one</p>");
                       ("/tmp/e/OEBPS/Text/ch2.xhtml", "<p>two</p>")];
         run_counter := 0;
         run_world := {| fs := []; stability_calls := [] |};
         run_gemini := {| gemini_calls := 0; slept := 0 |};
         processed := [] |} = inr st'
    /\ processed st' = ["/tmp/e/OEBPS/Text/ch1.xhtml"].
Proof.
  eexists. split; [reflexivity|].
  exact (proj2 (limit_spine_items_spec "/tmp/e" "/home" None None (Some 1%Z)
                  ["/tmp/e/OEBPS/Text/ch1.xhtml"; "/tmp/e/OEBPS/Text/ch2.xhtml"]
                  {| documents := [("/tmp/e/OEBPS/Text/ch1.xhtml", "<p>one</p>");
                                   ("/tmp/e/OEBPS/Text/ch2.xhtml", "<p>two</p>")];
                     run_counter := 0;
                     run_world := {| fs := []; stability_calls := [] |};
                     run_gemini := {| gemini_calls := 0; slept := 0 |};
                     processed := [] |})
           _ eq_refl).
Defined.

(** ** The retry loop *)

(** [n] transient failures in a row, starting at the call [from]. *)
Lemma retry_loop_transient
  (client : gemini_client) (sleep_seconds n remaining : nat) (st : gemini_state) :
  (forall i, i < n ->
     exists msg, client (gemini_calls st + i) = Raises msg /\ transient msg = true) ->
  retry_loop client sleep_seconds (n + remaining) st
  = retry_loop client sleep_seconds remaining
      {| gemini_calls := gemini_calls st + n;
         slept := slept st + n * sleep_seconds |}.
Proof.
  revert st; induction n as [|n IH]; intros st H.
  - simpl. rewrite !Nat.add_0_r. now destruct st.
  - cbn [Nat.add retry_loop].
    destruct (H 0 ltac:(lia)) as (msg & Hm & Ht). rewrite Nat.add_0_r in Hm.
    rewrite Hm, Ht. cbn [gemini_calls slept]. rewrite IH.
    + cbn [gemini_calls slept]. f_equal. f_equal; lia.
    + intros i Hi. cbn [gemini_calls].
      destruct (H (S i) ltac:(lia)) as (m & Hm' & Ht').
      exists m. split; [|exact Ht'].
      now replace (S (gemini_calls st) + i) with (gemini_calls st + S i) by lia.
Qed.

Lemma retry_loop_calls_bound
  (client : gemini_client) (sleep_seconds remaining : nat) (st : gemini_state) :
  gemini_calls (snd (retry_loop client sleep_seconds remaining st))
  <= gemini_calls st + remaining.
Proof.
  revert st; induction remaining as [|r IH]; intros st; simpl; [lia|].
  destruct (client (gemini_calls st)) as [msg|content]; simpl; [|lia].
  destruct (transient msg); simpl; [|lia].
  etransitivity; [apply IH|]. simpl. lia.
Qed.

(** C7: the augmentation call is retried, after a fixed sleep, only when the
    error is a transient one (its text contains [503] or [overloaded]), and
    at most [max_retries] calls are made; any other error ends the loop at
    once with the empty result; a service that reports overload for the
    first [N - 1] calls, [N <= max_retries], and then succeeds is called
    exactly [N] times and its content is returned, after [N - 1] sleeps. *)
Theorem gemini_retry_policy
  (client : gemini_client) (max_retries sleep_seconds : nat) (st : gemini_state) :
  (forall N content,
      1 <= N <= max_retries ->
      (forall i, i < N - 1 ->
         exists msg, client (gemini_calls st + i) = Raises msg
                     /\ transient msg = true) ->
      client (gemini_calls st + (N - 1)) = Returns content ->
      gemini_illustrate_file (Some client) max_retries sleep_seconds st
      = (content,
         {| gemini_calls := gemini_calls st + N;
            slept := slept st + (N - 1) * sleep_seconds |}))
  /\ (forall n msg,
        n < max_retries ->
        (forall i, i < n ->
           exists m, client (gemini_calls st + i) = Raises m
                     /\ transient m = true) ->
        client (gemini_calls st + n) = Raises msg ->
        transient msg = false ->
        gemini_illustrate_file (Some client) max_retries sleep_seconds st
        = (EmptyString,
           {| gemini_calls := gemini_calls st + n + 1;
              slept := slept st + n * sleep_seconds |}))
  /\ ((forall i, i < max_retries ->
         exists m, client (gemini_calls st + i) = Raises m
                   /\ transient m = true) ->
      gemini_illustrate_file (Some client) max_retries sleep_seconds st
      = (EmptyString,
         {| gemini_calls := gemini_calls st + max_retries;
            slept := slept st + max_retries * sleep_seconds |}))
  /\ gemini_calls
       (snd (gemini_illustrate_file (Some client) max_retries sleep_seconds st))
     <= gemini_calls st + max_retries.
Proof.
  unfold gemini_illustrate_file. split; [|split; [|split]].
  - intros N content HN Hov Hok.
    replace max_retries with ((N - 1) + S (max_retries - N)) by lia.
    rewrite retry_loop_transient by exact Hov.
    cbn [retry_loop gemini_calls slept]. rewrite Hok.
    f_equal. f_equal. lia.
  - intros n msg Hn Hov Hraise Hnt.
    replace max_retries with (n + S (max_retries - n - 1)) by lia.
    rewrite retry_loop_transient by exact Hov.
    cbn [retry_loop gemini_calls slept]. rewrite Hraise, Hnt.
    f_equal. f_equal. lia.
  - intros Hov.
    replace max_retries with (max_retries + 0) at 1 by lia.
    rewrite retry_loop_transient by exact Hov. reflexivity.
  - apply retry_loop_calls_bound.
Qed.

Lemma gemini_retry_policy_witness :
  gemini_illustrate_file
    (Some (fun n => if Nat.ltb n 2 then Raises "503 UNAVAILABLE: model is overloaded"
                    else Returns "<p>text</p><!-- illustration: a cat -->"))
    default_max_retries default_sleep_seconds
    {| gemini_calls := 0; slept := 0 |}
  = ("<p>text</p><!-- illustration: a cat -->",
     {| gemini_calls := 3; slept := 10 |}).
Proof.
  apply (proj1 (gemini_retry_policy
                  (fun n => if Nat.ltb n 2
                            then Raises "503 UNAVAILABLE: model is overloaded"
                            else Returns "<p>text</p><!-- illustration: a cat -->")
                  default_max_retries default_sleep_seconds
                  {| gemini_calls := 0; slept := 0 |})
           3 "<p>text</p><!-- illustration: a cat -->").
  - unfold default_max_retries. lia.
  - intros i Hi. exists "503 UNAVAILABLE: model is overloaded".
    destruct i as [|[|i]]; [split; reflexivity | split; reflexivity | simpl in Hi; lia].
  - reflexivity.
Defined.

(** ** The manifest and the spine *)

Lemma manifest_loop_lookup (items : list Element) (m0 m : dict) (id : string) :
  manifest_loop items m0 = inr m ->
  dict_lookup id m
  = match manifest_href items id with
    | Some href => Some href
    | None => dict_lookup id m0
    end.
Proof.
  revert m0; induction items as [|item items IH]; intros m0 H.
  - simpl in H. injection H as <-. reflexivity.
  - simpl in H. unfold dict_get in H.
    destruct (dict_lookup "id" (attrib item)) as [id'|] eqn:Eid; [|discriminate].
    destruct (dict_lookup "href" (attrib item)) as [href|] eqn:Ehref; [|discriminate].
    rewrite (IH _ H). simpl. rewrite Eid.
    destruct (manifest_href items id); [reflexivity|].
    unfold dict_set. simpl. destruct (String.eqb id id'); [now rewrite Ehref | reflexivity].
Qed.

Lemma manifest_loop_total (items : list Element) (m0 : dict) :
  Forall (fun item => dict_lookup "id" (attrib item) <> None
                      /\ dict_lookup "href" (attrib item) <> None) items ->
  exists m, manifest_loop items m0 = inr m.
Proof.
  revert m0; induction items as [|item items IH]; intros m0 H.
  - now exists m0.
  - inversion H as [|? ? [H1 H2] H3]; subst. simpl. unfold dict_get.
    destruct (dict_lookup "id" (attrib item)); [|congruence].
    destruct (dict_lookup "href" (attrib item)); [|congruence].
    now apply IH.
Qed.

Lemma spine_loop_ok (opf_path : string) (items : list Element) (manifest : dict)
  (itemrefs : list Element) (hrefs acc : list string) :
  (forall id, dict_lookup id manifest = manifest_href items id) ->
  Forall2 (resolves items) itemrefs hrefs ->
  spine_loop opf_path manifest itemrefs acc
  = inr (acc ++ List.map (spine_path opf_path) hrefs)%list.
Proof.
  intros Hm H. revert acc. induction H as [|r h rs hs (idref & H1 & H2) _ IH];
    intros acc.
  - simpl. now rewrite app_nil_r.
  - simpl. unfold dict_get. rewrite H1, Hm, H2. rewrite IH.
    now rewrite <- app_assoc.
Qed.

Lemma spine_loop_missing (opf_path : string) (items : list Element)
  (manifest : dict) (before : list Element) (itemref : Element)
  (after : list Element) (hrefs acc : list string) (idref : string) :
  (forall id, dict_lookup id manifest = manifest_href items id) ->
  Forall2 (resolves items) before hrefs ->
  dict_lookup "idref" (attrib itemref) = Some idref ->
  manifest_href items idref = None ->
  spine_loop opf_path manifest (before ++ itemref :: after)%list acc
  = inl (KeyError idref).
Proof.
  intros Hm H Hid Hnone. revert acc.
  induction H as [|r h rs hs (i & H1 & H2) _ IH]; intros acc.
  - simpl. unfold dict_get. now rewrite Hid, Hm, Hnone.
  - simpl. unfold dict_get. rewrite H1, Hm, H2. apply IH.
Qed.

(** C4: for a well-formed package (the OPF root has a manifest and a spine
    in its own namespace, every manifest item has an [id] and an [href]),
    spine resolution returns the paths of the content documents in the
    document order of the [itemref] elements, each [idref] resolved through
    the manifest to an [href], joined to the directory of the OPF document
    and normalized; an [idref] without manifest entry makes the resolution
    fail (the [KeyError] of the lookup, which nothing catches). *)
Theorem spine_in_document_order
  (opf_path : string) (opf_root manifest_el spine_el : Element) :
  find_child (qname (opf_namespace opf_root) "manifest") opf_root
  = Some manifest_el ->
  find_child (qname (opf_namespace opf_root) "spine") opf_root = Some spine_el ->
  Forall (fun item => dict_lookup "id" (attrib item) <> None
                      /\ dict_lookup "href" (attrib item) <> None)
    (children manifest_el) ->
  (forall hrefs,
      Forall2 (resolves (children manifest_el)) (children spine_el) hrefs ->
      spine_of_opf opf_path opf_root
      = inr (List.map
               (fun href =>
                  posixpath.normpath
                    (posixpath.join (posixpath.dirname opf_path) href))
               hrefs))
  /\ (forall before itemref after hrefs idref,
        children spine_el = (before ++ itemref :: after)%list ->
        Forall2 (resolves (children manifest_el)) before hrefs ->
        dict_lookup "idref" (attrib itemref) = Some idref ->
        manifest_href (children manifest_el) idref = None ->
        spine_of_opf opf_path opf_root = inl (KeyError idref)).
Proof.
  intros Hman Hspine Hwf.
  destruct (manifest_loop_total _ [] Hwf) as [m Hm].
  assert (forall id, dict_lookup id m = manifest_href (children manifest_el) id)
    as Hlook.
  { intros id. rewrite (manifest_loop_lookup _ _ _ id Hm).
    now destruct (manifest_href (children manifest_el) id). }
  unfold spine_of_opf. rewrite Hman, Hm, Hspine. split.
  - intros hrefs H. now rewrite (spine_loop_ok _ _ _ _ _ [] Hlook H).
  - intros before itemref after hrefs idref E H Hid Hnone. rewrite E.
    exact (spine_loop_missing _ _ _ _ _ _ _ [] _ Hlook H Hid Hnone).
Qed.

Lemma spine_in_document_order_witness :
  spine_of_opf "/tmp/e/OEBPS/content.opf"
    (Elem "{http://www.idpf.org/2007/opf}package" []
       [Elem "{http://www.idpf.org/2007/opf}manifest" []
          [Elem "{http://www.idpf.org/2007/opf}item"
             [("id", "c1"); ("href", "Text/ch1.xhtml")] [];
           Elem "{http://www.idpf.org/2007/opf}item"
             [("id", "c2"); ("href", "Text/ch2.xhtml")] []];
        Elem "{http://www.idpf.org/2007/opf}spine" []
          [Elem "{http://www.idpf.org/2007/opf}itemref" [("idref", "c2")] [];
           Elem "{http://www.idpf.org/2007/opf}itemref" [("idref", "c1")] []]])
  = inr ["/tmp/e/OEBPS/Text/ch2.xhtml"; "/tmp/e/OEBPS/Text/ch1.xhtml"].
Proof.
  apply (proj1 (spine_in_document_order "/tmp/e/OEBPS/content.opf"
                  (Elem "{http://www.idpf.org/2007/opf}package" []
                     [Elem "{http://www.idpf.org/2007/opf}manifest" []
                        [Elem "{http://www.idpf.org/2007/opf}item"
                           [("id", "c1"); ("href", "Text/ch1.xhtml")] [];
                         Elem "{http://www.idpf.org/2007/opf}item"
                           [("id", "c2"); ("href", "Text/ch2.xhtml")] []];
                      Elem "{http://www.idpf.org/2007/opf}spine" []
                        [Elem "{http://www.idpf.org/2007/opf}itemref"
                           [("idref", "c2")] [];
                         Elem "{http://www.idpf.org/2007/opf}itemref"
                           [("idref", "c1")] []]])
                  _ _ eq_refl eq_refl
                  ltac:(repeat constructor; discriminate))
           ["Text/ch2.xhtml"; "Text/ch1.xhtml"]).
  repeat constructor.
  - exists "c2". split; reflexivity.
  - exists "c1". split; reflexivity.
Defined.

(** ** The repackager *)

Lemma node_nested_ind (P : node -> Prop) :
  (forall d, P (File d)) ->
  (forall entries, Forall (fun e => P (snd e)) entries -> P (Dir entries)) ->
  forall n, P n.
Proof.
  intros HF HD. fix IH 1. intros [d|entries]; [apply HF|].
  apply HD. induction entries as [|[name c] es IHes]; constructor.
  - apply IH.
  - exact IHes.
Qed.

(** What [os.walk] lists are files of the tree, under their paths. *)
Lemma walk_sound (n : node) :
  forall folder fo fs_ name d,
    In (fo, fs_) (walk folder n) -> In (name, d) fs_ ->
    exists path, (fo ++ [name] = folder ++ path)%list /\ is_file_at n path d.
Proof.
  induction n as [d0|entries IH] using node_nested_ind;
    intros folder fo fs_ name d Hw Hf; [destruct Hw|].
  cbn [walk] in Hw. destruct Hw as [Hw|Hw].
  - injection Hw as <- <-. apply in_flat_map in Hf.
    destruct Hf as ([n0 c] & He & Hc). simpl in Hc.
    destruct c as [d1|sub]; [|destruct Hc].
    destruct Hc as [Hc|[]]. injection Hc as -> ->.
    exists [name]. split; [reflexivity | now apply file_here].
  - apply in_flat_map in Hw. destruct Hw as ([n0 c] & He & Hc). simpl in Hc.
    destruct c as [d1|sub]; [destruct Hc|].
    rewrite Forall_forall in IH. specialize (IH _ He). simpl in IH.
    destruct (IH _ _ _ _ _ Hc Hf) as (path & Hp & Hat).
    exists (n0 :: path). split.
    + rewrite Hp, <- app_assoc. reflexivity.
    + now apply (file_below entries sub).
Qed.

(** Every file of the tree is listed by [os.walk]. *)
Lemma walk_complete (n : node) (path : list string) (d : bytes) :
  is_file_at n path d ->
  forall folder,
    exists fo fs_ name,
      In (fo, fs_) (walk folder n) /\ In (name, d) fs_
      /\ (fo ++ [name] = folder ++ path)%list.
Proof.
  induction 1 as [entries name d H|entries sub name path d H Hat IH]; intros folder.
  - exists folder, (List.flat_map
                      (fun e => match snd e with
                                | File d => [(fst e, d)]
                                | Dir _ => []
                                end) entries), name.
    split; [now left|]. split; [|reflexivity].
    apply in_flat_map. exists (name, File d). split; [exact H | now left].
  - destruct (IH (folder ++ [name])%list) as (fo & fs_ & nm & H1 & H2 & H3).
    exists fo, fs_, nm. split; [|split; [exact H2|]].
    + cbn [walk]. right. apply in_flat_map. exists (name, Dir sub).
      split; [exact H | exact H1].
    + rewrite H3, <- app_assoc. reflexivity.
Qed.

Lemma zip_folder_entry (folder : list string) (fs_ : list (string * bytes))
  (e : zip_entry) :
  In e (zip_folder folder fs_) <->
  exists name d,
    In (name, d) fs_
    /\ as_posix (folder ++ [name]) <> "mimetype"
    /\ e = {| arcname := as_posix (folder ++ [name]);
              compress_type := ZIP_DEFLATED;
              payload := d |}.
Proof.
  unfold zip_folder. rewrite in_flat_map. split.
  - intros ([name d] & Hin & He). cbn [fst snd] in He.
    destruct (String.eqb_spec (as_posix (folder ++ [name])) "mimetype") as [E|E];
      [destruct He|].
    destruct He as [<-|[]]. now exists name, d.
  - intros (name & d & Hin & Hne & ->). exists (name, d). split; [exact Hin|].
    cbn [fst snd].
    destruct (String.eqb_spec (as_posix (folder ++ [name])) "mimetype") as [E|E];
      [contradiction | now left].
Qed.

(** C5: for a working tree with a file [mimetype] at its root, the archive
    begins with the entry [mimetype], stored without compression; every
    other entry is deflated and is a file of the tree under its path
    relative to the root; every file of the tree other than the root
    [mimetype] has its entry; [mimetype] is the name of exactly one
    entry. *)
Theorem zip_epub_mimetype_first (entries : list (string * node)) (d : bytes) :
  lookup_entry "mimetype" entries = Some (File d) ->
  exists rest,
    zip_epub (Dir entries)
    = {| arcname := "mimetype"; compress_type := ZIP_STORED; payload := d |} :: rest
    /\ (forall e, In e rest ->
          compress_type e = ZIP_DEFLATED
          /\ arcname e <> "mimetype"
          /\ exists path,
               is_file_at (Dir entries) path (payload e)
               /\ arcname e = as_posix path)
    /\ (forall path d',
          is_file_at (Dir entries) path d' -> as_posix path <> "mimetype" ->
          In {| arcname := as_posix path;
                compress_type := ZIP_DEFLATED;
                payload := d' |} rest)
    /\ List.length
         (List.filter (fun e => String.eqb (arcname e) "mimetype")
            (zip_epub (Dir entries))) = 1.
Proof.
  intros Hm. unfold zip_epub, mimetype_first. rewrite Hm.
  set (rest := List.flat_map (fun w => zip_folder (fst w) (snd w))
                 (walk [] (Dir entries))).
  exists rest. cbn [app].
  assert (forall e, In e rest ->
            compress_type e = ZIP_DEFLATED /\ arcname e <> "mimetype"
            /\ exists path, is_file_at (Dir entries) path (payload e)
                            /\ arcname e = as_posix path) as Hrest.
  { intros e He. apply in_flat_map in He. destruct He as ([fo fs_] & Hw & He).
    cbn [fst snd] in He. apply zip_folder_entry in He.
    destruct He as (name & d' & Hin & Hne & ->). cbn.
    split; [reflexivity|]. split; [exact Hne|].
    destruct (walk_sound _ _ _ _ _ _ Hw Hin) as (path & Hp & Hat).
    exists path. split; [exact Hat | now rewrite Hp]. }
  split; [reflexivity|]. split; [exact Hrest|]. split.
  - intros path d' Hat Hne.
    destruct (walk_complete _ _ _ Hat []) as (fo & fs_ & name & H1 & H2 & H3).
    apply in_flat_map. exists (fo, fs_). split; [exact H1|]. cbn [fst snd].
    apply zip_folder_entry. exists name, d'. cbn [app] in H3. rewrite H3.
    split; [exact H2|]. split; [exact Hne | reflexivity].
  - cbn [List.filter arcname]. rewrite String.eqb_refl. cbn [List.length]. f_equal.
    assert (forall l : list zip_entry,
               (forall e, In e l -> arcname e <> "mimetype") ->
               List.filter (fun e => String.eqb (arcname e) "mimetype") l = [])
      as Hnone.
    { induction l as [|e l IHl]; intros H; [reflexivity|]. cbn [List.filter].
      destruct (String.eqb_spec (arcname e) "mimetype") as [E|E].
      - exfalso. apply (H e); [now left | exact E].
      - apply IHl. intros e' He'. apply H. now right. }
    rewrite Hnone; [reflexivity|]. intros e He. apply (Hrest e He).
Qed.

Lemma zip_epub_mimetype_first_witness :
  exists rest,
    zip_epub
      (Dir [("META-INF", Dir [("container.xml", File [Byte.x3c])]);
            ("mimetype", File [Byte.x61]);
            ("OEBPS", Dir [("mimetype", File [Byte.x62]);
                           ("content.opf", File [Byte.x63])])])
    = {| arcname := "mimetype"; compress_type := ZIP_STORED;
         payload := [Byte.x61] |} :: rest
    /\ List.map arcname rest
       = ["META-INF/container.xml"; "OEBPS/mimetype"; "OEBPS/content.opf"].
Proof.
  destruct (zip_epub_mimetype_first
              [("META-INF", Dir [("container.xml", File [Byte.x3c])]);
               ("mimetype", File [Byte.x61]);
               ("OEBPS", Dir [("mimetype", File [Byte.x62]);
                              ("content.opf", File [Byte.x63])])]
              [Byte.x61] eq_refl) as (rest & H & _).
  exists rest. split; [exact H|].
  vm_compute in H. injection H as H. now rewrite <- H.
Defined.

(** * Further properties of the code *)

(** ** Extraction *)

Lemma extract_loop_acc (lines acc : list string) :
  extract_loop lines acc
  = match extract_loop lines [] with
    | inl e => inl e
    | inr ds => inr (acc ++ ds)%list
    end.
Proof.
  revert acc; induction lines as [|line lines IH]; intros acc.
  - simpl. now rewrite app_nil_r.
  - cbn [extract_loop]. destruct (Py.contains opening line); [|apply IH].
    destruct (Py.index opening line) as [e|i]; [reflexivity|].
    destruct (Py.index_from closing line (i + String.length opening)) as [e|j];
      [reflexivity|].
    rewrite (IH (acc ++ _)%list), (IH ([] ++ _)%list).
    destruct (extract_loop lines []); [reflexivity|].
    now rewrite <- app_assoc.
Qed.

Lemma extract_loop_app_gen (l1 l2 acc : list string) :
  extract_loop (l1 ++ l2)%list acc
  = match extract_loop l1 acc with
    | inl e => inl e
    | inr acc' => extract_loop l2 acc'
    end.
Proof.
  revert acc; induction l1 as [|line l1 IH]; intros acc; [reflexivity|].
  cbn [app extract_loop]. destruct (Py.contains opening line); [|apply IH].
  destruct (Py.index opening line) as [e|i]; [reflexivity|].
  destruct (Py.index_from closing line (i + String.length opening)) as [e|j];
    [reflexivity | apply IH].
Qed.

(** X1: on a line, only the marker that starts at the first opening token
    is extracted: whatever follows its closing delimiter on the same line,
    further markers included, adds nothing to the result. *)
Theorem extract_first_marker_of_line (a inner b : string) :
  Py.contains (String newline EmptyString) (a ++ inner ++ b) = false ->
  Py.contains opening a = false ->
  Py.contains closing inner = false ->
  extract_illustrations (a ++ opening ++ inner ++ closing ++ b)
  = inr [Py.strip inner].
Proof.
  intros Hnl Ha Hin. unfold extract_illustrations.
  rewrite !contains_char_app in Hnl. apply orb_false_iff in Hnl.
  destruct Hnl as [H1 Hnl]. apply orb_false_iff in Hnl. destruct Hnl as [H2 H3].
  rewrite split_no_sep by (rewrite !contains_char_app, H1, H2, H3; reflexivity).
  now rewrite extract_marker_line.
Qed.

Lemma extract_first_marker_of_line_witness :
  extract_illustrations
    ("<p>" ++ opening ++ " a cat " ++ closing ++ " and <!-- illustration: a dog -->")
  = inr ["a cat"].
Proof.
  apply (extract_first_marker_of_line "<p>" " a cat "
           " and <!-- illustration: a dog -->"); reflexivity.
Defined.

(** X2: extraction works line by line: the descriptions of a text made of
    two parts separated by a line break are those of the first part followed
    by those of the second, and the text raises when one of the parts
    does. *)
Theorem extract_illustrations_lines (x y : string) :
  extract_illustrations (x ++ String newline y)
  = match extract_illustrations x with
    | inl e => inl e
    | inr ds1 =>
        match extract_illustrations y with
        | inl e => inl e
        | inr ds2 => inr (ds1 ++ ds2)%list
        end
    end.
Proof.
  unfold extract_illustrations. rewrite split_at_sep, extract_loop_app_gen.
  destruct (extract_loop (Py.split newline x) []) as [e|ds1]; [reflexivity|].
  apply extract_loop_acc.
Qed.

(** X3: every description that extraction returns is trimmed, contains no
    closing delimiter and no line break. *)
Theorem extracted_descriptions_are_clean (content : string) (ds : list string) :
  extract_illustrations content = inr ds ->
  forall d, In d ds ->
    Py.strip d = d
    /\ Py.contains closing d = false
    /\ Py.contains (String newline EmptyString) d = false.
Proof.
  intros H d Hd. pose proof (extract_illustrations_shape _ _ H) as F.
  rewrite Forall_forall in F. exact (F d Hd).
Qed.

Lemma extracted_descriptions_are_clean_witness :
  Py.strip "a cat" = "a cat"
  /\ Py.contains closing "a cat" = false
  /\ Py.contains (String newline EmptyString) "a cat" = false.
Proof.
  exact (extracted_descriptions_are_clean
           "<!-- illustration:   a cat   --> tail -->" ["a cat"] eq_refl
           "a cat" (or_introl eq_refl)).
Defined.

Lemma extract_loop_count (lines acc ds : list string) :
  extract_loop lines acc = inr ds ->
  List.length ds
  = List.length acc + List.length (List.filter (Py.contains opening) lines).
Proof.
  revert acc; induction lines as [|line lines IH]; intros acc H.
  - simpl in H. injection H as <-. simpl. lia.
  - cbn [extract_loop List.filter] in *. destruct (Py.contains opening line).
    + destruct (Py.index opening line) as [e|i]; [discriminate|].
      destruct (Py.index_from closing line (i + String.length opening)) as [e|j];
        [discriminate|].
      rewrite (IH _ H), length_app. simpl. lia.
    + exact (IH _ H).
Qed.

(** X4: when extraction returns, it returns one description for each line
    that contains the opening token, no more and no less; a text without the
    opening token gives the empty list. *)
Theorem extract_one_per_marked_line (content : string) (ds : list string) :
  extract_illustrations content = inr ds ->
  List.length ds
  = List.length (List.filter (Py.contains opening) (Py.split newline content)).
Proof. intros H. exact (extract_loop_count _ [] _ H). Qed.

Lemma extract_one_per_marked_line_witness :
  List.length ["a cat"; "a dog"]
  = List.length
      (List.filter (Py.contains opening)
         (Py.split newline
            ("<!-- illustration: a cat --><!-- illustration: a fox -->"
               ++ String newline "<p>text</p>"
               ++ String newline "<!-- illustration:a dog-->"))).
Proof.
  exact (extract_one_per_marked_line
           ("<!-- illustration: a cat --><!-- illustration: a fox -->"
              ++ String newline "<p>text</p>"
              ++ String newline "<!-- illustration:a dog-->")
           ["a cat"; "a dog"] eq_refl).
Defined.

(** ** Escaping *)

(** X5: the escaped text contains no [<], no [>], no double quote and no
    single quote, so that it cannot end the [alt='...'] attribute it is put
    in, nor open a tag. *)
Theorem html_escape_attribute_safe (s : string) :
  Py.contains "<" (html_escape s) = false
  /\ Py.contains ">" (html_escape s) = false
  /\ Py.contains dquote (html_escape s) = false
  /\ Py.contains "'" (html_escape s) = false.
Proof.
  split; [apply html_escape_no_lt|].
  unfold html_escape, dquote. cbv zeta. repeat split.
  - do 2 (apply replace_char_keeps_absent; [reflexivity|]).
    now apply replace_char_removes.
  - apply replace_char_keeps_absent; [reflexivity|].
    now apply replace_char_removes.
  - now apply replace_char_removes.
Qed.

(** X6: escaping works character by character: the five replacements in a
    row amount to replacing each character by its entity, the ampersands of
    the entities put in are not escaped again, and a text without [&], [<],
    [>] and quotes is left as it is. *)
Theorem html_escape_characterwise (x y : string) (c : ascii) :
  html_escape (x ++ y) = html_escape x ++ html_escape y
  /\ html_escape (String c EmptyString) = escape_char c
  /\ (Py.contains "&" x = false -> Py.contains "<" x = false ->
      Py.contains ">" x = false -> Py.contains dquote x = false ->
      Py.contains "'" x = false -> html_escape x = x).
Proof.
  split; [apply html_escape_app|]. split; [apply html_escape_char|].
  intros H1 H2 H3 H4 H5. unfold html_escape, dquote in *. cbv zeta.
  rewrite (replace_absent "&") by (discriminate || exact H1).
  rewrite (replace_absent "<") by (discriminate || exact H2).
  rewrite (replace_absent ">") by (discriminate || exact H3).
  rewrite (replace_absent (String (ascii_of_nat 34) EmptyString))
    by (discriminate || exact H4).
  now rewrite (replace_absent "'") by (discriminate || exact H5).
Qed.

Lemma html_escape_characterwise_witness :
  html_escape "a vivid cat" = "a vivid cat".
Proof.
  apply (proj2 (proj2 (html_escape_characterwise "a vivid cat" EmptyString "a")));
    reflexivity.
Defined.

(** ** Replacement when a description occurs more than once *)

Lemma replace_marker_pieces (R f d : string) (pieces : list string) :
  Py.contains closing d = false ->
  Forall (fun p => Py.contains opening p = false) pieces ->
  replace_marker R f d (Py.join (marker d) pieces)
  = Py.join (img_tag R f d) pieces.
Proof.
  intros Hd H. unfold replace_marker, Py.join.
  induction H as [|p ps Hp Hps IH]; [reflexivity|].
  assert (Py.replace (marker d) (img_tag R f d) p = p) as Ep.
  { apply replace_absent; [apply marker_nonempty|].
    rewrite marker_shape. now apply contains_weaken. }
  destruct ps as [|q ps]; [exact Ep|].
  cbn [String.concat] in *.
  rewrite replace_every by (apply marker_nonempty || now apply unbordered_marker).
  now rewrite Ep, IH.
Qed.

Lemma img_pieces_no_opening (R f d : string) (pieces : list string) :
  Py.contains "<" R = false -> Py.contains "<" f = false ->
  Forall (fun p => Py.contains opening p = false) pieces ->
  Py.contains opening (Py.join (img_tag R f d) pieces) = false.
Proof.
  intros HR Hf H. unfold Py.join.
  induction H as [|p ps Hp Hps IH]; [reflexivity|].
  destruct ps as [|q ps]; [exact Hp|].
  cbn [String.concat] in *. now apply img_tag_no_opening.
Qed.

(** X7: when the markers of a text are all for one description [d] (the
    text is pieces without opening token joined by the marker of [d]), the
    first iteration for [d] replaces all of them by the image of its index
    [k]; the second iteration for [d] spends the index [k + 1] and changes
    nothing, so that every occurrence refers to [illustration_k.png]. *)
Theorem duplicate_description_shares_first_image
  (images_dir R : string) (api : option stability_client) (d : string)
  (pieces : list string) (k : nat) (w : world) :
  Py.contains closing d = false ->
  Py.contains "<" R = false ->
  Forall (fun p => Py.contains opening p = false) pieces ->
  exists w',
    illustrate_all images_dir R api [d; d]
      {| illustrated_content := Py.join (marker d) pieces;
         illustration_counter := k;
         the_world := w |}
    = inr {| illustrated_content :=
               Py.join (img_tag R (illustration_filename k) d) pieces;
             illustration_counter := S (S k);
             the_world := w' |}.
Proof.
  intros Hd HR Hp. cbn [illustrate_all].
  destruct (illustrate_one_result images_dir R api d
              {| illustrated_content := Py.join (marker d) pieces;
                 illustration_counter := k;
                 the_world := w |}) as [w1 H1].
  rewrite H1. cbn [illustrated_content illustration_counter].
  rewrite replace_marker_pieces by assumption.
  destruct (illustrate_one_result images_dir R api d
              {| illustrated_content :=
                   Py.join (img_tag R (illustration_filename k) d) pieces;
                 illustration_counter := S k;
                 the_world := w1 |}) as [w2 H2].
  rewrite H2. cbn [illustrated_content illustration_counter].
  exists w2. do 2 f_equal. unfold replace_marker. apply replace_absent.
  - apply marker_nonempty.
  - rewrite marker_shape. apply contains_weaken.
    apply img_pieces_no_opening; [exact HR | apply illustration_filename_no_lt | exact Hp].
Qed.

Lemma duplicate_description_shares_first_image_witness :
  exists w',
    illustrate_all "/tmp/e/OEBPS/Images" "../Images" None ["a cat"; "a cat"]
      {| illustrated_content :=
           "<p>x</p><!-- illustration: a cat --><p>y</p><!-- illustration: a cat -->";
         illustration_counter := 4;
         the_world := {| fs := []; stability_calls := [] |} |}
    = inr {| illustrated_content :=
               "<p>x</p><p><img src='../Images/illustration_4.png' alt='a cat' /></p><p>y</p><p><img src='../Images/illustration_4.png' alt='a cat' /></p>";
             illustration_counter := 6;
             the_world := w' |}.
Proof.
  exact (duplicate_description_shares_first_image "/tmp/e/OEBPS/Images"
           "../Images" None "a cat" ["<p>x</p>"; "<p>y</p>"; EmptyString] 4
           {| fs := []; stability_calls := [] |} eq_refl eq_refl
           ltac:(repeat constructor)).
Defined.

(** ** The image service and the cache *)

Lemma find_first_image (before after : list artifact) (a : artifact) :
  (forall x, In x before -> type_image x = false) ->
  type_image a = true ->
  List.find type_image (before ++ a :: after)%list = Some a.
Proof.
  intros Hb Ha. induction before as [|x before IH]; simpl.
  - now rewrite Ha.
  - rewrite (Hb x) by now left. apply IH. intros y Hy. apply Hb. now right.
Qed.

Lemma find_no_image (l : list artifact) :
  (forall x, In x l -> type_image x = false) -> List.find type_image l = None.
Proof.
  intros H. induction l as [|x l IH]; [reflexivity|]. simpl.
  rewrite (H x) by now left. apply IH. intros y Hy. apply H. now right.
Qed.

(** X8: for a path with a directory part (the directory that
    [os.makedirs] creates), and the write taken to succeed, the image written
    is the binary of the first artifact, in the order of the answers, that is
    an image, whether or not that artifact (or an earlier one) is flagged as
    filtered; when no artifact is an image the call is made, nothing is
    written and the generation fails, whatever the path. *)
Theorem generate_illustration_first_image
  (prompt path : string) (api : stability_client) (w : world)
  (answers : list (list artifact)) :
  api prompt = Returns answers ->
  (posixpath.dirname path <> EmptyString ->
   forall before a after,
      List.concat answers = (before ++ a :: after)%list ->
      (forall x, In x before -> type_image x = false) ->
      type_image a = true ->
      generate_illustration prompt path (Some api) w
      = (true, {| fs := write_file path (binary a) (fs w);
                  stability_calls := prompt :: stability_calls w |}))
  /\ ((forall x, In x (List.concat answers) -> type_image x = false) ->
      generate_illustration prompt path (Some api) w
      = (false, {| fs := fs w;
                   stability_calls := prompt :: stability_calls w |})).
Proof.
  intros Hapi. unfold generate_illustration, first_image. rewrite Hapi. split.
  - intros _ before a after E Hb Ha. rewrite E.
    now rewrite (find_first_image before after a Hb Ha).
  - intros H. now rewrite (find_no_image _ H).
Qed.

Lemma generate_illustration_first_image_witness :
  posixpath.dirname "/tmp/e/OEBPS/Images/illustration_0.png" = "/tmp/e/OEBPS/Images"
  /\ generate_illustration "a cat" "/tmp/e/OEBPS/Images/illustration_0.png"
       (Some (fun _ =>
                Returns [[{| finish_reason_filter := true; type_image := false;
                             binary := [] |};
                          {| finish_reason_filter := true; type_image := true;
                             binary := [Byte.x89] |}];
                         [{| finish_reason_filter := false; type_image := true;
                             binary := [Byte.x50] |}]]))
       {| fs := []; stability_calls := [] |}
     = (true, {| fs := [("/tmp/e/OEBPS/Images/illustration_0.png", [Byte.x89])];
                 stability_calls := ["a cat"] |}).
Proof.
  split; [reflexivity|].
  apply (proj1 (generate_illustration_first_image "a cat"
                  "/tmp/e/OEBPS/Images/illustration_0.png"
                  (fun _ =>
                     Returns [[{| finish_reason_filter := true; type_image := false;
                                  binary := [] |};
                               {| finish_reason_filter := true; type_image := true;
                                  binary := [Byte.x89] |}];
                              [{| finish_reason_filter := false; type_image := true;
                                  binary := [Byte.x50] |}]])
                  {| fs := []; stability_calls := [] |} _ eq_refl)
           ltac:(discriminate)
           [{| finish_reason_filter := true; type_image := false; binary := [] |}]
           {| finish_reason_filter := true; type_image := true;
              binary := [Byte.x89] |}
           [{| finish_reason_filter := false; type_image := true;
               binary := [Byte.x50] |}]).
  - reflexivity.
  - intros x [<-|[]]. reflexivity.
  - reflexivity.
Defined.

Lemma read_write_other (p q : string) (b : bytes) (fs0 : files) :
  p <> q -> read_file p (write_file q b fs0) = read_file p fs0.
Proof.
  intros H. unfold write_file. simpl.
  destruct (String.eqb_spec p q); [contradiction | reflexivity].
Qed.

Lemma illustrate_one_cached
  (images_dir R : string) (api : option stability_client) (d : string)
  (st : loop_state) (b : bytes) :
  read_file (posixpath.join local_cache_dir
               (illustration_filename (illustration_counter st)))
    (fs (the_world st)) = Some b ->
  illustrate_one images_dir R api d st
  = inr {| illustrated_content :=
             replace_marker R (illustration_filename (illustration_counter st)) d
               (illustrated_content st);
           illustration_counter := S (illustration_counter st);
           the_world :=
             {| fs := write_file
                        (posixpath.join images_dir
                           (illustration_filename (illustration_counter st)))
                        b (fs (the_world st));
                stability_calls := stability_calls (the_world st) |} |}.
Proof.
  intros H. unfold illustrate_one, exists_file, shutil_copy. now rewrite H.
Qed.

(** X9: an image that was generated is kept in the cache under its index:
    after an iteration without cache entry in which the service returned an
    image, the destination and the cache entry both hold its binary, and an
    iteration with the same index on the resulting files, for any
    description and any service, does not call the service and puts the
    same binary at the destination. *)
Theorem generated_image_is_cached
  (images_dir R R' : string) (api : stability_client)
  (api' : option stability_client) (d d' content' : string) (st : loop_state)
  (answers : list (list artifact)) (a : artifact) :
  let k := illustration_counter st in
  let cache := posixpath.join local_cache_dir (illustration_filename k) in
  let dest := posixpath.join images_dir (illustration_filename k) in
  exists_file cache (fs (the_world st)) = false ->
  api d = Returns answers ->
  first_image answers = Some a ->
  exists st1,
    illustrate_one images_dir R (Some api) d st = inr st1
    /\ read_file dest (fs (the_world st1)) = Some (binary a)
    /\ read_file cache (fs (the_world st1)) = Some (binary a)
    /\ exists st2,
         illustrate_one images_dir R' api' d'
           {| illustrated_content := content';
              illustration_counter := k;
              the_world := the_world st1 |} = inr st2
         /\ stability_calls (the_world st2) = stability_calls (the_world st1)
         /\ read_file dest (fs (the_world st2)) = Some (binary a).
Proof.
  intros k cache dest Hmiss Hapi Himg.
  assert (illustrate_one images_dir R (Some api) d st
          = inr {| illustrated_content :=
                     replace_marker R (illustration_filename k) d
                       (illustrated_content st);
                   illustration_counter := S k;
                   the_world :=
                     {| fs := write_file cache (binary a)
                                (write_file dest (binary a) (fs (the_world st)));
                        stability_calls := d :: stability_calls (the_world st) |} |})
    as H1.
  { unfold illustrate_one. fold k. fold cache. fold dest. rewrite Hmiss.
    unfold generate_illustration. rewrite Hapi, Himg.
    unfold shutil_copy. cbn [fs stability_calls]. now rewrite read_write_same. }
  eexists. split; [exact H1|]. cbn [the_world fs stability_calls].
  assert (read_file dest
            (write_file cache (binary a)
               (write_file dest (binary a) (fs (the_world st))))
          = Some (binary a)) as Hdest.
  { unfold write_file. simpl. destruct (String.eqb dest cache); [reflexivity|].
    now rewrite String.eqb_refl. }
  split; [exact Hdest|]. split; [apply read_write_same|].
  eexists. split.
  - apply illustrate_one_cached. cbn [illustration_counter the_world fs].
    fold cache. apply read_write_same.
  - cbn [the_world fs stability_calls illustration_counter]. fold dest.
    split; [reflexivity | apply read_write_same].
Qed.

Lemma generated_image_is_cached_witness :
  exists st1,
    illustrate_one "/tmp/e/OEBPS/Images" "../Images"
      (Some (fun _ => Returns [[{| finish_reason_filter := false;
                                   type_image := true;
                                   binary := [Byte.x89] |}]]))
      "a cat"
      {| illustrated_content := "<!-- illustration: a cat -->";
         illustration_counter := 0;
         the_world := {| fs := []; stability_calls := [] |} |} = inr st1
    /\ read_file "./illustrations/illustration_0.png" (fs (the_world st1))
       = Some [Byte.x89].
Proof.
  destruct (generated_image_is_cached "/tmp/e/OEBPS/Images" "../Images" "../Images"
              (fun _ => Returns [[{| finish_reason_filter := false;
                                     type_image := true;
                                     binary := [Byte.x89] |}]])
              None "a cat" "a dog" EmptyString
              {| illustrated_content := "<!-- illustration: a cat -->";
                 illustration_counter := 0;
                 the_world := {| fs := []; stability_calls := [] |} |}
              _ {| finish_reason_filter := false; type_image := true;
                   binary := [Byte.x89] |} eq_refl eq_refl eq_refl)
    as (st1 & H1 & _ & H3 & _).
  exists st1. split; [exact H1 | exact H3].
Defined.

Lemma illustrate_one_world
  (images_dir R : string) (api : option stability_client) (d : string)
  (st st' : loop_state) :
  illustrate_one images_dir R api d st = inr st' ->
  let k := illustration_counter st in
  let cache := posixpath.join local_cache_dir (illustration_filename k) in
  let dest := posixpath.join images_dir (illustration_filename k) in
  illustration_counter st' = S k
  /\ (stability_calls (the_world st') = stability_calls (the_world st)
      \/ (api <> None
          /\ exists_file cache (fs (the_world st)) = false
          /\ stability_calls (the_world st') = d :: stability_calls (the_world st)))
  /\ forall p, p <> cache -> p <> dest ->
       read_file p (fs (the_world st')) = read_file p (fs (the_world st)).
Proof.
  intros H k cache dest. unfold illustrate_one in H. fold k cache dest in H.
  destruct (exists_file cache (fs (the_world st))) eqn:E.
  - unfold shutil_copy in H.
    destruct (read_file cache (fs (the_world st))); [|discriminate].
    injection H as <-. cbn [the_world fs stability_calls illustration_counter]. split; [reflexivity|]. split; [now left|].
    intros p _ Hp. now apply read_write_other.
  - unfold generate_illustration in H. destruct api as [api|].
    + destruct (api d) as [msg|answers].
      * injection H as <-. cbn [the_world fs stability_calls illustration_counter]. split; [reflexivity|].
        split; [right; repeat split; discriminate || reflexivity | reflexivity].
      * destruct (first_image answers) as [a|].
        -- unfold shutil_copy in H. cbn [fs stability_calls] in H.
           rewrite read_write_same in H. injection H as <-. cbn [the_world fs stability_calls illustration_counter].
           split; [reflexivity|].
           split; [right; repeat split; discriminate || reflexivity|].
           intros p Hc Hd. rewrite read_write_other by exact Hc.
           now apply read_write_other.
        -- injection H as <-. cbn [the_world fs stability_calls illustration_counter]. split; [reflexivity|].
           split; [right; repeat split; discriminate || reflexivity | reflexivity].
    + injection H as <-. cbn [the_world fs stability_calls illustration_counter]. split; [reflexivity|]. split; [now left | reflexivity].
Qed.

(** The loop over the descriptions: result, counter and calls. *)
Lemma illustrate_all_effect
  (images_dir R : string) (api : option stability_client) (ds : list string)
  (st : loop_state) :
  exists st',
    illustrate_all images_dir R api ds st = inr st'
    /\ illustration_counter st' = illustration_counter st + List.length ds
    /\ List.length (stability_calls (the_world st'))
       <= List.length (stability_calls (the_world st)) + List.length ds
    /\ (api = None ->
        stability_calls (the_world st') = stability_calls (the_world st)).
Proof.
  revert st; induction ds as [|d ds IH]; intros st.
  - exists st. cbn [illustrate_all List.length]. repeat split; lia.
  - cbn [illustrate_all].
    destruct (illustrate_one_result images_dir R api d st) as [w1 H1].
    rewrite H1. pose proof (illustrate_one_world _ _ _ _ _ _ H1) as (_ & Hc & _).
    cbn [the_world] in Hc.
    destruct (IH {| illustrated_content :=
                      replace_marker R
                        (illustration_filename (illustration_counter st)) d
                        (illustrated_content st);
                    illustration_counter := S (illustration_counter st);
                    the_world := w1 |}) as (st' & H & Hk & Hn & Hnone).
    exists st'. cbn [illustration_counter the_world List.length] in *.
    split; [exact H|]. split; [lia|]. split.
    + destruct Hc as [Hc|(_ & _ & Hc)]; rewrite Hc in Hn; simpl in Hn; lia.
    + intros Hapi. rewrite (Hnone Hapi).
      destruct Hc as [Hc|(Hc & _)]; [exact Hc | contradiction].
Qed.


(** X10: a run of the illustrating loop that completes has spent exactly one
    index per description, whether the image came from the cache, was
    generated, or could not be generated; it has called the image service at
    most once per description, and not at all when the client is absent. *)
Theorem illustrate_all_spends_one_index_each
  (images_dir R : string) (api : option stability_client) (ds : list string)
  (st st' : loop_state) :
  illustrate_all images_dir R api ds st = inr st' ->
  illustration_counter st' = illustration_counter st + List.length ds
  /\ List.length (stability_calls (the_world st'))
     <= List.length (stability_calls (the_world st)) + List.length ds
  /\ (api = None ->
      stability_calls (the_world st') = stability_calls (the_world st)).
Proof.
  intros H.
  destruct (illustrate_all_effect images_dir R api ds st) as (st2 & H2 & Hrest).
  rewrite H in H2. injection H2 as <-. exact Hrest.
Qed.

Lemma illustrate_all_spends_one_index_each_witness :
  exists st',
    illustrate_all "/tmp/e/OEBPS/Images" "../Images"
      (Some (fun _ => Returns [[{| finish_reason_filter := false;
                                   type_image := true;
                                   binary := [Byte.x89] |}]]))
      ["a cat"; "a dog"; "a bird"]
      {| illustrated_content := "<!-- illustration: a dog -->";
         illustration_counter := 5;
         the_world :=
           {| fs := [("./illustrations/illustration_5.png", [Byte.x50])];
              stability_calls := [] |} |} = inr st'
    /\ illustration_counter st' = 5 + 3
    /\ List.length (stability_calls (the_world st')) <= 0 + 3
    /\ stability_calls (the_world st') = ["a bird"; "a dog"].
Proof.
  eexists. split; [reflexivity|].
  destruct (illustrate_all_spends_one_index_each
              "/tmp/e/OEBPS/Images" "../Images"
              (Some (fun _ => Returns [[{| finish_reason_filter := false;
                                           type_image := true;
                                           binary := [Byte.x89] |}]]))
              ["a cat"; "a dog"; "a bird"]
              {| illustrated_content := "<!-- illustration: a dog -->";
                 illustration_counter := 5;
                 the_world :=
                   {| fs := [("./illustrations/illustration_5.png", [Byte.x50])];
                      stability_calls := [] |} |}
              _ eq_refl) as (H1 & H2 & _).
  split; [exact H1|]. split; [exact H2 | reflexivity].
Defined.

(** X11: an iteration writes only the destination and the cache entry of
    its own index: every other file is as it was. *)
Theorem illustrate_one_writes_only_its_files
  (images_dir R : string) (api : option stability_client) (d : string)
  (st st' : loop_state) (p : string) :
  illustrate_one images_dir R api d st = inr st' ->
  p <> posixpath.join local_cache_dir
         (illustration_filename (illustration_counter st)) ->
  p <> posixpath.join images_dir
         (illustration_filename (illustration_counter st)) ->
  read_file p (fs (the_world st')) = read_file p (fs (the_world st)).
Proof.
  intros H Hc Hd.
  exact (proj2 (proj2 (illustrate_one_world _ _ _ _ _ _ H)) p Hc Hd).
Qed.

Lemma illustrate_one_writes_only_its_files_witness :
  read_file "/tmp/e/OEBPS/Images/cover.png"
    (fs {| fs := [("/tmp/e/OEBPS/Images/illustration_0.png", [Byte.x89]);
                  ("./illustrations/illustration_0.png", [Byte.x89]);
                  ("/tmp/e/OEBPS/Images/cover.png", [Byte.x01])];
           stability_calls := [] |})
  = Some [Byte.x01].
Proof.
  exact (illustrate_one_writes_only_its_files "/tmp/e/OEBPS/Images" "../Images"
           None "a cat"
           {| illustrated_content := "<!-- illustration: a cat -->";
              illustration_counter := 0;
              the_world :=
                {| fs := [("./illustrations/illustration_0.png", [Byte.x89]);
                          ("/tmp/e/OEBPS/Images/cover.png", [Byte.x01])];
                   stability_calls := [] |} |}
           _ "/tmp/e/OEBPS/Images/cover.png" eq_refl
           ltac:(discriminate) ltac:(discriminate)).
Defined.

Lemma append_inv_tail (a b c : string) : a ++ c = b ++ c -> a = b.
Proof.
  intros H. assert (String.length a = String.length b) as L.
  { apply (f_equal String.length) in H. rewrite !length_append in H. lia. }
  now destruct (append_eq_length _ _ _ _ H L).
Qed.

Lemma str_of_nat_inj (m n : nat) : Py.str_of_nat m = Py.str_of_nat n -> m = n.
Proof.
  unfold Py.str_of_nat. intros H.
  apply (f_equal NilEmpty.uint_of_string) in H. rewrite !NilEmpty.usu in H.
  injection H as H. apply (f_equal Nat.of_uint) in H.
  now rewrite !DecimalNat.Unsigned.of_to in H.
Qed.

(** X12: two generation indices never share a file: the file names, the
    cache entries and the destinations of different indices are
    different. *)
Theorem illustration_files_distinct (images_dir : string) (m n : nat) :
  m <> n ->
  illustration_filename m <> illustration_filename n
  /\ posixpath.join local_cache_dir (illustration_filename m)
     <> posixpath.join local_cache_dir (illustration_filename n)
  /\ posixpath.join images_dir (illustration_filename m)
     <> posixpath.join images_dir (illustration_filename n).
Proof.
  intros Hmn.
  assert (illustration_filename m <> illustration_filename n) as Hf.
  { unfold illustration_filename. intros H. apply append_inv_head in H.
    apply append_inv_tail in H. now apply str_of_nat_inj in H. }
  split; [exact Hf|]. split.
  - rewrite !cache_path. intros H. now apply append_inv_head in H.
  - unfold posixpath.join.
    assert (forall k, Py.startswith "/" (illustration_filename k) = false) as Hs
        by reflexivity.
    rewrite !Hs. destruct (String.eqb images_dir EmptyString
                           || posixpath.endswith_sep images_dir)%bool;
      intros H; apply append_inv_head in H.
    + contradiction.
    + apply (append_inv_head "/") in H. contradiction.
Qed.

Lemma illustration_files_distinct_witness :
  illustration_filename 9 <> illustration_filename 10.
Proof.
  apply (illustration_files_distinct "/tmp/e/OEBPS/Images" 9 10). lia.
Defined.

(** ** The augmentation service *)

Lemma retry_loop_inversion
  (client : gemini_client) (sleep_seconds remaining : nat) (st st' : gemini_state)
  (content : string) :
  retry_loop client sleep_seconds remaining st = (content, st') ->
  content <> EmptyString ->
  exists n,
    n < remaining
    /\ (forall i, i < n ->
          exists m, client (gemini_calls st + i) = Raises m /\ transient m = true)
    /\ client (gemini_calls st + n) = Returns content
    /\ gemini_calls st' = gemini_calls st + n + 1
    /\ slept st' = slept st + n * sleep_seconds.
Proof.
  revert st; induction remaining as [|r IH]; intros st H Hne.
  - simpl in H. injection H as <- _. congruence.
  - cbn [retry_loop] in H.
    destruct (client (gemini_calls st)) as [msg|c] eqn:E.
    + destruct (transient msg) eqn:T.
      * apply IH in H; [|exact Hne]. cbn [gemini_calls slept] in H.
        destruct H as (n & Hn & Hi & Hr & Hc & Hs). exists (S n).
        split; [lia|]. split; [|split; [|split]].
        -- intros [|i] Hlt.
           ++ exists msg. now rewrite Nat.add_0_r.
           ++ destruct (Hi i ltac:(lia)) as (m & Hm & Tm). exists m.
              split; [|exact Tm].
              now replace (gemini_calls st + S i) with (S (gemini_calls st) + i) by lia.
        -- now replace (gemini_calls st + S n) with (S (gemini_calls st) + n) by lia.
        -- lia.
        -- lia.
      * injection H as <- _. congruence.
    + injection H as <- <-. exists 0. rewrite !Nat.add_0_r.
      cbn [gemini_calls slept]. split; [lia|]. split; [intros i Hi; lia|].
      split; [exact E|]. split; lia.
Qed.

(** X13: a non-empty result of the augmentation is the content returned by
    one of the first [max_retries] attempts, every attempt before it having
    failed with a transient error and been followed by one sleep; in every
    other case (absent client, other error, attempts used up) the result is
    the empty text. *)
Theorem gemini_result_comes_from_a_successful_attempt
  (client : option gemini_client) (max_retries sleep_seconds : nat)
  (st st' : gemini_state) (content : string) :
  gemini_illustrate_file client max_retries sleep_seconds st = (content, st') ->
  content <> EmptyString ->
  exists c n,
    client = Some c
    /\ n < max_retries
    /\ (forall i, i < n ->
          exists m, c (gemini_calls st + i) = Raises m /\ transient m = true)
    /\ c (gemini_calls st + n) = Returns content
    /\ gemini_calls st' = gemini_calls st + n + 1
    /\ slept st' = slept st + n * sleep_seconds.
Proof.
  intros H Hne. unfold gemini_illustrate_file in H. destruct client as [c|].
  - destruct (retry_loop_inversion _ _ _ _ _ _ H Hne) as (n & Hn).
    exists c, n. split; [reflexivity | exact Hn].
  - injection H as <- _. congruence.
Qed.

Lemma gemini_result_comes_from_a_successful_attempt_witness :
  exists c n,
    Some (fun k : nat => if Nat.eqb k 0 then Raises "overloaded"
                         else @Returns string "text") = Some c
    /\ n < 5
    /\ c (0 + n) = Returns "text".
Proof.
  destruct (gemini_result_comes_from_a_successful_attempt
              (Some (fun k : nat => if Nat.eqb k 0 then Raises "overloaded"
                                    else @Returns string "text"))
              5 5 {| gemini_calls := 0; slept := 0 |}
              {| gemini_calls := 2; slept := 5 |} "text" eq_refl
              ltac:(discriminate))
    as (c & n & H1 & H2 & _ & H4 & _).
  exists c, n. split; [exact H1 | split; [exact H2 | exact H4]].
Defined.

(** ** The loop over the documents *)

Lemma read_text_cons_other (p q t : string) (docs : texts) :
  p <> q -> read_text p ((q, t) :: docs) = read_text p docs.
Proof.
  intros H. simpl. destruct (String.eqb_spec p q); [contradiction | reflexivity].
Qed.

(** What one document does to the state of the run. *)
Lemma process_file_effect
  (temp_dir cwd : string) (stability_api : option stability_client)
  (gemini : option gemini_client) (file_path : string) (st st' : run_state) :
  process_file temp_dir cwd stability_api gemini file_path st = inr st' ->
  run_counter st <= run_counter st'
  /\ gemini_calls (run_gemini st) <= gemini_calls (run_gemini st')
  /\ (forall p, p <> file_path ->
        read_text p (documents st') = read_text p (documents st))
  /\ (forall p, read_text p (documents st) <> None ->
        read_text p (documents st') <> None).
Proof.
  unfold process_file.
  destruct (read_text file_path (documents st)) as [content|] eqn:R; [|discriminate].
  assert (forall p, read_text p (documents st) <> None ->
                    read_text p (documents st) <> None) as Hid by auto.
  destruct (Nat.ltb (String.length content) 400).
  { intros [= <-]. cbn. repeat split; auto. }
  destruct (gemini_illustrate_file gemini default_max_retries
              default_sleep_seconds (run_gemini st)) as [illustrated g] eqn:G.
  assert (gemini_calls (run_gemini st) <= gemini_calls g) as Hg.
  { unfold gemini_illustrate_file in G. destruct gemini as [c|].
    - clear -G. revert G. generalize (run_gemini st). generalize default_max_retries.
      induction n as [|n IH]; intros s G.
      + simpl in G. injection G as _ <-. lia.
      + cbn [retry_loop] in G. destruct (c (gemini_calls s)) as [msg|x].
        * destruct (transient msg).
          -- apply IH in G. cbn [gemini_calls] in G. lia.
          -- injection G as _ <-. cbn. lia.
        * injection G as _ <-. cbn. lia.
    - injection G as _ <-. lia. }
  destruct (String.eqb illustrated EmptyString).
  { intros [= <-]. cbn. repeat split; auto. }
  destruct (extract_illustrations illustrated) as [e|[|d ds]]; [discriminate | |].
  { intros [= <-]. cbn. repeat split; auto. }
  destruct (illustrate_all_effect
              (posixpath.join (posixpath.join temp_dir "OEBPS") "Images")
              (posixpath.relpath cwd
                 (posixpath.join (posixpath.join temp_dir "OEBPS") "Images")
                 (posixpath.dirname file_path))
              stability_api (d :: ds)
              {| illustrated_content := illustrated;
                 illustration_counter := run_counter st;
                 the_world := run_world st |}) as (l & Hl & Hk & _).
  rewrite Hl. intros [= <-]. cbn [run_counter run_gemini documents].
  cbn [illustration_counter] in Hk. split; [lia|]. split; [exact Hg|]. split.
  - intros p Hp. now apply read_text_cons_other.
  - intros p Hp. simpl. destruct (String.eqb p file_path); [discriminate | exact Hp].
Qed.

Lemma process_file_no_new_document
  (temp_dir cwd : string) (stability_api : option stability_client)
  (gemini : option gemini_client) (file_path : string) (st st' : run_state)
  (p : string) :
  process_file temp_dir cwd stability_api gemini file_path st = inr st' ->
  read_text p (documents st') <> None -> read_text p (documents st) <> None.
Proof.
  unfold process_file.
  destruct (read_text file_path (documents st)) as [content|] eqn:R; [|discriminate].
  destruct (Nat.ltb (String.length content) 400); [now intros [= <-]|].
  destruct (gemini_illustrate_file gemini default_max_retries
              default_sleep_seconds (run_gemini st)) as [illustrated g].
  destruct (String.eqb illustrated EmptyString); [now intros [= <-]|].
  destruct (extract_illustrations illustrated) as [e|[|d ds]];
    [discriminate | now intros [= <-] |].
  destruct (illustrate_all _ _ _ _ _); [discriminate|].
  intros [= <-]. cbn [documents]. simpl.
  destruct (String.eqb_spec p file_path) as [->|_]; [|auto].
  intros _. congruence.
Qed.

Lemma process_file_reads
  (temp_dir cwd : string) (stability_api : option stability_client)
  (gemini : option gemini_client) (file_path : string) (st st' : run_state) :
  process_file temp_dir cwd stability_api gemini file_path st = inr st' ->
  read_text file_path (documents st) <> None.
Proof.
  unfold process_file. destruct (read_text file_path (documents st));
    [discriminate | discriminate].
Qed.

(** X14: a run in which every document is shorter than 400 characters, or
    in which the augmentation client is absent, changes no document, spends
    no index, writes no file and calls no service: it only visits the
    documents. *)
Theorem process_files_without_augmentation
  (temp_dir cwd : string) (stability_api : option stability_client)
  (gemini : option gemini_client) (spine_items : list string) (st : run_state) :
  (forall f, In f spine_items ->
     exists content,
       read_text f (documents st) = Some content
       /\ (gemini = None \/ String.length content < 400)) ->
  process_files temp_dir cwd stability_api gemini spine_items st
  = inr {| documents := documents st;
           run_counter := run_counter st;
           run_world := run_world st;
           run_gemini := run_gemini st;
           processed := (processed st ++ spine_items)%list |}.
Proof.
  revert st; induction spine_items as [|f rest IH]; intros st H.
  - simpl. rewrite app_nil_r. now destruct st.
  - cbn [process_files].
    destruct (H f (or_introl eq_refl)) as (content & R & Hc).
    assert (process_file temp_dir cwd stability_api gemini f st
            = inr {| documents := documents st;
                     run_counter := run_counter st;
                     run_world := run_world st;
                     run_gemini := run_gemini st;
                     processed := (processed st ++ [f])%list |}) as E.
    { unfold process_file. rewrite R.
      destruct (Nat.ltb_spec (String.length content) 400) as [L|L]; [reflexivity|].
      destruct Hc as [->|Hc]; [reflexivity | lia]. }
    rewrite E. rewrite IH; cbn [documents run_counter run_world run_gemini processed].
    + now rewrite <- app_assoc.
    + intros f' Hf'. apply H. now right.
Qed.

Lemma process_files_without_augmentation_witness :
  process_files "/tmp/e" "/home"
    (Some (fun _ => Raises "unused")) None ["ch1.xhtml"; "ch2.xhtml"]
    {| documents := [("ch1.xhtml", "<p>one</p>"); ("ch2.xhtml", "<p>two</p>")];
       run_counter := 0;
       run_world := {| fs := []; stability_calls := [] |};
       run_gemini := {| gemini_calls := 0; slept := 0 |};
       processed := [] |}
  = inr {| documents := [("ch1.xhtml", "<p>one</p>"); ("ch2.xhtml", "<p>two</p>")];
           run_counter := 0;
           run_world := {| fs := []; stability_calls := [] |};
           run_gemini := {| gemini_calls := 0; slept := 0 |};
           processed := ["ch1.xhtml"; "ch2.xhtml"] |}.
Proof.
  apply (process_files_without_augmentation "/tmp/e" "/home"
           (Some (fun _ => Raises "unused")) None ["ch1.xhtml"; "ch2.xhtml"]
           {| documents := [("ch1.xhtml", "<p>one</p>"); ("ch2.xhtml", "<p>two</p>")];
              run_counter := 0;
              run_world := {| fs := []; stability_calls := [] |};
              run_gemini := {| gemini_calls := 0; slept := 0 |};
              processed := [] |}).
  intros f [<-|[<-|[]]].
  - exists "<p>one</p>". split; [reflexivity | now left].
  - exists "<p>two</p>". split; [reflexivity | now left].
Defined.

Lemma process_files_effect
  (temp_dir cwd : string) (stability_api : option stability_client)
  (gemini : option gemini_client) (spine_items : list string)
  (st st' : run_state) :
  process_files temp_dir cwd stability_api gemini spine_items st = inr st' ->
  run_counter st <= run_counter st'
  /\ gemini_calls (run_gemini st) <= gemini_calls (run_gemini st')
  /\ (forall p, ~ In p spine_items ->
        read_text p (documents st') = read_text p (documents st))
  /\ (forall f, In f spine_items -> read_text f (documents st) <> None).
Proof.
  revert st; induction spine_items as [|f rest IH]; intros st H.
  - simpl in H. injection H as <-. repeat split; auto.
  - cbn [process_files] in H.
    destruct (process_file temp_dir cwd stability_api gemini f st) as [e|st1] eqn:E;
      [discriminate|].
    destruct (process_file_effect _ _ _ _ _ _ _ E) as (H1 & H2 & H3 & _).
    destruct (IH _ H) as (K1 & K2 & K3 & K4).
    split; [lia|]. split; [lia|]. split.
    + intros p Hp. rewrite K3 by (intros Hin; apply Hp; now right).
      apply H3. intros ->. apply Hp. now left.
    + intros f' [<-|Hf'].
      * exact (process_file_reads _ _ _ _ _ _ _ E).
      * exact (process_file_no_new_document _ _ _ _ _ _ _ _ E (K4 f' Hf')).
Qed.

(** X15: a run that completes leaves every document outside the spine
    items it processed as it was, and it completes only when every spine
    item is a readable document: a missing one makes the run raise. *)
Theorem process_files_touches_only_spine_items
  (temp_dir cwd : string) (stability_api : option stability_client)
  (gemini : option gemini_client) (spine_items : list string)
  (st st' : run_state) :
  process_files temp_dir cwd stability_api gemini spine_items st = inr st' ->
  (forall p, ~ In p spine_items ->
     read_text p (documents st') = read_text p (documents st))
  /\ (forall f, In f spine_items -> read_text f (documents st) <> None).
Proof.
  intros H. destruct (process_files_effect _ _ _ _ _ _ _ H) as (_ & _ & H3 & H4).
  split; assumption.
Qed.

Lemma process_files_touches_only_spine_items_witness :
  read_text "toc.xhtml"
    [("ch1.xhtml", "<p>one</p>"); ("toc.xhtml", "<nav/>")] <> None.
Proof.
  apply (proj2 (process_files_touches_only_spine_items "/tmp/e" "/home" None None
                  ["toc.xhtml"]
                  {| documents := [("ch1.xhtml", "<p>one</p>"); ("toc.xhtml", "<nav/>")];
                     run_counter := 0;
                     run_world := {| fs := []; stability_calls := [] |};
                     run_gemini := {| gemini_calls := 0; slept := 0 |};
                     processed := [] |} _ eq_refl)).
  now left.
Defined.

(** X16: the illustration counter is shared by the documents of a run and
    is never reset: over a document, and over the whole loop, it only
    grows, and so does the number of calls of the augmentation service. *)
Theorem run_counter_never_decreases
  (temp_dir cwd : string) (stability_api : option stability_client)
  (gemini : option gemini_client) (spine_items : list string)
  (st st' : run_state) :
  process_files temp_dir cwd stability_api gemini spine_items st = inr st' ->
  run_counter st <= run_counter st'
  /\ gemini_calls (run_gemini st) <= gemini_calls (run_gemini st').
Proof.
  intros H. destruct (process_files_effect _ _ _ _ _ _ _ H) as (H1 & H2 & _).
  split; assumption.
Qed.

Lemma run_counter_never_decreases_witness :
  7 <= 8 /\ 0 <= 1.
Proof.
  exact (run_counter_never_decreases "/tmp/e" "/home" None
           (Some (fun _ => Returns "<p>text</p><!-- illustration: a cat -->"))
           ["/tmp/e/OEBPS/Text/ch1.xhtml"]
           {| documents :=
                [("/tmp/e/OEBPS/Text/ch1.xhtml",
                  String.concat EmptyString (List.repeat "<p>paragraph</p>" 40))];
              run_counter := 7;
              run_world := {| fs := []; stability_calls := [] |};
              run_gemini := {| gemini_calls := 0; slept := 0 |};
              processed := [] |}
           {| documents :=
                [("/tmp/e/OEBPS/Text/ch1.xhtml",
                  "<p>text</p><p><img src='../Images/illustration_7.png' alt='a cat' /></p>");
                 ("/tmp/e/OEBPS/Text/ch1.xhtml",
                  String.concat EmptyString (List.repeat "<p>paragraph</p>" 40))];
              run_counter := 8;
              run_world := {| fs := []; stability_calls := [] |};
              run_gemini := {| gemini_calls := 1; slept := 0 |};
              processed := ["/tmp/e/OEBPS/Text/ch1.xhtml"] |}
           eq_refl).
Defined.

(** X17: an augmented text with a line that has the opening token and no
    closing delimiter after it stops the whole run: the [ValueError] of the
    extraction is not caught, the document is not written and the remaining
    spine items are not visited. *)
Theorem unclosed_marker_aborts_the_run
  (temp_dir cwd : string) (stability_api : option stability_client)
  (gemini : option gemini_client) (f : string) (rest : list string)
  (st : run_state) (content illustrated line : string) (g : gemini_state) :
  read_text f (documents st) = Some content ->
  400 <= String.length content ->
  gemini_illustrate_file gemini default_max_retries default_sleep_seconds
    (run_gemini st) = (illustrated, g) ->
  In line (Py.split newline illustrated) ->
  Py.contains opening line = true ->
  (forall a b c, line <> a ++ opening ++ b ++ closing ++ c) ->
  process_files temp_dir cwd stability_api gemini (f :: rest) st = inl ValueError.
Proof.
  intros R L G I C N. cbn [process_files]. unfold process_file. rewrite R.
  destruct (Nat.ltb_spec (String.length content) 400) as [K|_]; [lia|].
  rewrite G.
  assert (illustrated <> EmptyString) as Hne.
  { intros ->. simpl in I. destruct I as [<-|[]]. discriminate. }
  destruct (String.eqb_spec illustrated EmptyString) as [E|_]; [contradiction|].
  unfold extract_illustrations.
  now rewrite (extract_loop_raises _ [] line I C N).
Qed.

Lemma unclosed_marker_aborts_the_run_witness :
  process_files "/tmp/e" "/home" None
    (Some (fun _ => Returns "<p>text</p><!-- illustration: a cat"))
    ["ch1.xhtml"; "ch2.xhtml"]
    {| documents :=
         [("ch1.xhtml", String.concat EmptyString (List.repeat "<p>paragraph</p>" 40));
          ("ch2.xhtml", "<p>two</p>")];
       run_counter := 0;
       run_world := {| fs := []; stability_calls := [] |};
       run_gemini := {| gemini_calls := 0; slept := 0 |};
       processed := [] |}
  = inl ValueError.
Proof.
  apply (unclosed_marker_aborts_the_run "/tmp/e" "/home" None
           (Some (fun _ => Returns "<p>text</p><!-- illustration: a cat"))
           "ch1.xhtml" ["ch2.xhtml"] _
           (String.concat EmptyString (List.repeat "<p>paragraph</p>" 40))
           "<p>text</p><!-- illustration: a cat"
           "<p>text</p><!-- illustration: a cat"
           {| gemini_calls := 1; slept := 0 |}).
  - reflexivity.
  - vm_compute. lia.
  - reflexivity.
  - now left.
  - reflexivity.
  - intros a b c H.
    assert (Py.contains closing "<p>text</p><!-- illustration: a cat" = true) as K.
    { rewrite H. apply contains_true. exists (a ++ opening ++ b), c.
      now rewrite !append_assoc. }
    discriminate K.
Defined.

(** ** The manifest and the spine *)

Lemma manifest_href_last (before : list Element) (item : Element)
  (id href : string) :
  dict_lookup "id" (attrib item) = Some id ->
  dict_lookup "href" (attrib item) = Some href ->
  manifest_href (before ++ [item])%list id = Some href.
Proof.
  intros Hid Hhref. induction before as [|x before IH].
  - simpl. now rewrite Hid, String.eqb_refl.
  - cbn [app manifest_href]. now rewrite IH.
Qed.

Lemma manifest_href_none (items : list Element) (id : string) :
  (forall item, In item items -> dict_lookup "id" (attrib item) <> Some id) ->
  manifest_href items id = None.
Proof.
  intros H. induction items as [|x items IH]; [reflexivity|].
  cbn [manifest_href]. rewrite IH by (intros i Hi; apply H; now right).
  destruct (dict_lookup "id" (attrib x)) as [id'|] eqn:E; [|reflexivity].
  destruct (String.eqb_spec id id') as [->|_]; [|reflexivity].
  exfalso. apply (H x); [now left | exact E].
Qed.

(** X18: in the manifest dictionary a later [item] overwrites an earlier one
    with the same [id]: the entry of an identifier is the [href] of the last
    item that has it, and an identifier that no item has is not a key. *)
Theorem manifest_last_item_wins
  (before : list Element) (item : Element) (after : list Element)
  (manifest : dict) (id href : string) :
  manifest_loop (before ++ item :: after)%list [] = inr manifest ->
  dict_lookup "id" (attrib item) = Some id ->
  dict_lookup "href" (attrib item) = Some href ->
  (forall x, In x after -> dict_lookup "id" (attrib x) <> Some id) ->
  dict_get id manifest = inr href
  /\ forall id',
       (forall x, In x (before ++ item :: after)%list ->
          dict_lookup "id" (attrib x) <> Some id') ->
       dict_get id' manifest = inl (KeyError id').
Proof.
  intros Hm Hid Hhref Hafter. unfold dict_get. split.
  - rewrite (manifest_loop_lookup _ _ _ id Hm).
    assert (manifest_href (before ++ item :: after)%list id = Some href) as E.
    { clear Hm. induction after as [|y after IH] using rev_ind.
      - now apply manifest_href_last.
      - replace (before ++ item :: after ++ [y])%list
          with ((before ++ item :: after) ++ [y])%list
          by (rewrite <- app_assoc; reflexivity).
        assert (forall l, manifest_href (l ++ [y])%list id = manifest_href l id) as K.
        { induction l as [|z l IHl].
          - simpl. destruct (dict_lookup "id" (attrib y)) as [i|] eqn:Ey; [|reflexivity].
            destruct (String.eqb_spec id i) as [->|_]; [|reflexivity].
            exfalso. apply (Hafter y); [apply in_or_app; right; now left | exact Ey].
          - cbn [app manifest_href]. now rewrite IHl. }
        rewrite K. apply IH. intros x Hx. apply Hafter. apply in_or_app. now left. }
    now rewrite E.
  - intros id' Hnone. rewrite (manifest_loop_lookup _ _ _ id' Hm).
    now rewrite (manifest_href_none _ _ Hnone).
Qed.

Lemma manifest_last_item_wins_witness :
  dict_get "c1" [("c1", "new.xhtml"); ("c2", "b.xhtml"); ("c1", "old.xhtml")]
  = inr "new.xhtml".
Proof.
  apply (proj1 (manifest_last_item_wins
                  [Elem "item" [("id", "c1"); ("href", "old.xhtml")] [];
                   Elem "item" [("id", "c2"); ("href", "b.xhtml")] []]
                  (Elem "item" [("id", "c1"); ("href", "new.xhtml")] [])
                  [] _ "c1" "new.xhtml" eq_refl eq_refl eq_refl
                  ltac:(intros x []))).
Defined.

Lemma spine_loop_length (opf_path : string) (manifest : dict)
  (itemrefs : list Element) (acc l : list string) :
  spine_loop opf_path manifest itemrefs acc = inr l ->
  List.length l = List.length acc + List.length itemrefs.
Proof.
  revert acc; induction itemrefs as [|r rs IH]; intros acc H.
  - simpl in H. injection H as <-. simpl. lia.
  - cbn [spine_loop] in H.
    destruct (dict_get "idref" (attrib r)) as [e|idref]; [discriminate|].
    destruct (dict_get idref manifest) as [e|href]; [discriminate|].
    rewrite (IH _ H), length_app. simpl. lia.
Qed.

(** X19: when spine resolution returns, it returns one path for each child
    of the spine element, whatever the tag of the child: none is skipped,
    so that a child without [idref], and an [idref] the manifest does not
    have, both make the resolution raise. *)
Theorem spine_has_one_path_per_child
  (opf_path : string) (opf_root : Element) (spine_items : list string) :
  spine_of_opf opf_path opf_root = inr spine_items ->
  exists spine_el,
    find_child (qname (opf_namespace opf_root) "spine") opf_root = Some spine_el
    /\ List.length spine_items = List.length (children spine_el)
    /\ forall itemref, In itemref (children spine_el) ->
         dict_lookup "idref" (attrib itemref) <> None.
Proof.
  unfold spine_of_opf.
  destruct (find_child (qname (opf_namespace opf_root) "manifest") opf_root)
    as [m|]; [|discriminate].
  destruct (manifest_loop (children m) []) as [e|manifest]; [discriminate|].
  destruct (find_child (qname (opf_namespace opf_root) "spine") opf_root)
    as [sp|]; [|discriminate].
  intros H. exists sp. split; [reflexivity|]. split.
  - exact (spine_loop_length _ _ _ [] _ H).
  - revert H. generalize (@nil string). induction (children sp) as [|r rs IH];
      intros acc H itemref Hin; [destruct Hin|].
    cbn [spine_loop] in H. unfold dict_get in H at 1.
    destruct (dict_lookup "idref" (attrib r)) as [idref|] eqn:E; [|discriminate].
    destruct (dict_get idref manifest) as [e|href]; [discriminate|].
    destruct Hin as [<-|Hin]; [congruence | exact (IH _ H itemref Hin)].
Qed.

Lemma spine_has_one_path_per_child_witness :
  exists spine_el,
    find_child (qname "http://www.idpf.org/2007/opf" "spine")
      (Elem "{http://www.idpf.org/2007/opf}package" []
         [Elem "{http://www.idpf.org/2007/opf}manifest" []
            [Elem "{http://www.idpf.org/2007/opf}item"
               [("id", "c1"); ("href", "ch1.xhtml")] []];
          Elem "{http://www.idpf.org/2007/opf}spine" []
            [Elem "{http://www.idpf.org/2007/opf}itemref" [("idref", "c1")] [];
             Elem "anything" [("idref", "c1")] []]]) = Some spine_el
    /\ List.length ["/tmp/e/ch1.xhtml"; "/tmp/e/ch1.xhtml"]
       = List.length (children spine_el).
Proof.
  destruct (spine_has_one_path_per_child "/tmp/e/content.opf"
              (Elem "{http://www.idpf.org/2007/opf}package" []
                 [Elem "{http://www.idpf.org/2007/opf}manifest" []
                    [Elem "{http://www.idpf.org/2007/opf}item"
                       [("id", "c1"); ("href", "ch1.xhtml")] []];
                  Elem "{http://www.idpf.org/2007/opf}spine" []
                    [Elem "{http://www.idpf.org/2007/opf}itemref" [("idref", "c1")] [];
                     Elem "anything" [("idref", "c1")] []]])
              ["/tmp/e/ch1.xhtml"; "/tmp/e/ch1.xhtml"] eq_refl)
    as (sp & H1 & H2 & _).
  exists sp. split; [exact H1 | exact H2].
Defined.

(** ** The repackager *)

Lemma lookup_entry_none (name : string) (entries : list (string * node)) (n : node) :
  lookup_entry name entries = None -> ~ In (name, n) entries.
Proof.
  induction entries as [|[m x] entries IH]; intros H; [intros []|].
  simpl in H. destruct (String.eqb_spec name m) as [->|Hne]; [discriminate|].
  intros [E|I]; [injection E as E _; congruence | exact (IH H I)].
Qed.

Lemma as_posix_has_sep (a b : string) (rest : list string) :
  Py.contains "/" (as_posix (a :: b :: rest)) = true.
Proof.
  apply contains_true. exists a, (String.concat "/" (b :: rest)). reflexivity.
Qed.

(** X20: for a working tree without [mimetype] at its root nothing is
    stored uncompressed: every entry of the archive is deflated and is a
    file of the tree under its relative path, every file of the tree has
    its entry, and no entry is named [mimetype]. *)
Theorem zip_epub_without_mimetype (entries : list (string * node)) :
  lookup_entry "mimetype" entries = None ->
  (forall e, In e (zip_epub (Dir entries)) ->
     compress_type e = ZIP_DEFLATED
     /\ arcname e <> "mimetype"
     /\ exists path,
          is_file_at (Dir entries) path (payload e) /\ arcname e = as_posix path)
  /\ (forall path d,
        is_file_at (Dir entries) path d ->
        In {| arcname := as_posix path; compress_type := ZIP_DEFLATED; payload := d |}
          (zip_epub (Dir entries))).
Proof.
  intros Hm. unfold zip_epub, mimetype_first. rewrite Hm. cbn [app]. split.
  - intros e He. apply in_flat_map in He. destruct He as ([fo fs_] & Hw & He).
    cbn [fst snd] in He. apply zip_folder_entry in He.
    destruct He as (name & d' & Hin & Hne & ->). cbn.
    split; [reflexivity|]. split; [exact Hne|].
    destruct (walk_sound _ _ _ _ _ _ Hw Hin) as (path & Hp & Hat).
    exists path. split; [exact Hat | now rewrite Hp].
  - intros path d Hat.
    assert (as_posix path <> "mimetype") as Hne.
    { intros E. inversion Hat as [es nm d0 Hin|es sub nm p d0 Hin Hsub]; subst.
      - change (nm = "mimetype") in E. rewrite E in Hin.
        exact (lookup_entry_none _ _ _ Hm Hin).
      - inversion Hsub as [es' nm' d1 Hin'|es' sub' nm' p' d1 Hin' Hsub']; subst.
        + pose proof (as_posix_has_sep nm nm' []) as K. rewrite E in K.
          discriminate.
        + pose proof (as_posix_has_sep nm nm' p') as K. rewrite E in K.
          discriminate. }
    destruct (walk_complete _ _ _ Hat []) as (fo & fs_ & name & H1 & H2 & H3).
    apply in_flat_map. exists (fo, fs_). split; [exact H1|]. cbn [fst snd].
    apply zip_folder_entry. exists name, d. cbn [app] in H3. rewrite H3.
    split; [exact H2|]. split; [exact Hne | reflexivity].
Qed.

Lemma zip_epub_without_mimetype_witness :
  In {| arcname := "OEBPS/content.opf"; compress_type := ZIP_DEFLATED;
        payload := [Byte.x63] |}
    (zip_epub (Dir [("OEBPS", Dir [("content.opf", File [Byte.x63])])])).
Proof.
  apply (proj2 (zip_epub_without_mimetype
                  [("OEBPS", Dir [("content.opf", File [Byte.x63])])] eq_refl)
           ["OEBPS"; "content.opf"] [Byte.x63]).
  apply (file_below _ [("content.opf", File [Byte.x63])]); [now left|].
  apply file_here. now left.
Defined.

(** ** The output path *)

Lemma rfind_char_spec (c : ascii) (s : string) (i : nat) :
  rfind_char c s = Some i -> exists t, Py.drop i s = String c t.
Proof.
  revert i; induction s as [|a s IH]; intros i H; [discriminate|].
  simpl in H. destruct (rfind_char c s) as [j|].
  - injection H as <-. simpl. now apply IH.
  - destruct (Ascii.eqb_spec a c) as [->|_]; [|discriminate].
    injection H as <-. now exists s.
Qed.

Lemma splitext_spec (p : string) :
  fst (splitext p) ++ snd (splitext p) = p
  /\ (snd (splitext p) = EmptyString
      \/ exists t, snd (splitext p) = String "." t).
Proof.
  unfold splitext. destruct (rfind_char "." p) as [dot|] eqn:E.
  - destruct (_ && _)%bool; cbn [fst snd].
    + split; [apply take_drop | right; exact (rfind_char_spec _ _ _ E)].
    + split; [apply append_nil_r | now left].
  - cbn [fst snd]. split; [apply append_nil_r | now left].
Qed.

Lemma rfind_char_app (c : ascii) (x y : string) :
  rfind_char c (x ++ y)
  = match rfind_char c y with
    | Some i => Some (String.length x + i)
    | None => rfind_char c x
    end.
Proof.
  induction x as [|a x IH].
  - cbn [append String.length Nat.add rfind_char].
    destruct (rfind_char c y); reflexivity.
  - change (String a x ++ y) with (String a (x ++ y)).
    cbn [rfind_char String.length]. rewrite IH.
    destruct (rfind_char c y); reflexivity.
Qed.

Lemma rfind_char_none (c : ascii) (s : string) :
  Py.contains (String c EmptyString) s = false -> rfind_char c s = None.
Proof.
  induction s as [|a s IH]; [reflexivity|].
  rewrite contains_char_cons. intros H. apply orb_false_iff in H.
  destruct H as [H1 H2]. cbn [rfind_char]. rewrite (IH H2).
  rewrite Ascii.eqb_sym in H1. now rewrite H1.
Qed.

Lemma rfind_char_lt (c : ascii) (s : string) (i : nat) :
  rfind_char c s = Some i -> i < String.length s.
Proof.
  revert i; induction s as [|a s IH]; intros i H; [discriminate|].
  cbn [rfind_char] in H. cbn [String.length].
  destruct (rfind_char c s) as [j|].
  - injection H as <-. specialize (IH j eq_refl). lia.
  - destruct (Ascii.eqb a c); [|discriminate]. injection H as <-. lia.
Qed.

(** The index after the last separator is the length of the directory part,
    when that part is empty or ends with the separator and what follows has
    no separator. *)
Lemma filename_index (d rest : string) :
  d = EmptyString \/ (exists d', d = d' ++ "/") ->
  Py.contains "/" rest = false ->
  match rfind_char "/" (d ++ rest) with Some sepIndex => S sepIndex | None => 0 end
  = String.length d.
Proof.
  intros Hd Hrest. rewrite rfind_char_app, (rfind_char_none _ _ Hrest).
  destruct Hd as [->|[d' ->]]; [reflexivity|].
  rewrite rfind_char_app. cbn [rfind_char]. rewrite Ascii.eqb_refl.
  rewrite length_append. cbn [String.length]. lia.
Qed.

(** [splitext] on a path whose last component is [name.e]. *)
Lemma splitext_last_component (d name e : string) :
  d = EmptyString \/ (exists d', d = d' ++ "/") ->
  Py.contains "/" name = false ->
  Py.contains "." e = false ->
  Py.contains "/" e = false ->
  splitext (d ++ name ++ "." ++ e)
  = if all_dots name then (d ++ name ++ "." ++ e, EmptyString)
    else (d ++ name, "." ++ e).
Proof.
  intros Hd Hname Hdot Hsep. unfold splitext.
  assert (rfind_char "." (d ++ name ++ "." ++ e)
          = Some (String.length d + String.length name)) as ->.
  { rewrite <- append_assoc, rfind_char_app.
    change ("." ++ e) with (String "." e). cbn [rfind_char].
    rewrite (rfind_char_none _ _ Hdot). cbn [Ascii.eqb Bool.eqb].
    now rewrite length_append, Nat.add_0_r. }
  rewrite filename_index; [|exact Hd|].
  2:{ rewrite contains_char_app, Hname.
      change ("." ++ e) with (String "." e).
      now rewrite contains_char_cons, Hsep. }
  replace (Nat.leb (String.length d) (String.length d + String.length name))
    with true by (symmetry; apply Nat.leb_le; lia).
  unfold Py.slice.
  replace (String.length d + String.length name - String.length d)
    with (String.length name) by lia.
  rewrite drop_app_length, take_app_length. cbn [andb].
  destruct (all_dots name); cbn [negb]; [reflexivity|].
  rewrite <- length_append.
  rewrite <- (append_assoc d name ("." ++ e)).
  now rewrite take_app_length, drop_app_length.
Qed.

(** [splitext] on a path whose last component has no dot. *)
Lemma splitext_no_extension (d e : string) :
  Py.contains "/" e = false ->
  Py.contains "." e = false ->
  splitext (d ++ "/" ++ e) = (d ++ "/" ++ e, EmptyString).
Proof.
  intros Hsep Hdot. unfold splitext.
  destruct (rfind_char "." (d ++ "/" ++ e)) as [dot|] eqn:E; [|reflexivity].
  assert (dot < String.length d) as Hlt.
  { rewrite rfind_char_app in E.
    change ("/" ++ e) with (String "/" e) in E. cbn [rfind_char] in E.
    rewrite (rfind_char_none _ _ Hdot) in E. cbn [Ascii.eqb Bool.eqb] in E.
    now apply rfind_char_lt in E. }
  assert (rfind_char "/" (d ++ "/" ++ e) = Some (String.length d)) as ->.
  { rewrite rfind_char_app. change ("/" ++ e) with (String "/" e).
    cbn [rfind_char]. rewrite (rfind_char_none _ _ Hsep).
    cbn [Ascii.eqb Bool.eqb]. now rewrite Nat.add_0_r. }
  replace (Nat.leb (S (String.length d)) dot) with false
    by (symmetry; apply Nat.leb_gt; lia).
  reflexivity.
Qed.

(** X22: the default output path is the input path with the extension of
    its last component replaced by [_illustrated.epub].  For a last component
    [name.e] with no dot in [e] the extension is [.e], unless [name] is empty
    or made of dots, in which case, as for a last component without a dot
    (whatever the dots of the directory part), the suffix is added to the
    whole path.  The default is never the input path, so that the input
    archive is not overwritten; an empty [--output] counts as none and any
    other is taken as it is. *)
Theorem default_output_is_not_the_input (epub_path : string) :
  resolve_output_path None epub_path <> epub_path
  /\ resolve_output_path (Some EmptyString) epub_path
     = resolve_output_path None epub_path
  /\ (forall o, o <> EmptyString -> resolve_output_path (Some o) epub_path = o)
  /\ (forall d name e,
        epub_path = d ++ name ++ "." ++ e ->
        d = EmptyString \/ (exists d', d = d' ++ "/") ->
        Py.contains "/" name = false ->
        Py.contains "." e = false ->
        Py.contains "/" e = false ->
        resolve_output_path None epub_path
        = if all_dots name then epub_path ++ "_illustrated.epub"
          else d ++ name ++ "_illustrated.epub")
  /\ (forall d e,
        epub_path = d ++ "/" ++ e ->
        Py.contains "/" e = false ->
        Py.contains "." e = false ->
        resolve_output_path None epub_path = epub_path ++ "_illustrated.epub")
  /\ (Py.contains "." epub_path = false ->
      resolve_output_path None epub_path = epub_path ++ "_illustrated.epub").
Proof.
  destruct (splitext_spec epub_path) as [H1 H2].
  split; [|split; [reflexivity|split; [|split; [|split]]]].
  - unfold resolve_output_path. intros E. rewrite <- H1 in E at 2.
    apply append_inv_head in E. destruct H2 as [H2|[t H2]]; rewrite H2 in E;
      discriminate.
  - intros o Ho. unfold resolve_output_path.
    destruct (String.eqb_spec o EmptyString); [contradiction | reflexivity].
  - intros d name e -> Hd Hname Hdot Hsep. unfold resolve_output_path.
    rewrite (splitext_last_component d name e Hd Hname Hdot Hsep).
    destruct (all_dots name); cbn [fst]; [reflexivity|].
    now rewrite append_assoc.
  - intros d e -> Hsep Hdot. unfold resolve_output_path.
    now rewrite (splitext_no_extension d e Hsep Hdot).
  - intros Hdot. unfold resolve_output_path, splitext.
    now rewrite (rfind_char_none _ _ Hdot).
Qed.

Lemma default_output_is_not_the_input_witness :
  resolve_output_path None "/books/my.book.epub" = "/books/my.book_illustrated.epub"
  /\ resolve_output_path None "/books/.epub" = "/books/.epub_illustrated.epub"
  /\ resolve_output_path None "/books.d/book" = "/books.d/book_illustrated.epub"
  /\ resolve_output_path None "book" = "book_illustrated.epub"
  /\ resolve_output_path (Some "out.epub") "/books/my.book.epub" = "out.epub".
Proof.
  split; [|split; [|split; [|split]]].
  - apply (proj1 (proj2 (proj2 (proj2
             (default_output_is_not_the_input "/books/my.book.epub"))))
             "/books/" "my.book" "epub").
    + reflexivity.
    + right. now exists "/books".
    + reflexivity.
    + reflexivity.
    + reflexivity.
  - apply (proj1 (proj2 (proj2 (proj2
             (default_output_is_not_the_input "/books/.epub"))))
             "/books/" EmptyString "epub").
    + reflexivity.
    + right. now exists "/books".
    + reflexivity.
    + reflexivity.
    + reflexivity.
  - apply (proj1 (proj2 (proj2 (proj2 (proj2
             (default_output_is_not_the_input "/books.d/book")))))
             "/books.d" "book").
    + reflexivity.
    + reflexivity.
    + reflexivity.
  - apply (proj2 (proj2 (proj2 (proj2 (proj2
             (default_output_is_not_the_input "book")))))).
    reflexivity.
  - apply (proj1 (proj2 (proj2
             (default_output_is_not_the_input "/books/my.book.epub")))).
    discriminate.
Defined.

(** *** Entry names *)

Lemma well_formed_dir (entries : list (string * node)) :
  well_formed (Dir entries) ->
  NoDup (List.map fst entries)
  /\ forall e, In e entries ->
       Py.contains "/" (fst e) = false /\ well_formed (snd e).
Proof.
  cbn [well_formed]. intros [H1 H2]. split; [exact H1|]. clear H1.
  induction entries as [|x es IH]; intros e He; [destruct He|].
  destruct H2 as (Ha & Hb & Hc). destruct He as [<-|He]; [now split | now apply IH].
Qed.

Lemma flat_map_flat_map {A B C : Type} (g : B -> list C) (h : A -> list B)
  (l : list A) :
  List.flat_map g (List.flat_map h l)
  = List.flat_map (fun a => List.flat_map g (h a)) l.
Proof.
  induction l as [|a l IH]; [reflexivity|].
  cbn [List.flat_map]. now rewrite flat_map_app, IH.
Qed.

Lemma walk_paths_dir (folder : list string) (entries : list (string * node)) :
  walk_paths folder (Dir entries)
  = (List.flat_map
       (fun e => match snd e with
                 | File _ => [(folder ++ [fst e])%list]
                 | Dir _ => []
                 end) entries
     ++ List.flat_map
          (fun e => match snd e with
                    | Dir _ => walk_paths (folder ++ [fst e]) (snd e)
                    | File _ => []
                    end) entries)%list.
Proof.
  unfold walk_paths. cbn [walk List.flat_map fst snd]. f_equal.
  - induction entries as [|[n c] es IH]; [reflexivity|].
    cbn [List.flat_map fst snd]. rewrite map_app, IH. now destruct c.
  - rewrite flat_map_flat_map. apply flat_map_ext. intros [n c]. now destruct c.
Qed.

Lemma walk_paths_shape (n : node) :
  well_formed n ->
  forall folder p, In p (walk_paths folder n) ->
    exists rel,
      p = (folder ++ rel)%list /\ rel <> []
      /\ Forall (fun name => Py.contains "/" name = false) rel.
Proof.
  induction n as [d|entries IH] using node_nested_ind; intros Hwf folder p Hp;
    [destruct Hp|].
  destruct (well_formed_dir _ Hwf) as [_ Hes].
  rewrite walk_paths_dir in Hp. apply in_app_or in Hp. destruct Hp as [Hp|Hp];
    apply in_flat_map in Hp; destruct Hp as ([nm c] & He & Hp); cbn [fst snd] in Hp.
  - destruct c as [d|sub]; [|destruct Hp]. destruct Hp as [<-|[]].
    exists [nm]. split; [reflexivity|]. split; [discriminate|].
    constructor; [exact (proj1 (Hes _ He)) | constructor].
  - destruct c as [d|sub]; [destruct Hp|].
    rewrite Forall_forall in IH.
    destruct (IH _ He (proj2 (Hes _ He)) _ _ Hp) as (rel & -> & Hne & Hok).
    exists (nm :: rel). split; [now rewrite <- app_assoc|]. split; [discriminate|].
    constructor; [exact (proj1 (Hes _ He)) | exact Hok].
Qed.

Lemma walk_paths_nodup (n : node) :
  well_formed n -> forall folder, NoDup (walk_paths folder n).
Proof.
  induction n as [d|entries IH] using node_nested_ind; intros Hwf folder;
    [constructor|].
  destruct (well_formed_dir _ Hwf) as [Hnd Hes]. rewrite Forall_forall in IH.
  rewrite walk_paths_dir. apply NoDup_app.
  - clear IH Hwf. induction entries as [|[nm c] es IHes]; [constructor|].
    cbn [List.flat_map fst snd]. inversion Hnd as [|? ? Hnot Hnd']; subst.
    assert (NoDup (List.flat_map
                     (fun e => match snd e with
                               | File _ => [(folder ++ [fst e])%list]
                               | Dir _ => []
                               end) es)) as Hrec
        by (apply IHes; [exact Hnd' | intros e He; apply Hes; now right]).
    destruct c as [d|sub]; [|exact Hrec]. cbn [app]. constructor; [|exact Hrec].
    intros Hin. apply in_flat_map in Hin. destruct Hin as ([nm' c'] & He' & Hin).
    cbn [fst snd] in Hin. destruct c' as [d'|sub']; [|destruct Hin].
    destruct Hin as [E|[]]. apply app_inv_head in E. injection E as ->.
    apply Hnot. apply in_map_iff. now exists (nm, File d').
  - clear Hwf. induction entries as [|[nm c] es IHes]; [constructor|].
    cbn [List.flat_map fst snd]. inversion Hnd as [|? ? Hnot Hnd']; subst.
    assert (NoDup (List.flat_map
                     (fun e => match snd e with
                               | Dir _ => walk_paths (folder ++ [fst e]) (snd e)
                               | File _ => []
                               end) es)) as Hrec.
    { apply IHes; [| exact Hnd' | intros e He; apply Hes; now right].
      intros e He. apply IH. now right. }
    destruct c as [d|sub]; [exact Hrec|]. apply NoDup_app; [| exact Hrec |].
    + apply (IH (nm, Dir sub)); [now left|]. exact (proj2 (Hes _ (or_introl eq_refl))).
    + intros p Hp Hin.
      destruct (walk_paths_shape _ (proj2 (Hes _ (or_introl eq_refl))) _ _ Hp)
        as (rel & -> & _ & _).
      apply in_flat_map in Hin. destruct Hin as ([nm' c'] & He' & Hin).
      cbn [fst snd] in Hin. destruct c' as [d'|sub']; [destruct Hin|].
      destruct (walk_paths_shape _ (proj2 (Hes _ (or_intror He'))) _ _ Hin)
        as (rel' & E & _ & _).
      rewrite <- !app_assoc in E. apply app_inv_head in E. injection E as -> _.
      apply Hnot. apply in_map_iff. now exists (nm', Dir sub').
  - intros p Hp Hin. apply in_flat_map in Hp. destruct Hp as ([nm c] & He & Hp).
    cbn [fst snd] in Hp. destruct c as [d|sub]; [|destruct Hp].
    destruct Hp as [<-|[]].
    apply in_flat_map in Hin. destruct Hin as ([nm' c'] & He' & Hin).
    cbn [fst snd] in Hin. destruct c' as [d'|sub']; [destruct Hin|].
    destruct (walk_paths_shape _ (proj2 (Hes _ He')) _ _ Hin)
      as (rel' & E & Hne & _).
    rewrite <- app_assoc in E. apply app_inv_head in E. injection E as _ E.
    now subst rel'.
Qed.

Lemma split_join (parts : list string) :
  parts <> [] ->
  Forall (fun name => Py.contains "/" name = false) parts ->
  Py.split "/" (Py.join "/" parts) = parts.
Proof.
  intros Hne H. induction H as [|x ps Hx Hps IH]; [congruence|].
  destruct ps as [|y ps].
  - apply split_no_sep. exact Hx.
  - change (Py.join "/" (x :: y :: ps))
      with (x ++ String "/" (Py.join "/" (y :: ps))).
    rewrite split_at_sep, IH by discriminate.
    now rewrite (split_no_sep "/" x Hx).
Qed.

Lemma as_posix_inj (p q : list string) :
  p <> [] -> q <> [] ->
  Forall (fun name => Py.contains "/" name = false) p ->
  Forall (fun name => Py.contains "/" name = false) q ->
  as_posix p = as_posix q -> p = q.
Proof.
  intros Hp Hq Fp Fq E. unfold as_posix in E.
  rewrite <- (split_join p Hp Fp), <- (split_join q Hq Fq). now rewrite E.
Qed.

Lemma zip_folder_names (folder : list string) (fs_ : list (string * bytes)) :
  List.map arcname (zip_folder folder fs_)
  = List.filter (fun s => negb (String.eqb s "mimetype"))
      (List.map as_posix (List.map (fun f => (folder ++ [fst f])%list) fs_)).
Proof.
  unfold zip_folder. induction fs_ as [|f fs_ IH]; [reflexivity|].
  cbn [List.flat_map List.map List.filter]. rewrite map_app, IH.
  now destruct (String.eqb (as_posix (folder ++ [fst f])) "mimetype").
Qed.

Lemma zip_names (ws : list (list string * list (string * bytes))) :
  List.map arcname (List.flat_map (fun w => zip_folder (fst w) (snd w)) ws)
  = List.filter (fun s => negb (String.eqb s "mimetype"))
      (List.map as_posix
         (List.flat_map
            (fun w => List.map (fun f => (fst w ++ [fst f])%list) (snd w)) ws)).
Proof.
  induction ws as [|w ws IH]; [reflexivity|].
  cbn [List.flat_map]. now rewrite !map_app, filter_app, IH, zip_folder_names.
Qed.

(** X21: for a working tree as a file system has it (in a directory no two
    entries share a name, no name contains [/]) in which [mimetype], when
    present, is a file, no two entries of the archive have the same
    name. *)
Theorem zip_epub_names_distinct (entries : list (string * node)) :
  well_formed (Dir entries) ->
  (forall sub, lookup_entry "mimetype" entries <> Some (Dir sub)) ->
  NoDup (List.map arcname (zip_epub (Dir entries))).
Proof.
  intros Hwf Hm. unfold zip_epub. rewrite map_app, zip_names.
  fold (walk_paths [] (Dir entries)).
  assert (NoDup (List.filter (fun s => negb (String.eqb s "mimetype"))
                   (List.map as_posix (walk_paths [] (Dir entries))))) as Hrest.
  { apply NoDup_filter. apply NoDup_map_NoDup_ForallPairs.
    - intros p q Hp Hq E.
      destruct (walk_paths_shape _ Hwf _ _ Hp) as (rp & -> & Hnp & Fp).
      destruct (walk_paths_shape _ Hwf _ _ Hq) as (rq & -> & Hnq & Fq).
      cbn [app] in *. now apply as_posix_inj.
    - now apply walk_paths_nodup. }
  unfold mimetype_first.
  destruct (lookup_entry "mimetype" entries) as [[d|sub]|] eqn:E.
  - cbn [List.map app arcname]. constructor; [|exact Hrest].
    intros Hin. apply filter_In in Hin. destruct Hin as [_ Hin].
    now rewrite String.eqb_refl in Hin.
  - exfalso. exact (Hm sub eq_refl).
  - exact Hrest.
Qed.

Lemma zip_epub_names_distinct_witness :
  NoDup ["mimetype"; "META-INF/container.xml"; "OEBPS/mimetype"; "OEBPS/content.opf"].
Proof.
  apply (zip_epub_names_distinct
           [("META-INF", Dir [("container.xml", File [Byte.x3c])]);
            ("mimetype", File [Byte.x61]);
            ("OEBPS", Dir [("mimetype", File [Byte.x62]);
                           ("content.opf", File [Byte.x63])])]).
  - cbn [well_formed List.map fst snd].
    repeat split; try reflexivity;
      repeat (constructor; [simpl; intuition discriminate|]); constructor.
  - intros sub H. discriminate H.
Defined.

(** ** Documents that are not rewritten *)

(** X23: when the augmentation gives nothing (an empty result) or a text
    from which no description is extracted, the document is not written:
    it stays as it was before the augmentation, the augmented text is
    dropped, and no index is spent. *)
Theorem document_without_markers_is_not_written
  (temp_dir cwd : string) (stability_api : option stability_client)
  (gemini : option gemini_client) (f : string) (st : run_state)
  (content illustrated : string) (g : gemini_state) :
  read_text f (documents st) = Some content ->
  gemini_illustrate_file gemini default_max_retries default_sleep_seconds
    (run_gemini st) = (illustrated, g) ->
  illustrated = EmptyString \/ extract_illustrations illustrated = inr [] ->
  exists st',
    process_file temp_dir cwd stability_api gemini f st = inr st'
    /\ documents st' = documents st
    /\ run_counter st' = run_counter st
    /\ run_world st' = run_world st
    /\ processed st' = (processed st ++ [f])%list.
Proof.
  intros R G H. unfold process_file. rewrite R.
  destruct (Nat.ltb (String.length content) 400).
  { eexists. split; [reflexivity|]. cbn. repeat split. }
  rewrite G. destruct (String.eqb_spec illustrated EmptyString) as [E|E].
  { eexists. split; [reflexivity|]. cbn. repeat split. }
  destruct H as [H|H]; [contradiction|]. rewrite H.
  eexists. split; [reflexivity|]. cbn. repeat split.
Qed.

Lemma document_without_markers_is_not_written_witness :
  exists st',
    process_file "/tmp/e" "/home" None
      (Some (fun _ => Returns "<p>augmented, without marker</p>")) "ch1.xhtml"
      {| documents :=
           [("ch1.xhtml",
             String.concat EmptyString (List.repeat "<p>paragraph</p>" 40))];
         run_counter := 0;
         run_world := {| fs := []; stability_calls := [] |};
         run_gemini := {| gemini_calls := 0; slept := 0 |};
         processed := [] |} = inr st'
    /\ documents st'
       = [("ch1.xhtml", String.concat EmptyString (List.repeat "<p>paragraph</p>" 40))].
Proof.
  destruct (document_without_markers_is_not_written "/tmp/e" "/home" None
              (Some (fun _ => Returns "<p>augmented, without marker</p>"))
              "ch1.xhtml"
              {| documents :=
                   [("ch1.xhtml",
                     String.concat EmptyString (List.repeat "<p>paragraph</p>" 40))];
                 run_counter := 0;
                 run_world := {| fs := []; stability_calls := [] |};
                 run_gemini := {| gemini_calls := 0; slept := 0 |};
                 processed := [] |}
              _ "<p>augmented, without marker</p>"
              {| gemini_calls := 1; slept := 0 |} eq_refl eq_refl
              (or_intror eq_refl)) as (st' & H1 & H2 & _).
  exists st'. split; [exact H1 | exact H2].
Defined.

(** * Evaluations on concrete inputs *)

Example extract_two_lines :
  extract_illustrations
    ("<p>a</p>" ++ String newline "<!-- illustration:  a cat  --> x <!-- illustration: b -->"
       ++ String newline "<!-- illustration:c-->")
  = inr ["a cat"; "c"].
Proof. reflexivity. Qed.

Example extract_unclosed_raises :
  extract_illustrations
    ("<!-- illustration: a cat" ++ String newline "sitting -->")
  = inl ValueError.
Proof. reflexivity. Qed.

Example extract_closing_before_opening_raises :
  extract_illustrations "--> <!-- illustration: a cat" = inl ValueError.
Proof. reflexivity. Qed.

Example replace_nonoverlapping :
  Py.replace "aa" "b" "aaa" = "ba" /\ Py.replace "ab" "X" "abcabab" = "XcXX".
Proof. split; reflexivity. Qed.

Example replace_empty_old : Py.replace EmptyString "-" "abc" = "-a-b-c-".
Proof. reflexivity. Qed.

Example html_escape_all :
  html_escape ("a<b>&'c'" ++ dquote) = "a&lt;b&gt;&amp;&#x27;c&#x27;&quot;".
Proof. reflexivity. Qed.

Example posixpath_examples :
  posixpath.join "/tmp/x" "OEBPS/content.opf" = "/tmp/x/OEBPS/content.opf"
  /\ posixpath.join "a" "/b" = "/b"
  /\ posixpath.dirname "/tmp/x/OEBPS/content.opf" = "/tmp/x/OEBPS"
  /\ posixpath.dirname "content.opf" = EmptyString
  /\ posixpath.normpath "/tmp/x/OEBPS/../Text/./ch1.xhtml" = "/tmp/x/Text/ch1.xhtml"
  /\ posixpath.normpath "a/../../b" = "../b"
  /\ posixpath.relpath "/home" "/tmp/x/OEBPS/Images" "/tmp/x/OEBPS/Text" = "../Images".
Proof. repeat split; reflexivity. Qed.

Example spine_missing_idref :
  spine_of_opf "/tmp/e/content.opf"
    (Elem "{http://www.idpf.org/2007/opf}package" []
       [Elem "{http://www.idpf.org/2007/opf}manifest" []
          [Elem "{http://www.idpf.org/2007/opf}item"
             [("id", "c1"); ("href", "ch1.xhtml")] []];
        Elem "{http://www.idpf.org/2007/opf}spine" []
          [Elem "{http://www.idpf.org/2007/opf}itemref" [("idref", "c1")] [];
           Elem "{http://www.idpf.org/2007/opf}itemref" [("idref", "c9")] []]])
  = inl (KeyError "c9").
Proof. reflexivity. Qed.

Example extract_epub_spine_items_run :
  extract_epub_spine_items "/tmp/e"
    (fun p =>
       if String.eqb p "/tmp/e/META-INF/container.xml" then
         inr (Elem "{urn:oasis:names:tc:opendocument:xmlns:container}container" []
                [Elem "{urn:oasis:names:tc:opendocument:xmlns:container}rootfiles" []
                   [Elem "{urn:oasis:names:tc:opendocument:xmlns:container}rootfile"
                      [("full-path", "OEBPS/content.opf")] []]])
       else if String.eqb p "/tmp/e/OEBPS/content.opf" then
         inr (Elem "{http://www.idpf.org/2007/opf}package" []
                [Elem "{http://www.idpf.org/2007/opf}manifest" []
                   [Elem "{http://www.idpf.org/2007/opf}item"
                      [("id", "c1"); ("href", "Text/ch1.xhtml")] []];
                 Elem "{http://www.idpf.org/2007/opf}spine" []
                   [Elem "{http://www.idpf.org/2007/opf}itemref"
                      [("idref", "c1")] []]])
       else inl (FileNotFoundError p))
  = inr ("/tmp/e", ["/tmp/e/OEBPS/Text/ch1.xhtml"]).
Proof. reflexivity. Qed.

Example limit_examples :
  limit_spine_items (Some 1%Z) ["a"; "b"] = ["a"]
  /\ limit_spine_items (Some 5%Z) ["a"; "b"] = ["a"; "b"]
  /\ limit_spine_items (Some (-1)%Z) ["a"; "b"] = ["a"; "b"]
  /\ limit_spine_items None ["a"; "b"] = ["a"; "b"].
Proof. repeat split; reflexivity. Qed.

Example zip_without_mimetype :
  List.map arcname (zip_epub (Dir [("a.txt", File []); ("d", Dir [("b.txt", File [])])]))
  = ["a.txt"; "d/b.txt"].
Proof. reflexivity. Qed.

Example retry_gives_up_on_other_error :
  gemini_illustrate_file (Some (fun _ => Raises "400 INVALID_ARGUMENT"))
    default_max_retries default_sleep_seconds {| gemini_calls := 0; slept := 0 |}
  = (EmptyString, {| gemini_calls := 1; slept := 0 |}).
Proof. reflexivity. Qed.

Example retry_exhausted :
  gemini_illustrate_file (Some (fun _ => Raises "overloaded"))
    default_max_retries default_sleep_seconds {| gemini_calls := 0; slept := 0 |}
  = (EmptyString, {| gemini_calls := 5; slept := 25 |}).
Proof. reflexivity. Qed.
